(** * Izod Mini touch wheel: sensing pipeline, calibration and sensitivity
    profile

    A shallow embedding of
    - [include/touch_config.h] and [src/touch/sensitivity_manager.cpp]
      (the sensitivity profile and its persistence),
    - [src/touch/touch_calibration.cpp] (calibration data, the per-electrode
      accessors and the auto-tuner),
    - [src/touch_wheel.cpp] (the poll loop: centre-of-mass sums, activity
      gate, step accumulator and the drained step counter),
    followed by the properties of the specification that these functions
    decide.

    Conventions.  C integers are [Z] with the wrap-around of each
    conversion written out ([u8], [u16], [i16], [wrap32]).  C floats are
    binary32 values, embedded as integer multiples of [2^-149] with
    round-to-nearest-even written out (module [F32]).  Fixed-size C
    arrays are lists, indexed with stdpp's lookup and insert; a
    well-formedness predicate records their length.  A function that
    mutates its argument through a pointer returns the new value next to
    its C result.  Every function that starts with a null-pointer test is
    embedded for a non-null argument.  Serial logging is left out. *)

From Stdlib Require Import ZArith Lia Bool List String.
From Stdlib Require Import Floats.SpecFloat.
From stdpp Require Import base list list_numbers gmap strings pretty.

Local Open Scope Z_scope.

(* ===================================================================== *)
(** * Part I.  Definitions                                                *)
(* ===================================================================== *)

(** ** Machine integers *)

Definition u8 (z : Z) : Z := z mod 256.
Definition u16 (z : Z) : Z := z mod 65536.
Definition i16 (z : Z) : Z := (z + 32768) mod 65536 - 32768.
Definition wrap32 (z : Z) : Z := (z + 2147483648) mod 4294967296 - 2147483648.

(** Arduino's [constrain(amt, low, high)] macro. *)
Definition constrain (amt low high : Z) : Z :=
  if amt <? low then low else if amt >? high then high else amt.

(** Reading and writing a C array at an index the caller has bounded. *)
Definition arr_get {A} (dflt : A) (a : list A) (i : Z) : A :=
  default dflt (a !! Z.to_nat i).
Definition arr_set {A} (a : list A) (i : Z) (v : A) : list A :=
  <[Z.to_nat i := v]> a.

(** ** touch_config.h *)

Definition TOUCH_SENSITIVITY_DEFAULT : Z := 3.
Definition TOUCH_SENSITIVITY_MIN : Z := 1.
Definition TOUCH_SENSITIVITY_MAX : Z := 5.
Definition TOUCH_ELECTRODE_COUNT : Z := 12.
Definition TOUCH_SMALL_PAD_ELECTRODE : Z := 11.

Record touch_sensitivity_config_t := {
  global_level : Z;
  touch_threshold : list Z;
  release_threshold : list Z;
  custom_per_pad : bool;
  small_pad_compensation : bool;
  debounce_count : Z;
  filter_config : Z;
  auto_calibration : bool;
  calibration_interval_ms : Z
}.

(** The two arrays of a configuration have [TOUCH_ELECTRODE_COUNT] cells. *)
Definition config_wf (c : touch_sensitivity_config_t) : Prop :=
  length (touch_threshold c) = 12%nat ∧ length (release_threshold c) = 12%nat.

Definition set_global_level (c : touch_sensitivity_config_t) (v : Z) :=
  {| global_level := v;
     touch_threshold := touch_threshold c;
     release_threshold := release_threshold c;
     custom_per_pad := custom_per_pad c;
     small_pad_compensation := small_pad_compensation c;
     debounce_count := debounce_count c;
     filter_config := filter_config c;
     auto_calibration := auto_calibration c;
     calibration_interval_ms := calibration_interval_ms c |}.

Definition set_touch_threshold (c : touch_sensitivity_config_t) (i v : Z) :=
  {| global_level := global_level c;
     touch_threshold := arr_set (touch_threshold c) i v;
     release_threshold := release_threshold c;
     custom_per_pad := custom_per_pad c;
     small_pad_compensation := small_pad_compensation c;
     debounce_count := debounce_count c;
     filter_config := filter_config c;
     auto_calibration := auto_calibration c;
     calibration_interval_ms := calibration_interval_ms c |}.

Definition set_release_threshold (c : touch_sensitivity_config_t) (i v : Z) :=
  {| global_level := global_level c;
     touch_threshold := touch_threshold c;
     release_threshold := arr_set (release_threshold c) i v;
     custom_per_pad := custom_per_pad c;
     small_pad_compensation := small_pad_compensation c;
     debounce_count := debounce_count c;
     filter_config := filter_config c;
     auto_calibration := auto_calibration c;
     calibration_interval_ms := calibration_interval_ms c |}.

Definition set_custom_per_pad (c : touch_sensitivity_config_t) (v : bool) :=
  {| global_level := global_level c;
     touch_threshold := touch_threshold c;
     release_threshold := release_threshold c;
     custom_per_pad := v;
     small_pad_compensation := small_pad_compensation c;
     debounce_count := debounce_count c;
     filter_config := filter_config c;
     auto_calibration := auto_calibration c;
     calibration_interval_ms := calibration_interval_ms c |}.

(** [TOUCH_CONFIG_DEFAULT], the factory profile of the header. *)
Definition TOUCH_CONFIG_DEFAULT : touch_sensitivity_config_t :=
  {| global_level := TOUCH_SENSITIVITY_DEFAULT;
     touch_threshold := [8; 8; 8; 8; 8; 8; 8; 8; 8; 8; 8; 6];
     release_threshold := [4; 4; 4; 4; 4; 4; 4; 4; 4; 4; 4; 3];
     custom_per_pad := false;
     small_pad_compensation := true;
     debounce_count := 2;
     filter_config := 4;
     auto_calibration := true;
     calibration_interval_ms := 30000 |}.

(** ** sensitivity_manager.cpp *)

(** [sensitivity_levels] and [small_pad_levels]: one
    [(touch_threshold, release_threshold)] row per level. *)
Definition sensitivity_levels : list (Z * Z) :=
  [(15, 10); (12, 8); (8, 4); (6, 3); (4, 2)].
Definition small_pad_levels : list (Z * Z) :=
  [(12, 8); (10, 6); (6, 3); (4, 2); (3, 1)].

(** Body of the loop of [touch_config_set_sensitivity_level] for electrode
    [i]. *)
Definition set_level_body (level_index : Z)
    (config : touch_sensitivity_config_t) (i : Z) : touch_sensitivity_config_t :=
  if (i =? TOUCH_SMALL_PAD_ELECTRODE) && small_pad_compensation config then
    let row := arr_get (0, 0) small_pad_levels level_index in
    set_release_threshold (set_touch_threshold config i (fst row)) i (snd row)
  else
    let row := arr_get (0, 0) sensitivity_levels level_index in
    set_release_threshold (set_touch_threshold config i (fst row)) i (snd row).

Definition touch_config_set_sensitivity_level
    (config : touch_sensitivity_config_t) (level : Z)
    : bool * touch_sensitivity_config_t :=
  if (level <? TOUCH_SENSITIVITY_MIN) || (level >? TOUCH_SENSITIVITY_MAX) then
    (false, config)
  else
    let config := set_global_level config level in
    let level_index := u8 (level - 1) in
    (true, foldl (set_level_body level_index) config
                 (seqZ 0 TOUCH_ELECTRODE_COUNT)).

Definition touch_config_init_defaults
    (config : touch_sensitivity_config_t) : touch_sensitivity_config_t :=
  let config :=
    {| global_level := TOUCH_SENSITIVITY_DEFAULT;
       touch_threshold := touch_threshold config;
       release_threshold := release_threshold config;
       custom_per_pad := false;
       small_pad_compensation := true;
       debounce_count := 2;
       filter_config := 4;
       auto_calibration := true;
       calibration_interval_ms := 30000 |} in
  snd (touch_config_set_sensitivity_level config (global_level config)).

Definition touch_config_set_electrode_threshold
    (config : touch_sensitivity_config_t)
    (electrode touch_thr release_thr : Z)
    : bool * touch_sensitivity_config_t :=
  if electrode >=? TOUCH_ELECTRODE_COUNT then (false, config)
  else if (touch_thr =? 0) || (release_thr =? 0) || (touch_thr <=? release_thr)
  then (false, config)
  else
    let config := set_touch_threshold config electrode touch_thr in
    let config := set_release_threshold config electrode release_thr in
    (true, set_custom_per_pad config true).

(** The loop of [touch_config_validate] returns [false] at the first
    offending electrode; [forallb] stops there as well. *)
Definition threshold_ok (config : touch_sensitivity_config_t) (i : Z) : bool :=
  negb ((arr_get 0 (touch_threshold config) i =? 0)
        || (arr_get 0 (release_threshold config) i =? 0)
        || (arr_get 0 (touch_threshold config) i
              <=? arr_get 0 (release_threshold config) i)).

Definition touch_config_validate (config : touch_sensitivity_config_t) : bool :=
  if (global_level config <? TOUCH_SENSITIVITY_MIN)
     || (global_level config >? TOUCH_SENSITIVITY_MAX)
  then false
  else forallb (threshold_ok config) (seqZ 0 TOUCH_ELECTRODE_COUNT).

(** *** The [Preferences] store

    [Preferences] is the ESP32 Arduino key/value library, not part of the
    repository.  It is modelled by its contract: [begin] may fail (the
    namespace cannot be opened), and a typed getter returns the stored
    value when the key holds a value of that type, the caller's default
    otherwise. *)

Inductive nvs_value :=
| NvsUChar (v : Z)
| NvsBool (b : bool)
| NvsULong (v : Z).

(** [None]: [begin("touch_config", ...)] fails.  [Some m]: the namespace
    opens and holds the entries [m]. *)
Definition preferences := option (gmap string nvs_value).

Definition getUChar (m : gmap string nvs_value) (key : string) (dflt : Z) : Z :=
  match m !! key with Some (NvsUChar v) => v | _ => dflt end.
Definition getBool (m : gmap string nvs_value) (key : string) (dflt : bool) : bool :=
  match m !! key with Some (NvsBool b) => b | _ => dflt end.
Definition getULong (m : gmap string nvs_value) (key : string) (dflt : Z) : Z :=
  match m !! key with Some (NvsULong v) => v | _ => dflt end.

(** [snprintf(key, sizeof(key), "touch_th_%d", i)] and its sibling. *)
Definition touch_th_key (i : Z) : string := "touch_th_" +:+ pretty i.
Definition release_th_key (i : Z) : string := "release_th_" +:+ pretty i.

Definition load_thresholds_body (m : gmap string nvs_value)
    (config : touch_sensitivity_config_t) (i : Z) : touch_sensitivity_config_t :=
  let config := set_touch_threshold config i (getUChar m (touch_th_key i) 8) in
  set_release_threshold config i (getUChar m (release_th_key i) 4).

Definition touch_config_load_from_nvs (prefs : preferences)
    (config : touch_sensitivity_config_t)
    : bool * touch_sensitivity_config_t :=
  match prefs with
  | None => (false, config)
  | Some m =>
      let config :=
        {| global_level := getUChar m "global_level" TOUCH_SENSITIVITY_DEFAULT;
           touch_threshold := touch_threshold config;
           release_threshold := release_threshold config;
           custom_per_pad := getBool m "custom_per_pad" false;
           small_pad_compensation := getBool m "small_pad_comp" true;
           debounce_count := getUChar m "debounce_count" 2;
           filter_config := getUChar m "filter_config" 4;
           auto_calibration := getBool m "auto_cal" true;
           calibration_interval_ms := getULong m "cal_interval" 30000 |} in
      let config := foldl (load_thresholds_body m) config
                          (seqZ 0 TOUCH_ELECTRODE_COUNT) in
      if negb (touch_config_validate config)
      then (false, touch_config_init_defaults config)
      else (true, config)
  end.

(** [touch_config_save_to_nvs]: nothing is written unless the profile
    validates and the namespace opens for writing ([writable]). *)
Definition save_thresholds_body (config : touch_sensitivity_config_t)
    (m : gmap string nvs_value) (i : Z) : gmap string nvs_value :=
  let m := <[touch_th_key i := NvsUChar (arr_get 0 (touch_threshold config) i)]> m in
  <[release_th_key i := NvsUChar (arr_get 0 (release_threshold config) i)]> m.

Definition touch_config_save_to_nvs (writable : bool) (prefs : preferences)
    (config : touch_sensitivity_config_t) : bool * preferences :=
  if negb (touch_config_validate config) then (false, prefs)
  else if negb writable then (false, prefs)
  else
    let m := default ∅ prefs in
    let m := <["global_level" := NvsUChar (global_level config)]> m in
    let m := <["custom_per_pad" := NvsBool (custom_per_pad config)]> m in
    let m := <["small_pad_comp" := NvsBool (small_pad_compensation config)]> m in
    let m := <["debounce_count" := NvsUChar (debounce_count config)]> m in
    let m := <["filter_config" := NvsUChar (filter_config config)]> m in
    let m := <["auto_cal" := NvsBool (auto_calibration config)]> m in
    let m := <["cal_interval" := NvsULong (calibration_interval_ms config)]> m in
    (true, Some (foldl (save_thresholds_body config) m
                       (seqZ 0 TOUCH_ELECTRODE_COUNT))).

(** ** touch_calibration.cpp *)

Record touch_calibration_data_t := {
  baseline : list Z;
  filtered_data : list Z;
  touch_delta : list Z;
  electrode_enabled : list bool;
  last_calibration_time : Z;
  calibration_needed : bool
}.

(** The four arrays of the calibration data have [TOUCH_ELECTRODE_COUNT]
    cells. *)
Definition calibration_wf (g : touch_calibration_data_t) : Prop :=
  length (baseline g) = 12%nat ∧ length (filtered_data g) = 12%nat ∧
  length (touch_delta g) = 12%nat ∧ length (electrode_enabled g) = 12%nat.

Definition set_electrode_enabled (g : touch_calibration_data_t)
    (l : list bool) : touch_calibration_data_t :=
  {| baseline := baseline g;
     filtered_data := filtered_data g;
     touch_delta := touch_delta g;
     electrode_enabled := l;
     last_calibration_time := last_calibration_time g;
     calibration_needed := calibration_needed g |}.

Definition set_calibration_needed (g : touch_calibration_data_t)
    (b : bool) : touch_calibration_data_t :=
  {| baseline := baseline g;
     filtered_data := filtered_data g;
     touch_delta := touch_delta g;
     electrode_enabled := electrode_enabled g;
     last_calibration_time := last_calibration_time g;
     calibration_needed := b |}.

Definition set_touch_delta (g : touch_calibration_data_t)
    (l : list Z) : touch_calibration_data_t :=
  {| baseline := baseline g;
     filtered_data := filtered_data g;
     touch_delta := l;
     electrode_enabled := electrode_enabled g;
     last_calibration_time := last_calibration_time g;
     calibration_needed := calibration_needed g |}.

(** *** Accessors taking a caller-supplied electrode index

    The index is a [uint8_t].  An array access is checked here: reading or
    writing outside the array yields [None], so that a result [Some _]
    says the call stayed inside every array it touched. *)

Definition arr_read {A} (a : list A) (i : Z) : option A :=
  if i <? 0 then None else a !! Z.to_nat i.
Definition arr_write {A} (a : list A) (i : Z) (v : A) : option (list A) :=
  if (0 <=? i) && (i <? Z.of_nat (length a)) then Some (arr_set a i v) else None.

Definition touch_calibration_is_electrode_touched
    (g : touch_calibration_data_t) (config : touch_sensitivity_config_t)
    (electrode : Z) : option bool :=
  if electrode >=? TOUCH_ELECTRODE_COUNT then Some false
  else
    enabled ← arr_read (electrode_enabled g) electrode;
    if negb enabled then Some false
    else
      delta ← arr_read (touch_delta g) electrode;
      threshold ← arr_read (touch_threshold config) electrode;
      Some (delta >=? threshold).

Definition touch_calibration_get_electrode_delta
    (g : touch_calibration_data_t) (electrode : Z) : option Z :=
  if electrode >=? TOUCH_ELECTRODE_COUNT then Some 0
  else arr_read (touch_delta g) electrode.

Definition touch_calibration_get_electrode_baseline
    (g : touch_calibration_data_t) (electrode : Z) : option Z :=
  if electrode >=? TOUCH_ELECTRODE_COUNT then Some 0
  else arr_read (baseline g) electrode.

Definition touch_calibration_get_electrode_filtered
    (g : touch_calibration_data_t) (electrode : Z) : option Z :=
  if electrode >=? TOUCH_ELECTRODE_COUNT then Some 0
  else arr_read (filtered_data g) electrode.

Definition touch_calibration_is_electrode_enabled
    (g : touch_calibration_data_t) (electrode : Z) : option bool :=
  if electrode >=? TOUCH_ELECTRODE_COUNT then Some false
  else arr_read (electrode_enabled g) electrode.

Definition touch_calibration_enable_electrode
    (g : touch_calibration_data_t) (electrode : Z) (enable : bool)
    : option touch_calibration_data_t :=
  if electrode >=? TOUCH_ELECTRODE_COUNT then Some g
  else
    l ← arr_write (electrode_enabled g) electrode enable;
    let g := set_electrode_enabled g l in
    Some (if enable then set_calibration_needed g true else g).

(** *** Deltas and the auto-tuner *)

Definition calculate_touch_deltas_body (g : touch_calibration_data_t)
    (i : Z) : touch_calibration_data_t :=
  let filtered := arr_get 0 (filtered_data g) i in
  let base := arr_get 0 (baseline g) i in
  if base >? filtered
  then set_touch_delta g (arr_set (touch_delta g) i (u16 (base - filtered)))
  else set_touch_delta g (arr_set (touch_delta g) i 0).

Definition calculate_touch_deltas (g : touch_calibration_data_t)
    : touch_calibration_data_t :=
  foldl calculate_touch_deltas_body g (seqZ 0 TOUCH_ELECTRODE_COUNT).

(** [uint16_t noise_level = abs((int16_t)baseline - (int16_t)filtered)]. *)
Definition noise_level (base filtered : Z) : Z :=
  u16 (Z.abs (i16 base - i16 filtered)).

(** The two recommendations: each is first stored in a [uint8_t], then
    passed to [constrain] and stored again. *)
Definition recommended_touch_threshold (noise : Z) : Z :=
  u8 (constrain (u8 (noise * 2 + 5)) 3 30).
Definition recommended_release_threshold (noise : Z) : Z :=
  u8 (constrain (u8 (noise + 2)) 1 15).

(** Body of the loop of [touch_calibration_auto_tune_sensitivity]; the
    accumulator is [(changes_made, config)]. *)
Definition auto_tune_body (g : touch_calibration_data_t)
    (acc : bool * touch_sensitivity_config_t) (electrode : Z)
    : bool * touch_sensitivity_config_t :=
  if negb (arr_get false (electrode_enabled g) electrode) then acc
  else
    let noise := noise_level (arr_get 0 (baseline g) electrode)
                             (arr_get 0 (filtered_data g) electrode) in
    let touch' := recommended_touch_threshold noise in
    let release' := recommended_release_threshold noise in
    if Z.abs (arr_get 0 (touch_threshold (snd acc)) electrode - touch') >? 2
    then (true, set_release_threshold
                  (set_touch_threshold (snd acc) electrode touch')
                  electrode release')
    else acc.

(** The result pairs [changes_made] with the profile; when changes were
    made the C function goes on to apply and save the profile. *)
Definition touch_calibration_auto_tune_sensitivity
    (g : touch_calibration_data_t) (config : touch_sensitivity_config_t)
    : bool * touch_sensitivity_config_t :=
  foldl (auto_tune_body g) (false, config) (seqZ 0 TOUCH_ELECTRODE_COUNT).

(** ** Binary32 arithmetic

    [touch_wheel.cpp] computes positions and the fractional accumulator
    in C [float].  A finite binary32 number is an integer multiple of
    [2^-149] (the smallest subnormal): it is embedded as that integer, so
    [1.0f] is [2^149] and [0.5f] is [2^148].  An integer [x] is a binary32
    value when its magnitude fits in 24 significant bits; a sum or
    difference is computed exactly and rounded to the nearest such
    integer, ties to the even significand, as IEEE 754 prescribes.  The
    embedding covers finite values below the overflow threshold
    [2^128], which the wheel never approaches. *)

Module F32.

(** Exponent of the unit in the last place of a magnitude [n]. *)
Definition ulp_exp (n : Z) : Z := Z.max 0 (Z.log2 n - 23).

Definition representable (x : Z) : Prop :=
  Z.abs x mod 2 ^ ulp_exp (Z.abs x) = 0.

(** Round a magnitude to nearest, ties to even. *)
Definition rne_mag (n : Z) : Z :=
  let d := ulp_exp n in
  let q := n / 2 ^ d in
  let r := n mod 2 ^ d in
  if 2 * r <? 2 ^ d then q * 2 ^ d
  else if 2 ^ d <? 2 * r then (q + 1) * 2 ^ d
  else if Z.even q then q * 2 ^ d
  else (q + 1) * 2 ^ d.

Definition rne (x : Z) : Z := Z.sgn x * rne_mag (Z.abs x).

Definition add (x y : Z) : Z := rne (x + y).
Definition sub (x y : Z) : Z := rne (x - y).
Definition opp (x : Z) : Z := - x.

(** [(float)n] for an integer [n] of at most 24 bits. *)
Definition of_int (n : Z) : Z := n * 2 ^ 149.
Definition one : Z := 2 ^ 149.
Definition half : Z := 2 ^ 148.

End F32.

(** The embedding next to the Standard Library's specification of IEEE 754
    arithmetic, [SpecFloat], at the binary32 parameters (precision 24,
    [emax] 128): the conversions, and the comparison of sums and
    differences on a pair of values. *)
Definition to_spec_float (x : Z) : spec_float :=
  binary_normalize 24 128 x (-149) false.

Definition of_spec_float (f : spec_float) : option Z :=
  match f with
  | S754_zero _ => Some 0
  | S754_finite s m e => Some ((if s then -1 else 1) * Z.pos m * 2 ^ (e + 149))
  | _ => None
  end.

Definition agrees_with_spec_float (x y : Z) : bool :=
  bool_decide (of_spec_float (SFadd 24 128 (to_spec_float x) (to_spec_float y))
               = Some (F32.add x y))
  && bool_decide (of_spec_float (SFsub 24 128 (to_spec_float x) (to_spec_float y))
                  = Some (F32.sub x y)).

(** Binary32 values around the constants of the wheel ([0.5], [1], [6],
    [6.5], [12]), positions with full 24-bit significands, tiny values
    and subnormals, of both signs. *)
Definition binary32_samples : list Z :=
  [0; 1; 3; 2 ^ 23; 2 ^ 24 - 1; 2 ^ 119; 2 ^ 147; 2 ^ 148; 2 ^ 149;
   3 * 2 ^ 147; 6 * 2 ^ 149; 13 * 2 ^ 148; 12 * 2 ^ 149;
   2 ^ 148 + 2 ^ 125; 2 ^ 149 - 2 ^ 125; 2 ^ 149 + 2 ^ 126;
   11184811 * 2 ^ 126; 13421773 * 2 ^ 122; 16777215 * 2 ^ 128;
   15099494 * 2 ^ 129; 5 * 2 ^ 122; 7 * 2 ^ 100;
   -1; -3; - 2 ^ 119; - 2 ^ 147; - 2 ^ 148; - 2 ^ 149; - (13 * 2 ^ 148);
   - (11184811 * 2 ^ 126); - (13421773 * 2 ^ 122); - (16777215 * 2 ^ 125)].


(** ** touch_wheel.cpp *)

(** One poll of the MPR121 through the Adafruit driver (not part of the
    repository): the touched bitmask and, per channel, the filtered and
    baseline counts ([uint16_t]).  The driver answers 0 for a channel it
    does not have, as [arr_get 0] does past the end of the list. *)
Record mpr121_frame := {
  touched : Z;
  filteredData : list Z;
  baselineData : list Z
}.

(** The file-scope variables of [touch_wheel.cpp] together with the local
    [lastPos] of [touchTask], which lives across iterations. *)
Record touch_wheel_t := {
  s_accumDelta : Z;
  s_order : list Z;
  s_orderCount : Z;
  s_invert : bool;
  s_fracMove : Z;
  s_isActive : bool;
  s_activeFrames : Z;
  s_quietFrames : Z;
  lastPos : Z
}.

(** The state the initialisers of the file set up. *)
Definition touch_wheel_init : touch_wheel_t :=
  {| s_accumDelta := 0;
     s_order := [0; 1; 2; 3; 4; 5; 6; 7; 8; 9; 10; 11];
     s_orderCount := 12;
     s_invert := false;
     s_fracMove := 0;
     s_isActive := false;
     s_activeFrames := 0;
     s_quietFrames := 0;
     lastPos := F32.of_int (-1) |}.

(** *** Centre-of-mass sums

    [strength], [totalMag] and [maxStrength] are C floats holding
    integers of magnitude below [2^24] (a difference of two [uint16_t],
    or [32 - filtered]; at most twelve of them are added), which binary32
    represents exactly: they are embedded as [Z].  [sumX] and [sumY] go
    through [cosf] and [sinf]; what the loops determine of them is the
    sequence of [(i, strength)] pairs they accumulate, kept as [terms]. *)
Record com_sums := {
  terms : list (Z * Z);
  totalMag : Z;
  maxStrength : Z
}.

Definition com_empty : com_sums :=
  {| terms := []; totalMag := 0; maxStrength := 0 |}.

Definition com_add (s : com_sums) (i strength : Z) : com_sums :=
  {| terms := terms s ++ [(i, strength)];
     totalMag := totalMag s + strength;
     maxStrength := if strength >? maxStrength s then strength
                    else maxStrength s |}.

(** First loop: baseline minus filtered.  [strength < kStrengthMin] with
    [kStrengthMin = 0.5f] reads [2 * strength < 1] on an integer. *)
Definition com_baseline_body (w : touch_wheel_t) (hw : mpr121_frame)
    (s : com_sums) (i : Z) : com_sums :=
  let e := arr_get 0 (s_order w) i in
  let filtered := u16 (arr_get 0 (filteredData hw) e) in
  let base := u16 (arr_get 0 (baselineData hw) e) in
  let strength := base - filtered in
  let strength := if 2 * strength <? 1 then 0 else strength in
  if strength >? 0 then com_add s i strength else s.

(** Fallback loop: [fmaxf(0.0f, kFilteredMax - filtered)] with
    [kFilteredMax = 32.0f], kept when above [1.0f]. *)
Definition com_fallback_body (w : touch_wheel_t) (hw : mpr121_frame)
    (s : com_sums) (i : Z) : com_sums :=
  let e := arr_get 0 (s_order w) i in
  let strength := Z.max 0 (32 - u16 (arr_get 0 (filteredData hw) e)) in
  if strength >? 1 then com_add s i strength else s.

Definition com_estimate (w : touch_wheel_t) (hw : mpr121_frame) : com_sums :=
  let s := foldl (com_baseline_body w hw) com_empty (seqZ 0 (s_orderCount w)) in
  if totalMag s <=? 0
  then foldl (com_fallback_body w hw) s (seqZ 0 (s_orderCount w))
  else s.

(** *** Activity gate *)

Definition set_gate (w : touch_wheel_t) (active : bool)
    (activeFrames quietFrames : Z) : touch_wheel_t :=
  {| s_accumDelta := s_accumDelta w;
     s_order := s_order w;
     s_orderCount := s_orderCount w;
     s_invert := s_invert w;
     s_fracMove := s_fracMove w;
     s_isActive := active;
     s_activeFrames := activeFrames;
     s_quietFrames := quietFrames;
     lastPos := lastPos w |}.

(** [touchedBits || (maxStrength >= 10.0f)]. *)
Definition proposedActive (hw : mpr121_frame) (s : com_sums) : bool :=
  negb (touched hw =? 0) || (maxStrength s >=? 10).

(** Lines 100 to 103 of [touchTask]; the counters are [int]. *)
Definition activity_gate (w : touch_wheel_t) (proposed : bool) : touch_wheel_t :=
  let activeFrames := if proposed then wrap32 (s_activeFrames w + 1) else 0 in
  let quietFrames := if proposed then 0 else wrap32 (s_quietFrames w + 1) in
  let active := s_isActive w in
  let active := if negb active && (activeFrames >=? 2) then true else active in
  let active := if active && (quietFrames >=? 3) then false else active in
  set_gate w active activeFrames quietFrames.

(** *** Step accumulator *)

Definition set_motion (w : touch_wheel_t) (accum frac : Z) : touch_wheel_t :=
  {| s_accumDelta := accum;
     s_order := s_order w;
     s_orderCount := s_orderCount w;
     s_invert := s_invert w;
     s_fracMove := frac;
     s_isActive := s_isActive w;
     s_activeFrames := s_activeFrames w;
     s_quietFrames := s_quietFrames w;
     lastPos := lastPos w |}.

Definition set_lastPos (w : touch_wheel_t) (p : Z) : touch_wheel_t :=
  {| s_accumDelta := s_accumDelta w;
     s_order := s_order w;
     s_orderCount := s_orderCount w;
     s_invert := s_invert w;
     s_fracMove := s_fracMove w;
     s_isActive := s_isActive w;
     s_activeFrames := s_activeFrames w;
     s_quietFrames := s_quietFrames w;
     lastPos := p |}.

(** The wrap-corrected, possibly inverted difference of two positions.
    [s_orderCount / 2.0f] is a multiple of [0.5f], hence exact. *)
Definition wrapped_diff (count : Z) (invert : bool) (activePos last : Z) : Z :=
  let diff := F32.sub activePos last in
  let diff := if diff >? count * F32.half
              then F32.sub diff (F32.of_int count) else diff in
  let diff := if diff <? - (count * F32.half)
              then F32.add diff (F32.of_int count) else diff in
  if invert then F32.opp diff else diff.

(** The two [while] loops, on [(s_fracMove, s_accumDelta, stepDelta)].
    A loop that has not finished when [fuel] runs out yields [None]. *)
Fixpoint steps_up (fuel : nat) (frac accum stepDelta : Z) : option (Z * Z * Z) :=
  if frac >=? F32.half then
    match fuel with
    | O => None
    | S fuel => steps_up fuel (F32.sub frac F32.one)
                         (wrap32 (accum + 1)) (wrap32 (stepDelta + 1))
    end
  else Some (frac, accum, stepDelta).

Fixpoint steps_down (fuel : nat) (frac accum stepDelta : Z) : option (Z * Z * Z) :=
  if frac <=? - F32.half then
    match fuel with
    | O => None
    | S fuel => steps_down fuel (F32.add frac F32.one)
                           (wrap32 (accum - 1)) (wrap32 (stepDelta - 1))
    end
  else Some (frac, accum, stepDelta).

(** Lines 110 to 118: the result is the new state and [stepDelta]. *)
Definition step_accumulate (fuel : nat) (w : touch_wheel_t) (activePos : Z)
    : option (touch_wheel_t * Z) :=
  let diff := wrapped_diff (s_orderCount w) (s_invert w) activePos (lastPos w) in
  let frac := F32.add (s_fracMove w) diff in
  '(frac, accum, stepDelta) ← steps_up fuel frac (s_accumDelta w) 0;
  '(frac, accum, stepDelta) ← steps_down fuel frac accum stepDelta;
  Some (set_motion w accum frac, stepDelta).

(** *** One iteration of the loop of [touchTask] (connected controller) *)

Section TouchTask.

(** The binary32 value of [angle * s_orderCount / (2 * M_PI)] that lines
    61 to 63 and 86 to 89 compute from the accumulated terms with the C
    library's [cosf], [sinf] and [atan2f]; [position_estimate] below is
    that computation, with the three functions as parameters. *)
Variable com_position : list (Z * Z) → Z → Z.

Definition active_position (w : touch_wheel_t) (s : com_sums) : Z :=
  if totalMag s >? 0 then com_position (terms s) (s_orderCount w)
  else F32.of_int (-1).

Definition touchTask_iter (fuel : nat) (w : touch_wheel_t) (hw : mpr121_frame)
    : option (touch_wheel_t * Z) :=
  let s := com_estimate w hw in
  let activePos := active_position w s in
  let w := activity_gate w (proposedActive hw s) in
  '(w, stepDelta) ←
    (if s_isActive w && (activePos >=? 0) && (lastPos w >=? 0)
     then step_accumulate fuel w activePos
     else Some (w, 0));
  Some (if s_isActive w && (activePos >=? 0)
        then set_lastPos w activePos
        else set_lastPos (set_motion w (s_accumDelta w) 0) (F32.of_int (-1)),
        stepDelta).

End TouchTask.

(** *** The interface of touch_wheel.h *)

Definition touchWheelGetAndClearDelta (w : touch_wheel_t) : Z * touch_wheel_t :=
  let d := s_accumDelta w in
  (d, set_motion w 0 (s_fracMove w)).

Definition touchWheelSetInvert (w : touch_wheel_t) (invert : bool) : touch_wheel_t :=
  {| s_accumDelta := s_accumDelta w;
     s_order := s_order w;
     s_orderCount := s_orderCount w;
     s_invert := invert;
     s_fracMove := s_fracMove w;
     s_isActive := s_isActive w;
     s_activeFrames := s_activeFrames w;
     s_quietFrames := s_quietFrames w;
     lastPos := lastPos w |}.

(** [order] holds [count] entries. *)
Definition touchWheelSetElectrodeOrder (w : touch_wheel_t) (order : list Z)
    (count : Z) : touch_wheel_t :=
  if (count =? 0) || (count >? 12) then w
  else
    {| s_accumDelta := s_accumDelta w;
       s_order := foldl (λ a i, arr_set a i (arr_get 0 order i))
                        (s_order w) (seqZ 0 count);
       s_orderCount := count;
       s_invert := s_invert w;
       s_fracMove := s_fracMove w;
       s_isActive := s_isActive w;
       s_activeFrames := s_activeFrames w;
       s_quietFrames := s_quietFrames w;
       lastPos := lastPos w |}.

(** ** Vocabulary of the properties *)

(** The row of the lookup tables that level [level] assigns to electrode
    [i]. *)
Definition level_row (c : touch_sensitivity_config_t) (level i : Z) : Z * Z :=
  if (i =? TOUCH_SMALL_PAD_ELECTRODE) && small_pad_compensation c
  then arr_get (0, 0) small_pad_levels (level - 1)
  else arr_get (0, 0) sensitivity_levels (level - 1).

(** A profile with per-pad customisation on and a hand-set electrode 0. *)
Definition custom_profile : touch_sensitivity_config_t :=
  snd (touch_config_set_electrode_threshold TOUCH_CONFIG_DEFAULT 0 20 5).

(** The profile as a zero-initialised static holds it before anything is
    loaded ([g_touch_config] at start-up). *)
Definition zeroed_config : touch_sensitivity_config_t :=
  {| global_level := 0;
     touch_threshold := replicate 12 0;
     release_threshold := replicate 12 0;
     custom_per_pad := false;
     small_pad_compensation := false;
     debounce_count := 0;
     filter_config := 0;
     auto_calibration := false;
     calibration_interval_ms := 0 |}.

(** The record that [touch_config_load_from_nvs] reads out of an opened
    namespace, before validating it. *)
Definition stored_profile (m : gmap string nvs_value)
    (config : touch_sensitivity_config_t) : touch_sensitivity_config_t :=
  foldl (load_thresholds_body m)
    {| global_level := getUChar m "global_level" TOUCH_SENSITIVITY_DEFAULT;
       touch_threshold := touch_threshold config;
       release_threshold := release_threshold config;
       custom_per_pad := getBool m "custom_per_pad" false;
       small_pad_compensation := getBool m "small_pad_comp" true;
       debounce_count := getUChar m "debounce_count" 2;
       filter_config := getUChar m "filter_config" 4;
       auto_calibration := getBool m "auto_cal" true;
       calibration_interval_ms := getULong m "cal_interval" 30000 |}
    (seqZ 0 TOUCH_ELECTRODE_COUNT).

(** Calibration data of a ring at rest (baseline 200, one count of noise)
    whose electrode 0 reads 74 against its baseline of 200. *)
Definition pressed_calibration : touch_calibration_data_t :=
  {| baseline := replicate 12 200;
     filtered_data := 74 :: replicate 11 199;
     touch_delta := 126 :: replicate 11 1;
     electrode_enabled := replicate 12 true;
     last_calibration_time := 0;
     calibration_needed := false |}.

(** A frame qualifies when it makes [touchTask] propose "active". *)
Definition frame_qualifies (w : touch_wheel_t) (hw : mpr121_frame) : bool :=
  proposedActive hw (com_estimate w hw).

(** The wheel after the activity gate has seen a sequence of frames. *)
Definition gate_after (w : touch_wheel_t) (frames : list mpr121_frame)
    : touch_wheel_t :=
  foldl (λ w hw, activity_gate w (frame_qualifies w hw)) w frames.

(** The Idle state: inactive, both streak counters at zero. *)
Definition gate_idle (w : touch_wheel_t) : Prop :=
  s_isActive w = false ∧ s_activeFrames w = 0 ∧ s_quietFrames w = 0.

(** A frame with the given touched mask in which every channel rests at
    its baseline of 200. *)
Definition resting_frame (mask : Z) : mpr121_frame :=
  {| touched := mask;
     filteredData := replicate 13 200;
     baselineData := replicate 13 200 |}.

(** The same ring with electrode 0 pressed 50 counts below its baseline. *)
Definition pressed_frame (mask : Z) : mpr121_frame :=
  {| touched := mask;
     filteredData := 150 :: replicate 12 200;
     baselineData := replicate 13 200 |}.

(** Calibration data in which electrode 0 has been disabled. *)
Definition quarantined_calibration : touch_calibration_data_t :=
  {| baseline := replicate 12 200;
     filtered_data := replicate 12 200;
     touch_delta := replicate 12 0;
     electrode_enabled := false :: replicate 11 true;
     last_calibration_time := 0;
     calibration_needed := false |}.

(** What holds of the gate's fields after any run from Idle: an inactive
    gate has seen at most one qualifying frame in a row, an active one at
    most two failing frames in a row, and a non-zero active streak means
    the last frame qualified. *)
Definition gate_invariant (w0 w : touch_wheel_t) (frames : list mpr121_frame) : Prop :=
  (s_isActive w = false → 0 ≤ s_activeFrames w ≤ 1) ∧
  (s_isActive w = true → 0 ≤ s_quietFrames w ≤ 2) ∧
  (s_activeFrames w ≠ 0 →
   ∃ frames' hw, frames = frames' ++ [hw] ∧ frame_qualifies w0 hw = true).

(** A ring whose electrode 0 has baseline and filtered count both at 10,
    the other channels resting at 200. *)
Definition low_frame (mask : Z) : mpr121_frame :=
  {| touched := mask;
     filteredData := 10 :: replicate 12 200;
     baselineData := 10 :: replicate 12 200 |}.

(** The values of a C [int]. *)
Definition int_range (z : Z) : Prop := -2147483648 ≤ z < 2147483648.

(** A position the estimator can hand to the step accumulator: a binary32
    value from 0 (the accumulator runs only on [activePos >= 0]) up to the
    number of slots, with one slot of slack for the rounding of the
    estimator's last multiplication and division. *)
Definition position_ok (count p : Z) : Prop :=
  F32.representable p ∧ 0 ≤ p ≤ F32.of_int (count + 1).

(** The state the step accumulator expects inside an active session: a
    ring of 1 to 12 slots, the accumulator a binary32 value within a half,
    the last position one the estimator can produce. *)
Definition session_state (w : touch_wheel_t) : Prop :=
  1 ≤ s_orderCount w ≤ 12 ∧
  F32.representable (s_fracMove w) ∧ Z.abs (s_fracMove w) ≤ F32.half ∧
  position_ok (s_orderCount w) (lastPos w).

(** An uninterrupted active session: the gate stays active and every
    frame has a position, so each iteration of [touchTask] runs the step
    accumulator on the frame's position and then stores it in [lastPos].
    The result is the final state and the [stepDelta] of each frame. *)
Fixpoint session (fuel : nat) (w : touch_wheel_t) (positions : list Z)
    : option (touch_wheel_t * list Z) :=
  match positions with
  | [] => Some (w, [])
  | p :: positions =>
      '(w, d) ← step_accumulate fuel w p;
      '(w', steps) ← session fuel (set_lastPos w p) positions;
      Some (w', d :: steps)
  end.

(** The wrap-corrected, possibly inverted differences of the session. *)
Fixpoint session_diffs (count : Z) (invert : bool) (last : Z)
    (positions : list Z) : list Z :=
  match positions with
  | [] => []
  | p :: positions =>
      wrapped_diff count invert p last :: session_diffs count invert p positions
  end.

(** The rounding error of each frame's [s_fracMove += diff]: the binary32
    sum minus the exact sum. *)
Fixpoint session_rounding (fuel : nat) (w : touch_wheel_t) (positions : list Z)
    : list Z :=
  match positions with
  | [] => []
  | p :: positions =>
      let diff := wrapped_diff (s_orderCount w) (s_invert w) p (lastPos w) in
      (F32.add (s_fracMove w) diff - (s_fracMove w + diff))
      :: match step_accumulate fuel w p with
         | Some (w, _) => session_rounding fuel (set_lastPos w p) positions
         | None => []
         end
  end.

(** The wheel in the middle of an active session, right after a frame at
    position 0.25 left the accumulator at zero. *)
Definition quarter_wheel : touch_wheel_t :=
  {| s_accumDelta := 0;
     s_order := [0; 1; 2; 3; 4; 5; 6; 7; 8; 9; 10; 11];
     s_orderCount := 12;
     s_invert := false;
     s_fracMove := 0;
     s_isActive := true;
     s_activeFrames := 2;
     s_quietFrames := 0;
     lastPos := 2 ^ 147 |}.

(** Polls of the wheel task interleaved with drains by the consumer,
    each run as a whole: the runs in which no drain is preempted between
    its load and its store.  The two accesses of the drain are separated
    in [wheel_step] below. *)
Inductive wheel_event :=
| Poll (hw : mpr121_frame)
| Drain.

Section WheelRun.

Variable com_position : list (Z * Z) → Z → Z.

(** The final state, the [stepDelta] of each poll and the value each
    drain returned, in order. *)
Fixpoint wheel_run (fuel : nat) (events : list wheel_event)
    (w : touch_wheel_t) : option (touch_wheel_t * list Z * list Z) :=
  match events with
  | [] => Some (w, [], [])
  | Poll hw :: events =>
      '(w, d) ← touchTask_iter com_position fuel w hw;
      '(w', steps, drained) ← wheel_run fuel events w;
      Some (w', d :: steps, drained)
  | Drain :: events =>
      let '(d, w) := touchWheelGetAndClearDelta w in
      '(w', steps, drained) ← wheel_run fuel events w;
      Some (w', steps, d :: drained)
  end.

End WheelRun.

Definition sumZ (l : list Z) : Z := foldr Z.add 0 l.

(** What the gate reads: its fields and the electrode order. *)
Definition gate_view (w : touch_wheel_t) : bool * Z * Z * list Z * Z :=
  (s_isActive w, s_activeFrames w, s_quietFrames w, s_order w, s_orderCount w).

(** The frames a run polls, in order. *)
Fixpoint polled_frames (events : list wheel_event) : list mpr121_frame :=
  match events with
  | [] => []
  | Poll hw :: events => hw :: polled_frames events
  | Drain :: events => polled_frames events
  end.

(** A ring at rest except for slot [k], pressed 50 counts below its
    baseline, with no touched bit reported. *)
Definition slot_frame (k : Z) : mpr121_frame :=
  {| touched := 0;
     filteredData := arr_set (replicate 13 200) k 150;
     baselineData := replicate 13 200 |}.

(** A stand-in for the position pipeline on frames with a single pressed
    slot: the index of that slot. *)
Definition single_slot_position (terms : list (Z * Z)) (count : Z) : Z :=
  match terms with
  | [(i, _)] => F32.of_int i
  | _ => 0
  end.

(** A finger resting on slot 0 for two frames, moving on to slots 1 and 2,
    with a drain after the move and a second one right behind it. *)
Definition swipe : list wheel_event :=
  [Poll (slot_frame 0); Poll (slot_frame 0); Poll (slot_frame 1);
   Poll (slot_frame 2); Drain; Drain].

(** ** sensitivity_manager.cpp: the remaining configuration functions *)

Definition set_small_pad_compensation (c : touch_sensitivity_config_t) (v : bool) :=
  {| global_level := global_level c;
     touch_threshold := touch_threshold c;
     release_threshold := release_threshold c;
     custom_per_pad := custom_per_pad c;
     small_pad_compensation := v;
     debounce_count := debounce_count c;
     filter_config := filter_config c;
     auto_calibration := auto_calibration c;
     calibration_interval_ms := calibration_interval_ms c |}.

Definition touch_config_apply_small_pad_compensation
    (config : touch_sensitivity_config_t) : touch_sensitivity_config_t :=
  let config := set_small_pad_compensation config true in
  snd (touch_config_set_sensitivity_level config (global_level config)).

Record touch_wheel_config_t := {
  electrode_order : list Z;
  invert_direction : bool;
  center_of_mass_threshold : Z;
  position_hysteresis : Z;
  enable_interpolation : bool;
  scroll_acceleration : Z
}.

(** [TOUCH_WHEEL_CONFIG_DEFAULT] of the header. *)
Definition TOUCH_WHEEL_CONFIG_DEFAULT : touch_wheel_config_t :=
  {| electrode_order := [0; 1; 2; 3; 4; 5; 6; 7; 8; 9; 10; 11];
     invert_direction := false;
     center_of_mass_threshold := 3;
     position_hysteresis := 2;
     enable_interpolation := true;
     scroll_acceleration := 1 |}.

Definition touch_wheel_config_init_defaults (config : touch_wheel_config_t)
    : touch_wheel_config_t :=
  {| electrode_order := foldl (λ a i, arr_set a i (u8 i)) (electrode_order config)
                              (seqZ 0 TOUCH_ELECTRODE_COUNT);
     invert_direction := false;
     center_of_mass_threshold := 3;
     position_hysteresis := 2;
     enable_interpolation := true;
     scroll_acceleration := 1 |}.

(** [order] points to [TOUCH_ELECTRODE_COUNT] entries. *)
Definition touch_wheel_config_set_electrode_order (config : touch_wheel_config_t)
    (order : list Z) : touch_wheel_config_t :=
  {| electrode_order := foldl (λ a i, arr_set a i (arr_get 0 order i))
                              (electrode_order config)
                              (seqZ 0 TOUCH_ELECTRODE_COUNT);
     invert_direction := invert_direction config;
     center_of_mass_threshold := center_of_mass_threshold config;
     position_hysteresis := position_hysteresis config;
     enable_interpolation := enable_interpolation config;
     scroll_acceleration := scroll_acceleration config |}.

(** *** The hardware interface

    The globals of the file: the profile, the wheel configuration, the
    store, and of the MPR121 what the functions write to it, the touch and
    release threshold of each channel ([setThreshold] of the Adafruit
    driver). *)
Record touch_manager_t := {
  g_touch_config : touch_sensitivity_config_t;
  g_wheel_config : touch_wheel_config_t;
  g_mpr121 : list (Z * Z);
  g_preferences : preferences
}.

Definition manager_wf (m : touch_manager_t) : Prop :=
  config_wf (g_touch_config m) ∧ length (electrode_order (g_wheel_config m)) = 12%nat
  ∧ length (g_mpr121 m) = 12%nat.

Definition set_manager_config (m : touch_manager_t)
    (c : touch_sensitivity_config_t) : touch_manager_t :=
  {| g_touch_config := c;
     g_wheel_config := g_wheel_config m;
     g_mpr121 := g_mpr121 m;
     g_preferences := g_preferences m |}.

Definition set_manager_mpr121 (m : touch_manager_t) (regs : list (Z * Z))
    : touch_manager_t :=
  {| g_touch_config := g_touch_config m;
     g_wheel_config := g_wheel_config m;
     g_mpr121 := regs;
     g_preferences := g_preferences m |}.

Definition set_manager_preferences (m : touch_manager_t) (p : preferences)
    : touch_manager_t :=
  {| g_touch_config := g_touch_config m;
     g_wheel_config := g_wheel_config m;
     g_mpr121 := g_mpr121 m;
     g_preferences := p |}.

Definition set_manager_wheel (m : touch_manager_t) (c : touch_wheel_config_t)
    : touch_manager_t :=
  {| g_touch_config := g_touch_config m;
     g_wheel_config := c;
     g_mpr121 := g_mpr121 m;
     g_preferences := g_preferences m |}.

Definition apply_threshold_body (config : touch_sensitivity_config_t)
    (regs : list (Z * Z)) (i : Z) : list (Z * Z) :=
  arr_set regs i (arr_get 0 (touch_threshold config) i,
                  arr_get 0 (release_threshold config) i).

Definition touch_sensitivity_manager_apply_config (m : touch_manager_t)
    : bool * touch_manager_t :=
  if negb (touch_config_validate (g_touch_config m)) then (false, m)
  else (true, set_manager_mpr121 m
                (foldl (apply_threshold_body (g_touch_config m)) (g_mpr121 m)
                       (seqZ 0 TOUCH_ELECTRODE_COUNT))).

(** [found] is the outcome of [g_mpr121.begin], [writable] that of opening
    the namespace for writing. *)
Definition touch_sensitivity_manager_init (found writable : bool)
    (m : touch_manager_t) : bool * touch_manager_t :=
  if negb found then (false, m)
  else
    let loaded := touch_config_load_from_nvs (g_preferences m) (g_touch_config m) in
    let m := set_manager_config m (snd loaded) in
    let m :=
      if negb (fst loaded) then
        let m := set_manager_config m (touch_config_init_defaults (g_touch_config m)) in
        set_manager_preferences m
          (snd (touch_config_save_to_nvs writable (g_preferences m) (g_touch_config m)))
      else m in
    let m := set_manager_wheel m (touch_wheel_config_init_defaults (g_wheel_config m)) in
    (true, snd (touch_sensitivity_manager_apply_config m)).

Definition touch_sensitivity_manager_set_level (writable : bool)
    (m : touch_manager_t) (level : Z) : bool * touch_manager_t :=
  let r := touch_config_set_sensitivity_level (g_touch_config m) level in
  if negb (fst r) then (false, m)
  else
    let m := set_manager_config m (snd r) in
    let m := snd (touch_sensitivity_manager_apply_config m) in
    (true, set_manager_preferences m
             (snd (touch_config_save_to_nvs writable (g_preferences m)
                     (g_touch_config m)))).

Definition touch_sensitivity_manager_set_electrode_threshold (writable : bool)
    (m : touch_manager_t) (electrode touch_thr release_thr : Z)
    : bool * touch_manager_t :=
  let r := touch_config_set_electrode_threshold (g_touch_config m) electrode
             touch_thr release_thr in
  if negb (fst r) then (false, m)
  else
    let m := set_manager_config m (snd r) in
    let m := set_manager_mpr121 m (arr_set (g_mpr121 m) electrode
                                           (touch_thr, release_thr)) in
    (true, set_manager_preferences m
             (snd (touch_config_save_to_nvs writable (g_preferences m)
                     (g_touch_config m)))).

(** The thresholds the profile holds for each electrode, as pairs. *)
Definition profile_thresholds (c : touch_sensitivity_config_t) : list (Z * Z) :=
  zip (touch_threshold c) (release_threshold c).

(** The keys of the scalar fields of the profile in the store. *)
Definition scalar_keys : list string :=
  ["global_level"; "custom_per_pad"; "small_pad_comp"; "debounce_count";
   "filter_config"; "auto_cal"; "cal_interval"]%string.

(** A manager whose globals are zero-initialised, with an empty store. *)
Definition zeroed_manager : touch_manager_t :=
  {| g_touch_config := zeroed_config;
     g_wheel_config :=
       {| electrode_order := replicate 12 0; invert_direction := false;
          center_of_mass_threshold := 0; position_hysteresis := 0;
          enable_interpolation := false; scroll_acceleration := 0 |};
     g_mpr121 := replicate 12 (0, 0);
     g_preferences := None |}.

(** ** touch_wheel.cpp: the centre-of-mass loops in closed form *)

(** What slot [i] contributes in the first loop: baseline minus filtered
    count of its electrode. *)
Definition baseline_strength (w : touch_wheel_t) (hw : mpr121_frame) (i : Z) : Z :=
  let e := arr_get 0 (s_order w) i in
  u16 (arr_get 0 (baselineData hw) e) - u16 (arr_get 0 (filteredData hw) e).

(** What it contributes in the fallback loop: 32 minus the filtered count. *)
Definition fallback_strength (w : touch_wheel_t) (hw : mpr121_frame) (i : Z) : Z :=
  32 - u16 (arr_get 0 (filteredData hw) (arr_get 0 (s_order w) i)).

(** The slots below [count] whose strength is at least [floor], in
    order, each with its strength. *)
Definition slots_above (f : Z → Z) (floor count : Z) : list (Z * Z) :=
  omap (λ i, if floor <=? f i then Some (i, f i) else None) (seqZ 0 count).

(** The terms of a frame: the slots reading at least one count below
    their baseline; when there is none, the slots whose filtered count
    is 30 or less. *)
Definition com_terms (w : touch_wheel_t) (hw : mpr121_frame) : list (Z * Z) :=
  match slots_above (baseline_strength w hw) 1 (s_orderCount w) with
  | [] => slots_above (fallback_strength w hw) 2 (s_orderCount w)
  | b => b
  end.

(** The sums that belong to a sequence of terms. *)
Definition com_of (t : list (Z * Z)) : com_sums :=
  {| terms := t;
     totalMag := sumZ (t.*2);
     maxStrength := foldr Z.max 0 (t.*2) |}.

(** [wrapIndex] of touch_wheel.cpp, on [int]. *)
Definition wrapIndex (idx n : Z) : Z :=
  if idx <? 0 then wrap32 (idx + n)
  else if idx >=? n then wrap32 (idx - n)
  else idx.

(** No two consecutive frames qualify; [prev] tells whether the frame
    before the first one did. *)
Fixpoint no_pair (prev : bool) (qs : list bool) : bool :=
  match qs with
  | [] => true
  | q :: qs => negb (prev && q) && no_pair q qs
  end.

(** ** main.cpp: the consumer of the wheel *)

(** [UIView] of app_state.h. *)
Inductive UIView := VIEW_MENU | VIEW_NOW_PLAYING.

(** The statics the handlers read and write: those of app_state.cpp,
    [s_audioVolume] of audio.cpp and [g_wheelDebugCounter] of main.cpp. *)
Record app_state_t := {
  s_currentView : UIView;
  s_menuLevel : Z;
  s_menuSelected : Z;
  s_forceRedraw : bool;
  s_audioVolume : Z;
  g_wheelDebugCounter : Z
}.

Definition appSetMenuSelected (a : app_state_t) (sel : Z) : app_state_t :=
  {| s_currentView := s_currentView a;
     s_menuLevel := s_menuLevel a;
     s_menuSelected := sel;
     s_forceRedraw := true;
     s_audioVolume := s_audioVolume a;
     g_wheelDebugCounter := g_wheelDebugCounter a |}.

Definition audioSetVolume (a : app_state_t) (percent : Z) : app_state_t :=
  {| s_currentView := s_currentView a;
     s_menuLevel := s_menuLevel a;
     s_menuSelected := s_menuSelected a;
     s_forceRedraw := s_forceRedraw a;
     s_audioVolume := constrain percent 0 100;
     g_wheelDebugCounter := g_wheelDebugCounter a |}.

Definition set_wheel_debug_counter (a : app_state_t) (n : Z) : app_state_t :=
  {| s_currentView := s_currentView a;
     s_menuLevel := s_menuLevel a;
     s_menuSelected := s_menuSelected a;
     s_forceRedraw := s_forceRedraw a;
     s_audioVolume := s_audioVolume a;
     g_wheelDebugCounter := n |}.

(** [appGetMenuLevel() == 0 ? 3 : 4]. *)
Definition menu_count (a : app_state_t) : Z :=
  if s_menuLevel a =? 0 then 3 else 4.

(** "Apply touch wheel scroll to menu/volume" in the loop of [menuTask].  The
    operands are [int]; [%] truncates toward zero.  Drawing and logging
    are left out. *)
Definition apply_wheel_scroll (w : touch_wheel_t) (a : app_state_t)
    : touch_wheel_t * app_state_t :=
  let '(wheelSteps, w) := touchWheelGetAndClearDelta w in
  if wheelSteps =? 0 then (w, a)
  else
    let a := set_wheel_debug_counter a (wrap32 (g_wheelDebugCounter a + wheelSteps)) in
    let uiMoves := wheelSteps in
    match s_currentView a with
    | VIEW_NOW_PLAYING =>
        let vol := s_audioVolume a in
        let vol := constrain (wrap32 (vol + wrap32 (uiMoves * 2))) 0 100 in
        (w, audioSetVolume a vol)
    | VIEW_MENU =>
        let count := menu_count a in
        let sel := s_menuSelected a in
        let sel := Z.rem (wrap32 (wrap32 (sel + Z.rem uiMoves count) + count)) count in
        (w, appSetMenuSelected a sel)
    end.

(** The UP and DOWN buttons in the loop of [menuTask], once debounced. *)
Definition press_up (a : app_state_t) : app_state_t :=
  match s_currentView a with
  | VIEW_NOW_PLAYING => audioSetVolume a (Z.min 100 (wrap32 (s_audioVolume a + 5)))
  | VIEW_MENU =>
      let count := menu_count a in
      appSetMenuSelected a
        (Z.rem (wrap32 (wrap32 (s_menuSelected a - 1) + count)) count)
  end.

Definition press_down (a : app_state_t) : app_state_t :=
  match s_currentView a with
  | VIEW_NOW_PLAYING => audioSetVolume a (Z.max 0 (wrap32 (s_audioVolume a - 5)))
  | VIEW_MENU =>
      let count := menu_count a in
      appSetMenuSelected a (Z.rem (wrap32 (s_menuSelected a + 1)) count)
  end.

(** The music menu with its third entry selected. *)
Definition music_menu : app_state_t :=
  {| s_currentView := VIEW_MENU;
     s_menuLevel := 1;
     s_menuSelected := 2;
     s_forceRedraw := false;
     s_audioVolume := 50;
     g_wheelDebugCounter := 6 |}.

(** The wheel with [n] steps pending. *)
Definition pending_wheel (n : Z) : touch_wheel_t :=
  set_motion touch_wheel_init n 0.

(** ** touch_calibration.cpp: the calibration engine *)

Definition u32 (z : Z) : Z := z mod 4294967296.

Definition CALIBRATION_SAMPLES : Z := 10.
Definition BASELINE_DRIFT_THRESHOLD : Z := 50.

(** [read_electrode_baseline]: [wire] is the byte the bus has available
    after the request, if any. *)
Definition read_electrode_baseline (wire : option Z) (electrode : Z) : Z :=
  if electrode >=? TOUCH_ELECTRODE_COUNT then 0
  else match wire with
       | Some b => u16 b
       | None => 0
       end.

(** [read_electrode_filtered_data]: [wire] is the pair of bytes the bus
    has available, low byte first; [(msb << 8) | lsb] on [uint16_t]. *)
Definition read_electrode_filtered_data (wire : option (Z * Z)) (electrode : Z) : Z :=
  if electrode >=? TOUCH_ELECTRODE_COUNT then 0
  else match wire with
       | Some (lsb, msb) => u16 (Z.lor (Z.shiftl (u16 msb) 8) (u16 lsb))
       | None => 0
       end.

(** The statics of the file: the calibration data, the two file-scope
    variables and [last_filtered], the function-local static of
    [is_electrode_healthy]. *)
Record calibration_state := {
  g_calibration_data : touch_calibration_data_t;
  g_calibration_initialized : bool;
  g_last_auto_calibration : Z;
  last_filtered : list Z
}.

Definition calibration_state_wf (st : calibration_state) : Prop :=
  calibration_wf (g_calibration_data st) ∧ length (last_filtered st) = 12%nat.

Definition set_calibration_data (st : calibration_state)
    (g : touch_calibration_data_t) : calibration_state :=
  {| g_calibration_data := g;
     g_calibration_initialized := g_calibration_initialized st;
     g_last_auto_calibration := g_last_auto_calibration st;
     last_filtered := last_filtered st |}.

Definition set_baseline (g : touch_calibration_data_t)
    (l : list Z) : touch_calibration_data_t :=
  {| baseline := l;
     filtered_data := filtered_data g;
     touch_delta := touch_delta g;
     electrode_enabled := electrode_enabled g;
     last_calibration_time := last_calibration_time g;
     calibration_needed := calibration_needed g |}.

Definition set_filtered_data (g : touch_calibration_data_t)
    (l : list Z) : touch_calibration_data_t :=
  {| baseline := baseline g;
     filtered_data := l;
     touch_delta := touch_delta g;
     electrode_enabled := electrode_enabled g;
     last_calibration_time := last_calibration_time g;
     calibration_needed := calibration_needed g |}.

Definition set_last_calibration_time (g : touch_calibration_data_t)
    (t : Z) : touch_calibration_data_t :=
  {| baseline := baseline g;
     filtered_data := filtered_data g;
     touch_delta := touch_delta g;
     electrode_enabled := electrode_enabled g;
     last_calibration_time := t;
     calibration_needed := calibration_needed g |}.

(** [is_electrode_healthy]: the range test on the baseline returns before
    [last_filtered] is read or written. *)
Definition is_electrode_healthy (st : calibration_state) (electrode : Z)
    : bool * calibration_state :=
  if electrode >=? TOUCH_ELECTRODE_COUNT then (false, st)
  else
    let base := arr_get 0 (baseline (g_calibration_data st)) electrode in
    let filtered := arr_get 0 (filtered_data (g_calibration_data st)) electrode in
    if (base <? 50) || (base >? 1000) then (false, st)
    else
      let noise :=
        u16 (Z.abs (i16 filtered - i16 (arr_get 0 (last_filtered st) electrode))) in
      let st := {| g_calibration_data := g_calibration_data st;
                   g_calibration_initialized := g_calibration_initialized st;
                   g_last_auto_calibration := g_last_auto_calibration st;
                   last_filtered := arr_set (last_filtered st) electrode filtered |} in
      if noise >? 100 then (false, st) else (true, st).

(** [touch_calibration_init]; [now] and [now'] are what the two calls of
    [millis] return. *)
Definition touch_calibration_init (now now' : Z) (st : calibration_state)
    : bool * calibration_state :=
  let zeros := replicate (Z.to_nat TOUCH_ELECTRODE_COUNT) 0 in
  let g := {| baseline := zeros;
              filtered_data := zeros;
              touch_delta := zeros;
              electrode_enabled :=
                foldl (λ a i, arr_set a i true)
                      (replicate (Z.to_nat TOUCH_ELECTRODE_COUNT) false)
                      (seqZ 0 TOUCH_ELECTRODE_COUNT);
              last_calibration_time := now;
              calibration_needed := true |} in
  (true, {| g_calibration_data := g;
            g_calibration_initialized := true;
            g_last_auto_calibration := now';
            last_filtered := last_filtered st |}).

(** The sampling loops of [touch_calibration_perform_baseline];
    [readings sample electrode] is the byte on the bus at that read. *)
Definition sample_body (enabled : list bool) (readings : Z → Z → option Z)
    (sample : Z) (base : list Z) (electrode : Z) : list Z :=
  if negb (arr_get false enabled electrode) then base
  else arr_set base electrode
         (u16 (arr_get 0 base electrode
               + read_electrode_baseline (readings sample electrode) electrode)).

Definition average_body (enabled : list bool) (base : list Z) (electrode : Z)
    : list Z :=
  if arr_get false enabled electrode
  then arr_set base electrode (arr_get 0 base electrode / CALIBRATION_SAMPLES)
  else base.

Definition health_body (st : calibration_state) (electrode : Z) : calibration_state :=
  let '(ok, st) := is_electrode_healthy st electrode in
  if negb ok
  then set_calibration_data st
         (set_electrode_enabled (g_calibration_data st)
            (arr_set (electrode_enabled (g_calibration_data st)) electrode false))
  else st.

Definition touch_calibration_perform_baseline (readings : Z → Z → option Z)
    (now : Z) (st : calibration_state) : bool * calibration_state :=
  if negb (g_calibration_initialized st) then (false, st)
  else
    let g := g_calibration_data st in
    let enabled := electrode_enabled g in
    let base := replicate (Z.to_nat TOUCH_ELECTRODE_COUNT) 0 in
    let base :=
      foldl (λ base sample,
               foldl (sample_body enabled readings sample) base
                     (seqZ 0 TOUCH_ELECTRODE_COUNT))
            base (seqZ 0 CALIBRATION_SAMPLES) in
    let base := foldl (average_body enabled) base (seqZ 0 TOUCH_ELECTRODE_COUNT) in
    let st := set_calibration_data st (set_baseline g base) in
    let st := foldl health_body st (seqZ 0 TOUCH_ELECTRODE_COUNT) in
    let g := set_calibration_needed (g_calibration_data st) false in
    let g := set_last_calibration_time g now in
    (true, set_calibration_data st g).

(** [touch_calibration_update].  [filtered_wire] and [baseline_wire] are
    the bytes on the bus at the reads of the two loops, [config] is what
    [touch_sensitivity_manager_get_config] points to, [now] the value of
    [millis]; [readings] and [now_cal] are those of the calibration it may
    go on to perform. *)
Definition refresh_body (filtered_wire : Z → option (Z * Z))
    (g : touch_calibration_data_t) (i : Z) : touch_calibration_data_t :=
  if arr_get false (electrode_enabled g) i
  then set_filtered_data g
         (arr_set (filtered_data g) i
            (read_electrode_filtered_data (filtered_wire i) i))
  else g.

Definition drift_body (baseline_wire : Z → option Z)
    (g : touch_calibration_data_t) (drift_detected : bool) (i : Z) : bool :=
  if negb (arr_get false (electrode_enabled g) i) then drift_detected
  else
    let current_baseline := read_electrode_baseline (baseline_wire i) i in
    let drift := i16 (Z.abs (i16 current_baseline - i16 (arr_get 0 (baseline g) i))) in
    if drift >? BASELINE_DRIFT_THRESHOLD then true else drift_detected.

Definition touch_calibration_update (filtered_wire : Z → option (Z * Z))
    (baseline_wire : Z → option Z) (config : touch_sensitivity_config_t)
    (now : Z) (readings : Z → Z → option Z) (now_cal : Z)
    (st : calibration_state) : calibration_state :=
  if negb (g_calibration_initialized st) then st
  else
    let g := g_calibration_data st in
    let g := foldl (refresh_body filtered_wire) g (seqZ 0 TOUCH_ELECTRODE_COUNT) in
    let g := calculate_touch_deltas g in
    let drift_detected :=
      foldl (drift_body baseline_wire g) false (seqZ 0 TOUCH_ELECTRODE_COUNT) in
    let g := if drift_detected then set_calibration_needed g true else g in
    let due :=
      auto_calibration config
      && (u32 (now - g_last_auto_calibration st) >? calibration_interval_ms config) in
    let g := if due then set_calibration_needed g true else g in
    let st := {| g_calibration_data := g;
                 g_calibration_initialized := g_calibration_initialized st;
                 g_last_auto_calibration :=
                   if due then now else g_last_auto_calibration st;
                 last_filtered := last_filtered st |} in
    if calibration_needed g
    then snd (touch_calibration_perform_baseline readings now_cal st)
    else st.

Definition touch_calibration_force_recalibration (st : calibration_state)
    : calibration_state :=
  set_calibration_data st (set_calibration_needed (g_calibration_data st) true).

(** [touch_calibration_reset_to_factory], on the calibration statics and
    the globals of the sensitivity manager. *)
Definition touch_calibration_reset_to_factory (writable : bool) (now : Z)
    (st : calibration_state) (m : touch_manager_t)
    : calibration_state * touch_manager_t :=
  let g := g_calibration_data st in
  let zeros := replicate (Z.to_nat TOUCH_ELECTRODE_COUNT) 0 in
  let g := {| baseline := zeros;
              filtered_data := zeros;
              touch_delta := zeros;
              electrode_enabled :=
                foldl (λ a i, arr_set a i true) (electrode_enabled g)
                      (seqZ 0 TOUCH_ELECTRODE_COUNT);
              last_calibration_time := now;
              calibration_needed := true |} in
  let m := set_manager_config m (touch_config_init_defaults (g_touch_config m)) in
  let m := snd (touch_sensitivity_manager_apply_config m) in
  let m := set_manager_preferences m
             (snd (touch_config_save_to_nvs writable (g_preferences m)
                     (g_touch_config m))) in
  (set_calibration_data st g, m).

(** *** Vocabulary of the calibration properties *)

(** The value [read_electrode_baseline] returns at a read. *)
Definition baseline_reading (readings : Z → Z → option Z) (sample electrode : Z) : Z :=
  read_electrode_baseline (readings sample electrode) electrode.

(** The sum of the readings of an electrode over the samples [l]. *)
Definition readings_sum (readings : Z → Z → option Z) (l : list Z) (electrode : Z) : Z :=
  sumZ (map (λ sample, baseline_reading readings sample electrode) l).

(** Every byte on the bus is a byte. *)
Definition byte_wire (readings : Z → Z → option Z) : Prop :=
  ∀ sample electrode b, readings sample electrode = Some b → 0 ≤ b ≤ 255.

(** The noise test of [is_electrode_healthy] on an electrode. *)
Definition noise_of (st : calibration_state) (electrode : Z) : Z :=
  u16 (Z.abs (i16 (arr_get 0 (filtered_data (g_calibration_data st)) electrode)
              - i16 (arr_get 0 (last_filtered st) electrode))).

(** The statics before [touch_calibration_init] has run. *)
Definition boot_calibration : calibration_state :=
  {| g_calibration_data :=
       {| baseline := replicate 12 0;
          filtered_data := replicate 12 0;
          touch_delta := replicate 12 0;
          electrode_enabled := replicate 12 false;
          last_calibration_time := 0;
          calibration_needed := false |};
     g_calibration_initialized := false;
     g_last_auto_calibration := 0;
     last_filtered := replicate 12 0 |}.

(** The range test of [is_electrode_healthy] on a baseline. *)
Definition baseline_in_range (base : Z) : bool :=
  negb ((base <? 50) || (base >? 1000)).

(** Its verdict on a baseline, a filtered count and the count it saw
    last. *)
Definition healthy_reading (base filtered last : Z) : bool :=
  baseline_in_range base && negb (noise_level filtered last >? 100).

(** What the health check leaves alone. *)
Definition calibration_frame (st : calibration_state) :=
  (baseline (g_calibration_data st), filtered_data (g_calibration_data st),
   touch_delta (g_calibration_data st),
   last_calibration_time (g_calibration_data st),
   calibration_needed (g_calibration_data st),
   g_calibration_initialized st, g_last_auto_calibration st).

(** The average [touch_calibration_perform_baseline] computes for an
    electrode from the readings of its ten samples. *)
Definition captured_average (readings : Z → Z → option Z) (electrode : Z) : Z :=
  readings_sum readings (seqZ 0 CALIBRATION_SAMPLES) electrode / CALIBRATION_SAMPLES.

(** The statics once [touch_calibration_init] has run at time 1000, with
    electrode 0 disabled since. *)
Definition started_calibration : calibration_state :=
  {| g_calibration_data :=
       {| baseline := replicate 12 0;
          filtered_data := replicate 12 0;
          touch_delta := replicate 12 0;
          electrode_enabled := false :: replicate 11 true;
          last_calibration_time := 1000;
          calibration_needed := true |};
     g_calibration_initialized := true;
     g_last_auto_calibration := 1000;
     last_filtered := replicate 12 0 |}.

(** A bus on which every baseline register reads 180. *)
Definition steady_wire (sample electrode : Z) : option Z := Some 180.

(** Whether the drift loop of [touch_calibration_update] raises its flag. *)
Definition drift_detected (baseline_wire : Z → option Z)
    (g : touch_calibration_data_t) : bool :=
  foldl (drift_body baseline_wire g) false (seqZ 0 TOUCH_ELECTRODE_COUNT).

(** Whether the auto-calibration interval has run out at [now]. *)
Definition calibration_due (config : touch_sensitivity_config_t) (now : Z)
    (st : calibration_state) : bool :=
  auto_calibration config
  && (u32 (now - g_last_auto_calibration st) >? calibration_interval_ms config).

(** The cells of the calibration arrays hold [uint16_t] values. *)
Definition calibration_cells_u16 (g : touch_calibration_data_t) : Prop :=
  ∀ i, 0 ≤ i < 12 →
       0 ≤ arr_get 0 (baseline g) i < 65536 ∧
       0 ≤ arr_get 0 (filtered_data g) i < 65536.

(** A bus on which every filtered-data register reads 556. *)
Definition resting_filtered_wire (electrode : Z) : option (Z * Z) := Some (44, 2).

(** A bus on which every baseline register reads 180, for the drift loop. *)
Definition steady_baseline_wire (electrode : Z) : option Z := Some 180.

(** The pair of thresholds the auto-tuner recommends for an electrode. *)
Definition recommended (g : touch_calibration_data_t) (electrode : Z) : Z * Z :=
  let noise := noise_level (arr_get 0 (baseline g) electrode)
                           (arr_get 0 (filtered_data g) electrode) in
  (recommended_touch_threshold noise, recommended_release_threshold noise).

(** Whether the auto-tuner rewrites an electrode: it is enabled and its
    touch threshold is more than 2 away from the recommendation. *)
Definition tune_wanted (g : touch_calibration_data_t)
    (c : touch_sensitivity_config_t) (electrode : Z) : bool :=
  arr_get false (electrode_enabled g) electrode
  && (Z.abs (arr_get 0 (touch_threshold c) electrode - fst (recommended g electrode))
      >? 2).

(** The two thresholds a profile holds for an electrode. *)
Definition threshold_pair (c : touch_sensitivity_config_t) (electrode : Z) : Z * Z :=
  (arr_get 0 (touch_threshold c) electrode, arr_get 0 (release_threshold c) electrode).

(** The scalar fields of a profile. *)
Definition profile_scalars (c : touch_sensitivity_config_t) :=
  (global_level c, custom_per_pad c, small_pad_compensation c, debounce_count c,
   filter_config c, auto_calibration c, calibration_interval_ms c).

(** ** touch_wheel.cpp: connection and thresholds *)

(** [s_connected], the two threshold statics, whether [s_touchTask] holds
    a task, and of the controller the pair [setThresholds] last wrote to
    it, if it ever did. *)
Record wheel_link := {
  s_connected : bool;
  s_touchThresh : Z;
  s_releaseThresh : Z;
  s_touchTask : bool;
  mpr_thresholds : option (Z * Z)
}.

(** The initialisers of the file. *)
Definition wheel_link_init : wheel_link :=
  {| s_connected := false;
     s_touchThresh := 12;
     s_releaseThresh := 6;
     s_touchTask := false;
     mpr_thresholds := None |}.

(** [touchWheelInit]; [found] is the outcome of [s_mpr.begin].  The last
    statement asks for the poller task only while [s_touchTask] is NULL,
    and drops the result of [xTaskCreatePinnedToCore]: [created] tells
    whether that call, when made, created the task.  A failed call leaves
    the handle NULL, and [touchWheelInit] returns [true] all the same. *)
Definition touchWheelInit (found created : bool) (l : wheel_link)
    : bool * wheel_link :=
  if negb found
  then (false, {| s_connected := false;
                  s_touchThresh := s_touchThresh l;
                  s_releaseThresh := s_releaseThresh l;
                  s_touchTask := s_touchTask l;
                  mpr_thresholds := mpr_thresholds l |})
  else (true, {| s_connected := true;
                 s_touchThresh := s_touchThresh l;
                 s_releaseThresh := s_releaseThresh l;
                 s_touchTask := if negb (s_touchTask l) then created else true;
                 mpr_thresholds := Some (s_touchThresh l, s_releaseThresh l) |}).

Definition touchWheelIsConnected (l : wheel_link) : bool := s_connected l.

Definition touchWheelSetThresholds (l : wheel_link) (touchThresh releaseThresh : Z)
    : wheel_link :=
  {| s_connected := s_connected l;
     s_touchThresh := touchThresh;
     s_releaseThresh := releaseThresh;
     s_touchTask := s_touchTask l;
     mpr_thresholds := if negb (s_connected l) then mpr_thresholds l
                       else Some (touchThresh, releaseThresh) |}.

Definition touchWheelGetThresholds (l : wheel_link) : Z * Z :=
  (s_touchThresh l, s_releaseThresh l).

(** Calls of the two functions that write, in any order. *)
Inductive wheel_call :=
| CallInit (found created : bool)
| CallSetThresholds (touchThresh releaseThresh : Z).

Definition wheel_call_run (l : wheel_link) (call : wheel_call) : wheel_link :=
  match call with
  | CallInit found created => snd (touchWheelInit found created l)
  | CallSetThresholds t r => touchWheelSetThresholds l t r
  end.

(** ** Binary32 products and quotients

    The position estimator multiplies and divides in C [float].  In the
    embedding of [F32] (integers counting units of [2^-149]) the exact
    product or quotient is a rational; it is rounded to the nearest
    binary32 value, ties to the even significand.  The divisors of the
    code are not zero. *)

Module F32Q.

(** Round the non-negative rational [n / d], [d] positive. *)
Definition rne_ratio_mag (n d : Z) : Z :=
  let e := F32.ulp_exp (n / d) in
  let u := d * 2 ^ e in
  let q := n / u in
  let r := n mod u in
  if 2 * r <? u then q * 2 ^ e
  else if u <? 2 * r then (q + 1) * 2 ^ e
  else if Z.even q then q * 2 ^ e
  else (q + 1) * 2 ^ e.

Definition rne_ratio (n d : Z) : Z := Z.sgn n * rne_ratio_mag (Z.abs n) d.

Definition mul (x y : Z) : Z := rne_ratio (x * y) (2 ^ 149).
Definition div (x y : Z) : Z := rne_ratio (Z.sgn y * x * 2 ^ 149) (Z.abs y).

End F32Q.

(** The comparison with [SpecFloat] for products and quotients. *)
Definition agrees_with_spec_float_ratio (x y : Z) : bool :=
  bool_decide (of_spec_float (SFmul 24 128 (to_spec_float x) (to_spec_float y))
               = Some (F32Q.mul x y))
  && bool_decide (of_spec_float (SFdiv 24 128 (to_spec_float x) (to_spec_float y))
                  = Some (F32Q.div x y)).

(** Binary32 values around those of the position estimator (small
    integers, [pi], [2 pi], their products, tiny sines) and values with
    full 24-bit significands, of both signs. *)
Definition binary32_factor_samples : list Z :=
  [2 ^ 149; 2 * 2 ^ 149; 3 * 2 ^ 149; 6 * 2 ^ 149; 12 * 2 ^ 149; 7 * 2 ^ 149;
   13176795 * 2 ^ 127; 13176795 * 2 ^ 128; 9882596 * 2 ^ 132;
   12303662 * 2 ^ 102; 12303662 * 2 ^ 101; 2 ^ 148; 11184811 * 2 ^ 126;
   13421773 * 2 ^ 122; 16777215 * 2 ^ 128; 5 * 2 ^ 122; 32 * 2 ^ 149;
   - 2 ^ 149; - (3 * 2 ^ 149); - (13176795 * 2 ^ 127); - (12303662 * 2 ^ 102);
   - (11184811 * 2 ^ 126); - (16777215 * 2 ^ 125)].

(** ** touch_wheel.cpp: the position estimator *)

(** [(float)M_PI], the binary32 value nearest to [pi]:
    [13176795 * 2^-22]. *)
Definition M_PI_F : Z := 13176795 * 2 ^ 127.

(** [2.0f * (float)M_PI]. *)
Definition TWO_PI_F : Z := F32Q.mul (F32.of_int 2) M_PI_F.

Section PositionEstimator.

(** [cosf], [sinf] and [atan2f] of the C library, on binary32 values. *)
Variables cosf sinf : Z → Z.
Variable atan2f : Z → Z → Z.

(** [(2.0f * (float)M_PI * i) / (float)s_orderCount]. *)
Definition slot_angle (count i : Z) : Z :=
  F32Q.div (F32Q.mul TWO_PI_F (F32.of_int i)) (F32.of_int count).

(** [sumX += cosf(ang) * strength; sumY += sinf(ang) * strength] for one
    term of the sums, on [(sumX, sumY)]: the product is rounded to
    binary32, then the sum is. *)
Definition com_vector_body (count : Z) (v : Z * Z) (t : Z * Z) : Z * Z :=
  let ang := slot_angle count (fst t) in
  (F32.add (fst v) (F32Q.mul (cosf ang) (F32.of_int (snd t))),
   F32.add (snd v) (F32Q.mul (sinf ang) (F32.of_int (snd t)))).

Definition com_vector (terms : list (Z * Z)) (count : Z) : Z * Z :=
  foldl (com_vector_body count) (0, 0) terms.

(** Lines 86 to 89: the angle of the vector, brought into [0, 2 pi] and
    mapped to position space. *)
Definition position_estimate (terms : list (Z * Z)) (count : Z) : Z :=
  let v := com_vector terms count in
  let angle := atan2f (snd v) (fst v) in
  let angle := if angle <? 0 then F32.add angle TWO_PI_F else angle in
  F32Q.div (F32Q.mul angle (F32.of_int count)) TWO_PI_F.

End PositionEstimator.

(** A frame in which the electrodes of slots 0 and 6, opposite on the
    ring, read 3 and 1 counts below their baseline of 200; no touched bit
    is reported. *)
Definition opposed_frame : mpr121_frame :=
  {| touched := 0;
     filteredData := [197; 200; 200; 200; 200; 200; 199; 200; 200; 200; 200;
                      200; 200];
     baselineData := replicate 13 200 |}.

(** The values of the C library at the arguments that frame needs, each
    the binary32 value nearest to the mathematical one: [cos 0 = 1],
    [sin 0 = 0], [cos] and [sin] of [(float)M_PI] ([-1] and
    [-12303662 * 2^-47], about [-8.74e-8], since [(float)M_PI] lies above
    [pi]) and the angle of the vector [(2, -8.74e-8)], half its second
    component. *)
Definition cosf_opposed (x : Z) : Z :=
  if x =? 0 then F32.one else if x =? M_PI_F then - F32.one else 0.
Definition sinf_opposed (x : Z) : Z :=
  if x =? M_PI_F then - (12303662 * 2 ^ 102) else 0.
Definition atan2f_opposed (y x : Z) : Z :=
  if (y =? - (12303662 * 2 ^ 102)) && (x =? F32.of_int 2)
  then - (12303662 * 2 ^ 101) else 0.

(** ** touch_wheel.cpp: a slot's share of the sums *)

(** Slot [i] enters the sums of a frame once, with strength [x], in full:
    the terms hold [(i, x)] and no other term of slot [i]; [totalMag] is
    [x] more than the strengths of the other terms add up to;
    [maxStrength] is the larger of [x] and the other strengths; and
    [sumX] and [sumY] take the step of [com_vector_body] for [(i, x)],
    which adds [cosf(ang) * x] and [sinf(ang) * x], between the terms
    before and after it. *)
Definition contributes_in_full (s : com_sums) (i x : Z) : Prop :=
  ∃ before after : list (Z * Z),
    terms s = before ++ (i, x) :: after ∧
    (∀ j y, (j, y) ∈ before ++ after → j ≠ i ∧ 0 < y) ∧
    totalMag s = sumZ (before ++ after).*2 + x ∧
    maxStrength s = Z.max x (foldr Z.max 0 (before ++ after).*2) ∧
    ∀ (cosf sinf : Z → Z) (count : Z),
      com_vector cosf sinf (terms s) count
      = foldl (com_vector_body cosf sinf count)
          (com_vector_body cosf sinf count
             (com_vector cosf sinf before count) (i, x))
          after.

(** ** touch_wheel.cpp: the drain, access by access *)

(** [touchWheelGetAndClearDelta] is a load of the [volatile] counter into
    the local [d] (line 173) and a store of zero (line 174).  It runs in
    [menuTask], which main.cpp creates with the priority (1) and on the
    core (1) that [touchWheelInit] gives [touchTask]: the scheduler may
    run [touchTask] between the two accesses.  A schedule lists
    iterations of the loop of [touchTask], each kept whole, and the two
    accesses of the drains. *)
Inductive wheel_step :=
| PollStep (hw : mpr121_frame)
| DrainLoad
| DrainStore.

Section WheelRunPreempted.

Variable com_position : list (Z * Z) → Z → Z.

(** The final state, the [stepDelta] of each poll and the value each
    drain returned, in order; [d] is the local of a drain that has loaded
    and not yet stored.  A store without its load is no schedule of the
    program. *)
Fixpoint wheel_run_preempted (fuel : nat) (schedule : list wheel_step)
    (w : touch_wheel_t) (d : option Z)
    : option (touch_wheel_t * list Z * list Z) :=
  match schedule with
  | [] => Some (w, [], [])
  | PollStep hw :: schedule =>
      '(w, delta) ← touchTask_iter com_position fuel w hw;
      '(w', steps, drained) ← wheel_run_preempted fuel schedule w d;
      Some (w', delta :: steps, drained)
  | DrainLoad :: schedule =>
      wheel_run_preempted fuel schedule w (Some (s_accumDelta w))
  | DrainStore :: schedule =>
      match d with
      | Some v =>
          '(w', steps, drained) ←
            wheel_run_preempted fuel schedule (set_motion w 0 (s_fracMove w)) None;
          Some (w', steps, v :: drained)
      | None => None
      end
  end.

End WheelRunPreempted.

(** The schedule of a run whose drains are not preempted. *)
Definition unpreempted (events : list wheel_event) : list wheel_step :=
  flat_map (λ ev, match ev with
                  | Poll hw => [PollStep hw]
                  | Drain => [DrainLoad; DrainStore]
                  end) events.

(** A finger moving from slot 0 to slot 1 while the consumer drains: the
    poll that sees slot 1 runs between the load and the store of the
    first drain. *)
Definition preempted_swipe : list wheel_step :=
  [PollStep (slot_frame 0); PollStep (slot_frame 0); DrainLoad;
   PollStep (slot_frame 1); DrainStore; DrainLoad; DrainStore].

(* ===================================================================== *)
(** * Part II.  Properties                                                *)
(* ===================================================================== *)

(** ** Tactics shared by the proofs *)

(** Spell out the electrode loop [0 .. 11]. *)
Lemma electrode_range : seqZ 0 TOUCH_ELECTRODE_COUNT = [0; 1; 2; 3; 4; 5; 6; 7; 8; 9; 10; 11].
Proof. reflexivity. Qed.

Ltac config_cells c :=
  let tt := fresh "tt" in
  let rt := fresh "rt" in
  let Ht := fresh "Ht" in
  let Hr := fresh "Hr" in
  destruct c as [? tt rt ? ? ? ? ? ?];
  match goal with H : config_wf _ |- _ => destruct H as [Ht Hr] end;
  simpl in Ht, Hr;
  do 12 (destruct tt as [| ? tt]; [discriminate Ht |]);
  (destruct tt; [| discriminate Ht]);
  do 12 (destruct rt as [| ? rt]; [discriminate Hr |]);
  (destruct rt; [| discriminate Hr]);
  clear Ht Hr.

Ltac small_index i :=
  let H := fresh in
  assert (H : i = 0 ∨ i = 1 ∨ i = 2 ∨ i = 3 ∨ i = 4 ∨ i = 5 ∨ i = 6 ∨ i = 7
              ∨ i = 8 ∨ i = 9 ∨ i = 10 ∨ i = 11) by lia;
  repeat (destruct H as [H | H]; [subst i |]); [.. | subst i].

(** ** Sensitivity profile *)

Lemma init_defaults_factory c :
  config_wf c → touch_config_init_defaults c = TOUCH_CONFIG_DEFAULT.
Proof. intros Hwf. config_cells c. reflexivity. Qed.

Lemma factory_validates : touch_config_validate TOUCH_CONFIG_DEFAULT = true.
Proof. reflexivity. Qed.

(** A property kept by the body of a loop holds after the loop. *)
Lemma foldl_invariant {A B} (P : A → Prop) (f : A → B → A) (l : list B) (a : A) :
  P a → (∀ a x, P a → P (f a x)) → P (foldl f a l).
Proof.
  intros Ha Hf. revert a Ha. induction l as [| x l IH]; intros a Ha; simpl.
  - exact Ha.
  - apply IH, Hf, Ha.
Qed.

Lemma set_thresholds_wf c i t r :
  config_wf c → config_wf (set_release_threshold (set_touch_threshold c i t) i r).
Proof.
  intros [Ht Hr]. split; simpl; unfold arr_set; rewrite length_insert; assumption.
Qed.

Lemma set_sensitivity_level_wf c level :
  config_wf c → config_wf (snd (touch_config_set_sensitivity_level c level)).
Proof.
  intros Hwf. unfold touch_config_set_sensitivity_level.
  destruct (_ || _); [exact Hwf |]. cbn [snd].
  apply (foldl_invariant config_wf); [exact Hwf |].
  intros a x Ha. unfold set_level_body.
  destruct (_ && _); apply set_thresholds_wf, Ha.
Qed.

(** C4, as amended.  For a level in 1..5 [touch_config_set_sensitivity_level]
    succeeds, records the level and gives every electrode the thresholds
    of its table row (the small-pad table for electrode 11 under small-pad
    compensation), whatever [custom_per_pad] is; the flag is neither read
    nor changed. *)
Theorem set_sensitivity_level_rewrites_every_electrode c level i :
  config_wf c → 1 ≤ level ≤ 5 → 0 ≤ i < 12 →
  let r := touch_config_set_sensitivity_level c level in
  fst r = true ∧
  global_level (snd r) = level ∧
  touch_threshold (snd r) !! Z.to_nat i = Some (fst (level_row c level i)) ∧
  release_threshold (snd r) !! Z.to_nat i = Some (snd (level_row c level i)) ∧
  custom_per_pad (snd r) = custom_per_pad c ∧
  small_pad_compensation (snd r) = small_pad_compensation c.
Proof.
  intros Hwf Hl Hi. config_cells c.
  assert (Hlev : level = 1 ∨ level = 2 ∨ level = 3 ∨ level = 4 ∨ level = 5) by lia.
  unfold level_row; simpl small_pad_compensation.
  destruct small_pad_compensation0;
    repeat (destruct Hlev as [Hlev | Hlev]; [subst level |]); try subst level;
    small_index i; repeat split; reflexivity.
Qed.

Lemma set_sensitivity_level_rewrites_every_electrode_witness :
  touch_threshold (snd (touch_config_set_sensitivity_level
                          (set_custom_per_pad TOUCH_CONFIG_DEFAULT true) 5))
    !! 11%nat = Some 3.
Proof.
  apply (set_sensitivity_level_rewrites_every_electrode
           (set_custom_per_pad TOUCH_CONFIG_DEFAULT true) 5 11);
    [split; reflexivity | lia | lia].
Defined.

(** C4, as stated, fails: with [custom_per_pad] set, electrode 0's
    hand-set thresholds 20/5 do not survive a change to level 3. *)
Lemma set_sensitivity_level_overwrites_custom :
  config_wf custom_profile ∧
  custom_per_pad custom_profile = true ∧
  touch_threshold custom_profile !! 0%nat = Some 20 ∧
  release_threshold custom_profile !! 0%nat = Some 5 ∧
  touch_threshold (snd (touch_config_set_sensitivity_level custom_profile 3))
    !! 0%nat = Some 8 ∧
  release_threshold (snd (touch_config_set_sensitivity_level custom_profile 3))
    !! 0%nat = Some 4.
Proof. repeat split. Qed.

(** C6.  A call of [touch_config_set_electrode_threshold] whose thresholds
    are not both non-zero with touch above release fails and returns the
    profile it was given, for any electrode index and any profile; a call
    that succeeds has set [custom_per_pad] and written exactly the two
    thresholds of that electrode. *)
Theorem set_electrode_threshold_rejects_atomically c electrode touch_thr release_thr :
  (touch_thr ≤ release_thr ∨ touch_thr = 0 ∨ release_thr = 0 →
   touch_config_set_electrode_threshold c electrode touch_thr release_thr
   = (false, c)) ∧
  (fst (touch_config_set_electrode_threshold c electrode touch_thr release_thr)
   = true →
   snd (touch_config_set_electrode_threshold c electrode touch_thr release_thr)
   = set_custom_per_pad
       (set_release_threshold (set_touch_threshold c electrode touch_thr)
                              electrode release_thr) true ∧
   custom_per_pad
     (snd (touch_config_set_electrode_threshold c electrode touch_thr release_thr))
   = true).
Proof.
  unfold touch_config_set_electrode_threshold. split.
  - intros H. destruct (electrode >=? TOUCH_ELECTRODE_COUNT); [reflexivity |].
    replace ((touch_thr =? 0) || (release_thr =? 0) || (touch_thr <=? release_thr))
      with true; [reflexivity |].
    symmetry. rewrite !orb_true_iff. lia.
  - destruct (electrode >=? TOUCH_ELECTRODE_COUNT); [discriminate |].
    destruct (_ || _); [discriminate |]. intros _. split; reflexivity.
Qed.

Lemma set_electrode_threshold_rejects_atomically_witness :
  touch_config_set_electrode_threshold TOUCH_CONFIG_DEFAULT 3 7 7
  = (false, TOUCH_CONFIG_DEFAULT) ∧
  custom_per_pad
    (snd (touch_config_set_electrode_threshold TOUCH_CONFIG_DEFAULT 3 9 2))
  = true.
Proof.
  split.
  - apply (set_electrode_threshold_rejects_atomically TOUCH_CONFIG_DEFAULT 3 7 7).
    left. lia.
  - apply (set_electrode_threshold_rejects_atomically TOUCH_CONFIG_DEFAULT 3 9 2).
    reflexivity.
Defined.

(** An out-of-range electrode is rejected in the same way. *)
Lemma set_electrode_threshold_bad_index c electrode touch_thr release_thr :
  12 ≤ electrode →
  touch_config_set_electrode_threshold c electrode touch_thr release_thr
  = (false, c).
Proof.
  intros H. unfold touch_config_set_electrode_threshold.
  replace (electrode >=? TOUCH_ELECTRODE_COUNT) with true; [reflexivity |].
  symmetry. unfold TOUCH_ELECTRODE_COUNT. lia.
Qed.

Lemma stored_profile_wf m c : config_wf c → config_wf (stored_profile m c).
Proof.
  intros Hwf. unfold stored_profile.
  apply (foldl_invariant config_wf); [exact Hwf |].
  intros a x Ha. apply set_thresholds_wf, Ha.
Qed.

(** What [touch_config_load_from_nvs] does once the namespace has opened:
    the profile it leaves validates; a stored record that validates is
    returned as stored with [true]; any other is replaced by the factory
    profile with [false]. *)
Lemma load_from_nvs_opened m c :
  config_wf c →
  let r := touch_config_load_from_nvs (Some m) c in
  touch_config_validate (snd r) = true ∧
  (touch_config_validate (stored_profile m c) = true →
   r = (true, stored_profile m c)) ∧
  (touch_config_validate (stored_profile m c) = false →
   r = (false, TOUCH_CONFIG_DEFAULT)).
Proof.
  intros Hwf. unfold touch_config_load_from_nvs. fold (stored_profile m c).
  destruct (touch_config_validate (stored_profile m c)) eqn:Hv; cbn [negb snd].
  - repeat split; [exact Hv | discriminate].
  - rewrite init_defaults_factory by apply stored_profile_wf, Hwf.
    repeat split; [discriminate].
Qed.

(** C9, at the failing input.  When the namespace cannot be opened (no
    record was ever saved) [touch_config_load_from_nvs] returns [false]
    and leaves the profile as it found it: starting from the
    zero-initialised profile, the result fails validation and is not the
    factory profile. *)
Theorem load_from_nvs_unopened_keeps_profile :
  touch_config_load_from_nvs None zeroed_config = (false, zeroed_config) ∧
  config_wf zeroed_config ∧
  touch_config_validate zeroed_config = false ∧
  zeroed_config ≠ TOUCH_CONFIG_DEFAULT.
Proof. repeat split. discriminate. Qed.

(** An opened namespace without any of the keys yields the getters'
    defaults, 8/4 on every electrode: the call reports [true] although
    electrode 11 differs from the factory profile. *)
Lemma load_from_nvs_empty_namespace :
  let r := touch_config_load_from_nvs (Some ∅) TOUCH_CONFIG_DEFAULT in
  fst r = true ∧
  touch_threshold (snd r) = replicate 12 8 ∧
  release_threshold (snd r) = replicate 12 4.
Proof. vm_compute. repeat split. Qed.

(** ** Calibration accessors *)

(** C10.  Each per-electrode accessor, given an index of 12 or more,
    answers 0 or [false] whatever the arrays hold, and enabling or
    disabling such an electrode returns the calibration data it was
    given; and for any [uint8_t] index over well-formed data every
    accessor stays inside the arrays. *)
Theorem calibration_accessors_total g config electrode enable :
  (12 ≤ electrode →
   touch_calibration_get_electrode_delta g electrode = Some 0 ∧
   touch_calibration_get_electrode_baseline g electrode = Some 0 ∧
   touch_calibration_get_electrode_filtered g electrode = Some 0 ∧
   touch_calibration_is_electrode_enabled g electrode = Some false ∧
   touch_calibration_is_electrode_touched g config electrode = Some false ∧
   touch_calibration_enable_electrode g electrode enable = Some g) ∧
  (calibration_wf g → config_wf config → 0 ≤ electrode < 256 →
   is_Some (touch_calibration_get_electrode_delta g electrode) ∧
   is_Some (touch_calibration_get_electrode_baseline g electrode) ∧
   is_Some (touch_calibration_get_electrode_filtered g electrode) ∧
   is_Some (touch_calibration_is_electrode_enabled g electrode) ∧
   is_Some (touch_calibration_is_electrode_touched g config electrode) ∧
   is_Some (touch_calibration_enable_electrode g electrode enable)).
Proof.
  unfold touch_calibration_get_electrode_delta,
    touch_calibration_get_electrode_baseline,
    touch_calibration_get_electrode_filtered,
    touch_calibration_is_electrode_enabled,
    touch_calibration_is_electrode_touched,
    touch_calibration_enable_electrode, TOUCH_ELECTRODE_COUNT.
  split.
  - intros H. replace (electrode >=? 12) with true by (symmetry; lia).
    repeat split.
  - intros (Hb & Hf & Hd & He) [Ht Hr] Hrange.
    destruct (electrode >=? 12) eqn:Hge; [repeat split; eexists; reflexivity |].
    assert (Hlt : (Z.to_nat electrode < 12)%nat) by lia.
    assert (Hpos : (electrode <? 0) = false) by lia.
    unfold arr_read, arr_write. rewrite Hpos.
    destruct (lookup_lt_is_Some_2 (baseline g) (Z.to_nat electrode)) as [vb Hvb];
      [lia |].
    destruct (lookup_lt_is_Some_2 (filtered_data g) (Z.to_nat electrode)) as [vf Hvf];
      [lia |].
    destruct (lookup_lt_is_Some_2 (touch_delta g) (Z.to_nat electrode)) as [vd Hvd];
      [lia |].
    destruct (lookup_lt_is_Some_2 (electrode_enabled g) (Z.to_nat electrode)) as [ve Hve];
      [lia |].
    destruct (lookup_lt_is_Some_2 (touch_threshold config) (Z.to_nat electrode)) as [vt Hvt];
      [lia |].
    rewrite Hvb, Hvf, Hvd, Hve, ?Hvt. cbn [mbind option_bind]. rewrite ?Hvd, ?Hvt.
    replace ((0 <=? electrode) && (electrode <? Z.of_nat (length (electrode_enabled g))))
      with true by (symmetry; rewrite andb_true_iff; lia).
    cbn [mbind option_bind].
    repeat split; try (eexists; reflexivity).
    destruct ve; eexists; reflexivity.
Qed.

Lemma calibration_accessors_total_witness :
  touch_calibration_enable_electrode pressed_calibration 12 false
  = Some pressed_calibration ∧
  is_Some (touch_calibration_is_electrode_touched pressed_calibration
             TOUCH_CONFIG_DEFAULT 11).
Proof.
  split.
  - apply (calibration_accessors_total pressed_calibration TOUCH_CONFIG_DEFAULT
             12 false). lia.
  - apply (calibration_accessors_total pressed_calibration TOUCH_CONFIG_DEFAULT
             11 false); [repeat split | split; reflexivity | lia].
Defined.

(** ** Auto-tuner *)

(** Up to a noise of 125 the recommendation for the touch threshold is the
    clamp of [2 * noise + 5], and up to 253 that for the release threshold
    is the clamp of [noise + 2]: below these bounds the intermediate
    [uint8_t] holds the exact value. *)
Lemma recommended_thresholds_small_noise noise :
  (0 ≤ noise ≤ 125 →
   recommended_touch_threshold noise = constrain (2 * noise + 5) 3 30) ∧
  (0 ≤ noise ≤ 253 →
   recommended_release_threshold noise = constrain (noise + 2) 1 15).
Proof.
  unfold recommended_touch_threshold, recommended_release_threshold, u8.
  split; intros H.
  - rewrite (Z.mod_small (noise * 2 + 5)) by lia.
    replace (noise * 2 + 5) with (2 * noise + 5) by lia.
    unfold constrain.
    destruct (2 * noise + 5 <? 3) eqn:H1; [reflexivity |].
    destruct (2 * noise + 5 >? 30) eqn:H2; [reflexivity |].
    apply Z.mod_small. lia.
  - rewrite (Z.mod_small (noise + 2)) by lia.
    unfold constrain.
    destruct (noise + 2 <? 1) eqn:H1; [reflexivity |].
    destruct (noise + 2 >? 15) eqn:H2; [reflexivity |].
    apply Z.mod_small. lia.
Qed.

(** C7, at the failing input.  Electrode 0 reads 74 against a baseline of
    200, a noise of 126: [2 * 126 + 5 = 257] is stored in a [uint8_t] as 1
    before it is clamped, so the recommendation is 3 where the clamp of
    the exact value is 30.  It differs from the current threshold 8 by
    more than 2 and is written together with the release threshold 15;
    the resulting profile has touch below release on electrode 0 and
    fails validation.  The other electrodes, one count of noise, get the
    recommendation 7 and keep their thresholds. *)
Theorem auto_tune_wraps_before_clamping :
  noise_level 200 74 = 126 ∧
  recommended_touch_threshold 126 = 3 ∧
  constrain (2 * 126 + 5) 3 30 = 30 ∧
  recommended_release_threshold 126 = 15 ∧
  let r := touch_calibration_auto_tune_sensitivity pressed_calibration
             TOUCH_CONFIG_DEFAULT in
  fst r = true ∧
  touch_threshold (snd r) = [3; 8; 8; 8; 8; 8; 8; 8; 8; 8; 8; 6] ∧
  release_threshold (snd r) = [15; 4; 4; 4; 4; 4; 4; 4; 4; 4; 4; 3] ∧
  touch_config_validate (snd r) = false.
Proof. vm_compute. repeat split. Qed.

(** ** Activity gate *)

Lemma wrap32_small z : -2147483648 ≤ z < 2147483648 → wrap32 z = z.
Proof. intros H. unfold wrap32. rewrite Z.mod_small; lia. Qed.

Lemma wrap32_range z : -2147483648 ≤ wrap32 z < 2147483648.
Proof.
  unfold wrap32.
  pose proof (Z.mod_pos_bound (z + 2147483648) 4294967296 ltac:(lia)). lia.
Qed.

(** The gate reads and writes only its three fields. *)
Lemma activity_gate_order w q :
  s_order (activity_gate w q) = s_order w ∧
  s_orderCount (activity_gate w q) = s_orderCount w.
Proof. split; reflexivity. Qed.

Lemma com_estimate_order w w' hw :
  s_order w' = s_order w → s_orderCount w' = s_orderCount w →
  com_estimate w' hw = com_estimate w hw.
Proof.
  intros Ho Hc. unfold com_estimate, com_baseline_body, com_fallback_body.
  rewrite Ho, Hc. reflexivity.
Qed.

Lemma gate_after_order w frames :
  s_order (gate_after w frames) = s_order w ∧
  s_orderCount (gate_after w frames) = s_orderCount w.
Proof.
  unfold gate_after.
  apply (foldl_invariant
           (λ w', s_order w' = s_order w ∧ s_orderCount w' = s_orderCount w));
    [split; reflexivity |].
  intros a x Ha. exact Ha.
Qed.

Lemma frame_qualifies_gate_after w frames hw :
  frame_qualifies (gate_after w frames) hw = frame_qualifies w hw.
Proof.
  unfold frame_qualifies. destruct (gate_after_order w frames) as [Ho Hc].
  rewrite (com_estimate_order w (gate_after w frames) hw Ho Hc). reflexivity.
Qed.

Lemma gate_after_snoc w frames hw :
  gate_after w (frames ++ [hw])
  = activity_gate (gate_after w frames) (frame_qualifies w hw).
Proof.
  unfold gate_after at 1. rewrite foldl_app. cbn [foldl].
  fold (gate_after w frames). rewrite frame_qualifies_gate_after. reflexivity.
Qed.

Lemma gate_invariant_step w0 w frames hw :
  gate_invariant w0 w frames →
  gate_invariant w0 (activity_gate w (frame_qualifies w0 hw)) (frames ++ [hw]).
Proof.
  intros (Hidle & Hact & Hlast). unfold gate_invariant, activity_gate.
  destruct (frame_qualifies w0 hw) eqn:Hq; cbn [set_gate s_isActive s_activeFrames s_quietFrames].
  - destruct (s_isActive w) eqn:Ha; cbn [negb andb].
    + replace (0 >=? 3) with false by reflexivity.
      repeat split; try lia; try discriminate.
      intros _. exists frames, hw. split; [reflexivity | exact Hq].
    + specialize (Hidle eq_refl).
      rewrite (wrap32_small (s_activeFrames w + 1)) by lia.
      destruct (s_activeFrames w + 1 >=? 2) eqn:Hge;
        replace (0 >=? 3) with false by reflexivity; cbn [andb];
        repeat split; try lia; try discriminate;
        intros _; exists frames, hw; (split; [reflexivity | exact Hq]).
  - replace (0 >=? 2) with false by reflexivity. rewrite andb_false_r.
    destruct (s_isActive w) eqn:Ha; cbn [andb].
    + specialize (Hact eq_refl).
      rewrite (wrap32_small (s_quietFrames w + 1)) by lia.
      destruct (s_quietFrames w + 1 >=? 3) eqn:Hge;
        repeat split; try lia; try discriminate.
    + repeat split; try lia; try discriminate.
Qed.

Lemma gate_invariant_after w0 frames :
  gate_idle w0 → gate_invariant w0 (gate_after w0 frames) frames.
Proof.
  intros (Ha & Haf & Hqf). induction frames as [| hw frames IH] using rev_ind.
  - unfold gate_after; cbn [foldl]. repeat split; try lia; try congruence.
  - rewrite gate_after_snoc. apply gate_invariant_step, IH.
Qed.

(** An inactive gate stays inactive on a frame that fails the predicate. *)
Lemma activity_gate_quiet_inactive w :
  s_isActive w = false → s_isActive (activity_gate w false) = false.
Proof. intros H. unfold activity_gate. cbn. rewrite H. reflexivity. Qed.

(** An active gate with a failing streak of [n] either drops out or counts
    one more. *)
Lemma activity_gate_quiet_active w :
  s_isActive w = true → 0 ≤ s_quietFrames w ≤ 2 →
  s_isActive (activity_gate w false) = false ∨
  (s_isActive (activity_gate w false) = true ∧
   s_quietFrames (activity_gate w false) = s_quietFrames w + 1 ∧
   s_quietFrames w + 1 ≤ 2).
Proof.
  intros Ha Hq. unfold activity_gate.
  cbn [set_gate s_isActive s_activeFrames s_quietFrames].
  rewrite Ha, (wrap32_small (s_quietFrames w + 1)) by lia. cbn [negb andb].
  destruct (s_quietFrames w + 1 >=? 3) eqn:Hge; [left; reflexivity |].
  right. repeat split. lia.
Qed.

(** C3.  From Idle, over any sequence of frames: the gate turns active
    only on a qualifying frame whose predecessor qualified as well; it is
    inactive after any three consecutive failing frames; one qualifying
    frame from Idle leaves it inactive, two make it active, and two
    failing frames after that leave it active while the third turns it
    off.  A frame qualifies when a touched bit is set or [maxStrength] is
    at least 10. *)
Theorem activity_gate_debounce w0 frames :
  gate_idle w0 →
  (∀ hw, s_isActive (gate_after w0 frames) = false →
         s_isActive (gate_after w0 (frames ++ [hw])) = true →
         frame_qualifies w0 hw = true ∧
         ∃ frames' hw', frames = frames' ++ [hw'] ∧ frame_qualifies w0 hw' = true) ∧
  (∀ h1 h2 h3,
     frame_qualifies w0 h1 = false → frame_qualifies w0 h2 = false →
     frame_qualifies w0 h3 = false →
     s_isActive (gate_after w0 (frames ++ [h1; h2; h3])) = false) ∧
  (∀ h1 h2,
     frame_qualifies w0 h1 = true → frame_qualifies w0 h2 = true →
     s_isActive (gate_after w0 [h1]) = false ∧
     s_isActive (gate_after w0 [h1; h2]) = true ∧
     ∀ q1 q2 q3,
       frame_qualifies w0 q1 = false → frame_qualifies w0 q2 = false →
       frame_qualifies w0 q3 = false →
       s_isActive (gate_after w0 [h1; h2; q1; q2]) = true ∧
       s_isActive (gate_after w0 [h1; h2; q1; q2; q3]) = false).
Proof.
  intros Hidle. split; [| split].
  - intros hw Hoff Hon. rewrite gate_after_snoc in Hon.
    destruct (gate_invariant_after w0 frames Hidle) as (Hi & _ & Hlast).
    specialize (Hi Hoff). revert Hon. unfold activity_gate.
    cbn [set_gate s_isActive]. rewrite Hoff. cbn [negb andb].
    destruct (frame_qualifies w0 hw) eqn:Hq.
    + rewrite (wrap32_small (s_activeFrames (gate_after w0 frames) + 1)) by lia.
      destruct (s_activeFrames (gate_after w0 frames) + 1 >=? 2) eqn:Hge;
        [| discriminate].
      intros _. split; [reflexivity |]. apply Hlast. lia.
    + replace (0 >=? 2) with false by reflexivity. discriminate.
  - intros h1 h2 h3 H1 H2 H3.
    replace (frames ++ [h1; h2; h3]) with (((frames ++ [h1]) ++ [h2]) ++ [h3])
      by (rewrite <- !app_assoc; reflexivity).
    rewrite !gate_after_snoc, H1, H2, H3.
    destruct (gate_invariant_after w0 frames Hidle) as (_ & Hact & _).
    set (w := gate_after w0 frames) in *.
    destruct (s_isActive w) eqn:Ha.
    + destruct (activity_gate_quiet_active w Ha (Hact eq_refl)) as [Hoff | (Hon1 & Hq1 & Hb1)].
      { apply activity_gate_quiet_inactive, activity_gate_quiet_inactive, Hoff. }
      destruct (activity_gate_quiet_active _ Hon1 ltac:(specialize (Hact eq_refl); lia))
        as [Hoff | (Hon2 & Hq2 & Hb2)].
      { apply activity_gate_quiet_inactive, Hoff. }
      destruct (activity_gate_quiet_active _ Hon2 ltac:(specialize (Hact eq_refl); lia))
        as [Hoff | (Hon3 & Hq3 & Hb3)]; [exact Hoff |].
      specialize (Hact eq_refl). lia.
    + do 3 apply activity_gate_quiet_inactive. exact Ha.
  - intros h1 h2 H1 H2. destruct Hidle as (Ha & Haf & Hqf).
    assert (Hnil : gate_after w0 [] = w0) by reflexivity.
    split; [| split].
    + change [h1] with ([] ++ [h1]).
      rewrite gate_after_snoc, Hnil, H1.
      unfold activity_gate. cbn. rewrite Ha, Haf. reflexivity.
    + change [h1; h2] with (([] ++ [h1]) ++ [h2]).
      rewrite !gate_after_snoc, Hnil, H1, H2.
      unfold activity_gate. cbn. rewrite Ha, Haf. reflexivity.
    + intros q1 q2 q3 Q1 Q2 Q3.
      change [h1; h2; q1; q2] with (((([] ++ [h1]) ++ [h2]) ++ [q1]) ++ [q2]).
      change [h1; h2; q1; q2; q3]
        with ((((([] ++ [h1]) ++ [h2]) ++ [q1]) ++ [q2]) ++ [q3]).
      rewrite !gate_after_snoc, Hnil, H1, H2, Q1, Q2, Q3.
      unfold activity_gate. cbn. rewrite Ha, Haf. split; reflexivity.
Qed.

Lemma activity_gate_debounce_witness :
  s_isActive (gate_after touch_wheel_init [pressed_frame 0]) = false ∧
  s_isActive (gate_after touch_wheel_init [pressed_frame 0; pressed_frame 0]) = true.
Proof.
  destruct (activity_gate_debounce touch_wheel_init []) as (_ & _ & H);
    [repeat split |].
  destruct (H (pressed_frame 0) (pressed_frame 0)) as (H1 & H2 & _);
    [reflexivity | reflexivity |].
  split; assumption.
Defined.

(** ** Centre-of-mass sums *)

Lemma com_add_keeps s j x t v :
  0 < x →
  (t ∈ terms s ∧ v ≤ totalMag s ∧ v ≤ maxStrength s) →
  (t ∈ terms (com_add s j x) ∧ v ≤ totalMag (com_add s j x)
   ∧ v ≤ maxStrength (com_add s j x)).
Proof.
  intros Hx (Ht & Hm & Hs). unfold com_add; cbn [terms totalMag maxStrength].
  split; [| split].
  - apply elem_of_app. left. exact Ht.
  - lia.
  - destruct (x >? maxStrength s) eqn:Hgt; lia.
Qed.

Lemma com_add_enters s j x :
  0 < x → 0 ≤ totalMag s →
  (j, x) ∈ terms (com_add s j x) ∧ x ≤ totalMag (com_add s j x)
  ∧ x ≤ maxStrength (com_add s j x).
Proof.
  intros Hx Hs. unfold com_add; cbn [terms totalMag maxStrength].
  split; [| split].
  - apply elem_of_app. right. apply list_elem_of_singleton. reflexivity.
  - lia.
  - destruct (x >? maxStrength s) eqn:Hgt; lia.
Qed.

Lemma com_baseline_body_nonneg w hw s j :
  0 ≤ totalMag s → 0 ≤ totalMag (com_baseline_body w hw s j).
Proof.
  intros Hs. unfold com_baseline_body. cbv zeta.
  set (d := u16 _ - u16 _).
  destruct (2 * d <? 1) eqn:Hd; [exact Hs |].
  destruct (d >? 0) eqn:Hp; [| exact Hs].
  unfold com_add; cbn [totalMag]. lia.
Qed.

Lemma com_baseline_body_keeps w hw s j t v :
  (t ∈ terms s ∧ v ≤ totalMag s ∧ v ≤ maxStrength s) →
  (t ∈ terms (com_baseline_body w hw s j)
   ∧ v ≤ totalMag (com_baseline_body w hw s j)
   ∧ v ≤ maxStrength (com_baseline_body w hw s j)).
Proof.
  intros H. unfold com_baseline_body. cbv zeta.
  set (d := u16 _ - u16 _).
  destruct (2 * d <? 1) eqn:Hd; [exact H |].
  destruct (d >? 0) eqn:Hp; [| exact H].
  apply com_add_keeps; [lia | exact H].
Qed.

(** The first loop enters every slot whose electrode reads at least one
    count below its baseline. *)
Lemma com_baseline_loop_enters w hw i (l : list Z) s :
  i ∈ l → 0 ≤ totalMag s →
  let e := arr_get 0 (s_order w) i in
  let strength := u16 (arr_get 0 (baselineData hw) e)
                  - u16 (arr_get 0 (filteredData hw) e) in
  1 ≤ strength →
  (i, strength) ∈ terms (foldl (com_baseline_body w hw) s l)
  ∧ strength ≤ totalMag (foldl (com_baseline_body w hw) s l)
  ∧ strength ≤ maxStrength (foldl (com_baseline_body w hw) s l).
Proof.
  intros Hin Hs e strength Hstr. revert s Hs.
  induction l as [| x l IH]; intros s Hs; [inversion Hin |].
  cbn [foldl]. apply elem_of_cons in Hin. destruct Hin as [<- | Hin].
  - apply (foldl_invariant
             (λ s', (i, strength) ∈ terms s' ∧ strength ≤ totalMag s'
                    ∧ strength ≤ maxStrength s')).
    + unfold com_baseline_body. cbv zeta. fold e. fold strength.
      replace (2 * strength <? 1) with false by (symmetry; lia).
      replace (strength >? 0) with true by (symmetry; lia).
      apply com_add_enters; lia.
    + intros a x Ha. apply com_baseline_body_keeps, Ha.
  - apply IH; [exact Hin |]. apply com_baseline_body_nonneg, Hs.
Qed.

Lemma com_fallback_body_nonneg w hw s j :
  0 ≤ totalMag s → 0 ≤ totalMag (com_fallback_body w hw s j).
Proof.
  intros Hs. unfold com_fallback_body. cbv zeta.
  set (d := Z.max 0 _).
  destruct (d >? 1) eqn:Hp; [| exact Hs].
  unfold com_add; cbn [totalMag]. lia.
Qed.

Lemma com_fallback_body_keeps w hw s j t v :
  (t ∈ terms s ∧ v ≤ totalMag s ∧ v ≤ maxStrength s) →
  (t ∈ terms (com_fallback_body w hw s j)
   ∧ v ≤ totalMag (com_fallback_body w hw s j)
   ∧ v ≤ maxStrength (com_fallback_body w hw s j)).
Proof.
  intros H. unfold com_fallback_body. cbv zeta.
  set (d := Z.max 0 _).
  destruct (d >? 1) eqn:Hp; [| exact H].
  apply com_add_keeps; [lia | exact H].
Qed.

(** The fallback loop enters every slot whose electrode's filtered count
    is 30 or less. *)
Lemma com_fallback_loop_enters w hw i (l : list Z) s :
  i ∈ l → 0 ≤ totalMag s →
  let e := arr_get 0 (s_order w) i in
  let strength := 32 - u16 (arr_get 0 (filteredData hw) e) in
  2 ≤ strength →
  (i, strength) ∈ terms (foldl (com_fallback_body w hw) s l)
  ∧ strength ≤ totalMag (foldl (com_fallback_body w hw) s l)
  ∧ strength ≤ maxStrength (foldl (com_fallback_body w hw) s l).
Proof.
  intros Hin Hs e strength Hstr. revert s Hs.
  induction l as [| x l IH]; intros s Hs; [inversion Hin |].
  cbn [foldl]. apply elem_of_cons in Hin. destruct Hin as [<- | Hin].
  - apply (foldl_invariant
             (λ s', (i, strength) ∈ terms s' ∧ strength ≤ totalMag s'
                    ∧ strength ≤ maxStrength s')).
    + unfold com_fallback_body. cbv zeta. fold e. fold strength.
      rewrite (Z.max_r 0 strength) by lia.
      replace (strength >? 1) with true by (symmetry; lia).
      apply com_add_enters; lia.
    + intros a x Ha. apply com_fallback_body_keeps, Ha.
  - apply IH; [exact Hin |]. apply com_fallback_body_nonneg, Hs.
Qed.

(** When no electrode of the order reads below its baseline the first
    loop leaves the sums empty. *)
Lemma com_baseline_loop_silent w hw (l : list Z) :
  (∀ j, j ∈ l →
        u16 (arr_get 0 (baselineData hw) (arr_get 0 (s_order w) j))
        - u16 (arr_get 0 (filteredData hw) (arr_get 0 (s_order w) j)) < 1) →
  foldl (com_baseline_body w hw) com_empty l = com_empty.
Proof.
  induction l as [| x l IH]; intros H; [reflexivity |].
  cbn [foldl]. unfold com_baseline_body at 2. cbv zeta.
  specialize (H x (list_elem_of_here x l)) as Hx.
  set (d := u16 _ - u16 _) in *.
  replace (2 * d <? 1) with true by (symmetry; lia).
  replace (0 >? 0) with false by reflexivity.
  apply IH. intros j Hj. apply H. apply elem_of_cons. right. exact Hj.
Qed.

(** C5, as stated, fails: electrode 0 is disabled in the calibration
    data, yet with its reading (50 counts below baseline) the sums are
    one term of strength 50, and with that reading taken away (the
    electrode at its baseline) they are empty. *)
Lemma disabled_electrode_changes_estimate :
  touch_calibration_is_electrode_enabled quarantined_calibration 0 = Some false ∧
  com_estimate touch_wheel_init (pressed_frame 0)
  = {| terms := [(0, 50)]; totalMag := 50; maxStrength := 50 |} ∧
  com_estimate touch_wheel_init (resting_frame 0) = com_empty.
Proof. repeat split. Qed.

(** ** The pending step counter *)

Lemma wrap32_mod z : wrap32 z mod 4294967296 = z mod 4294967296.
Proof.
  unfold wrap32. rewrite Zminus_mod_idemp_l. f_equal. lia.
Qed.

(** [wrap32 x] is the one [int] congruent to [x]. *)
Lemma wrap32_unique x y :
  int_range y → y mod 4294967296 = x mod 4294967296 → y = wrap32 x.
Proof.
  intros Hy Hc. rewrite <- (wrap32_small y) by exact Hy.
  unfold wrap32. f_equal.
  rewrite <- (Zplus_mod_idemp_l y), Hc, Zplus_mod_idemp_l. reflexivity.
Qed.

Lemma steps_up_counter fuel frac accum sd frac' accum' sd' :
  steps_up fuel frac accum sd = Some (frac', accum', sd') →
  (accum' - sd') mod 4294967296 = (accum - sd) mod 4294967296 ∧
  (accum' = accum ∨ int_range accum') ∧ (sd' = sd ∨ int_range sd').
Proof.
  revert frac accum sd. induction fuel as [| fuel IH]; intros frac accum sd; cbn [steps_up].
  - destruct (frac >=? F32.half); [discriminate |].
    intros [= <- <- <-]. repeat split; left; reflexivity.
  - destruct (frac >=? F32.half).
    + intros H. apply IH in H. destruct H as (Hc & Ha & Hs).
      split; [| split].
      * rewrite Hc, Zminus_mod, !wrap32_mod, <- Zminus_mod. f_equal. lia.
      * right. destruct Ha as [-> | Ha]; [apply wrap32_range | exact Ha].
      * right. destruct Hs as [-> | Hs]; [apply wrap32_range | exact Hs].
    + intros [= <- <- <-]. repeat split; left; reflexivity.
Qed.

Lemma steps_down_counter fuel frac accum sd frac' accum' sd' :
  steps_down fuel frac accum sd = Some (frac', accum', sd') →
  (accum' - sd') mod 4294967296 = (accum - sd) mod 4294967296 ∧
  (accum' = accum ∨ int_range accum') ∧ (sd' = sd ∨ int_range sd').
Proof.
  revert frac accum sd. induction fuel as [| fuel IH]; intros frac accum sd; cbn [steps_down].
  - destruct (frac <=? - F32.half); [discriminate |].
    intros [= <- <- <-]. repeat split; left; reflexivity.
  - destruct (frac <=? - F32.half).
    + intros H. apply IH in H. destruct H as (Hc & Ha & Hs).
      split; [| split].
      * rewrite Hc, Zminus_mod, !wrap32_mod, <- Zminus_mod. f_equal. lia.
      * right. destruct Ha as [-> | Ha]; [apply wrap32_range | exact Ha].
      * right. destruct Hs as [-> | Hs]; [apply wrap32_range | exact Hs].
    + intros [= <- <- <-]. repeat split; left; reflexivity.
Qed.

(** The step accumulator adds its [stepDelta] to the counter, in [int]
    arithmetic, and touches neither the gate nor the electrode order. *)
Lemma step_accumulate_counter fuel w activePos w' d :
  int_range (s_accumDelta w) →
  step_accumulate fuel w activePos = Some (w', d) →
  s_accumDelta w' = wrap32 (s_accumDelta w + d) ∧ int_range d ∧
  s_isActive w' = s_isActive w ∧ s_activeFrames w' = s_activeFrames w ∧
  s_quietFrames w' = s_quietFrames w ∧ lastPos w' = lastPos w ∧
  s_order w' = s_order w ∧ s_orderCount w' = s_orderCount w ∧
  s_invert w' = s_invert w.
Proof.
  intros Hr. unfold step_accumulate. cbv zeta.
  destruct (steps_up fuel _ (s_accumDelta w) 0) as [[[f1 a1] d1] |] eqn:Hup;
    [| discriminate].
  cbn [mbind option_bind].
  destruct (steps_down fuel f1 a1 d1) as [[[f2 a2] d2] |] eqn:Hdown;
    [| discriminate].
  cbn [mbind option_bind]. intros [= <- <-].
  apply steps_up_counter in Hup. destruct Hup as (Hc1 & Ha1 & Hd1).
  apply steps_down_counter in Hdown. destruct Hdown as (Hc2 & Ha2 & Hd2).
  assert (Hra : int_range a2).
  { destruct Ha2 as [-> | H]; [| exact H]. destruct Ha1 as [-> | H]; assumption. }
  assert (Hrd : int_range d2).
  { destruct Hd2 as [-> | H]; [| exact H].
    destruct Hd1 as [-> | H]; [unfold int_range; lia | exact H]. }
  cbn. repeat split; try apply Hrd.
  apply wrap32_unique; [exact Hra |].
  replace a2 with ((a2 - d2) + d2) at 1 by lia.
  rewrite Zplus_mod, Hc2, Hc1, <- Zplus_mod. f_equal. lia.
Qed.

Section PollLoop.

Variable com_position : list (Z * Z) → Z → Z.

(** One iteration of [touchTask] adds its [stepDelta] to the counter and
    moves the gate as [activity_gate] does on the frame's predicate. *)
Lemma touchTask_iter_counter fuel w hw w' d :
  int_range (s_accumDelta w) →
  touchTask_iter com_position fuel w hw = Some (w', d) →
  s_accumDelta w' = wrap32 (s_accumDelta w + d) ∧ int_range d ∧
  s_isActive w' = s_isActive (activity_gate w (frame_qualifies w hw)) ∧
  s_activeFrames w' = s_activeFrames (activity_gate w (frame_qualifies w hw)) ∧
  s_quietFrames w' = s_quietFrames (activity_gate w (frame_qualifies w hw)) ∧
  s_order w' = s_order w ∧ s_orderCount w' = s_orderCount w.
Proof.
  intros Hr. unfold touchTask_iter. cbv zeta. fold (frame_qualifies w hw).
  set (g := activity_gate w (frame_qualifies w hw)).
  set (p := active_position com_position w (com_estimate w hw)).
  assert (Hg : s_accumDelta g = s_accumDelta w) by reflexivity.
  assert (Hgo : s_order g = s_order w) by reflexivity.
  assert (Hgc : s_orderCount g = s_orderCount w) by reflexivity.
  clearbody g p.
  destruct (s_isActive g && (p >=? 0) && (lastPos g >=? 0)) eqn:Hmove.
  - destruct (step_accumulate fuel g p) as [[w1 d1] |] eqn:Hacc; [| discriminate].
    cbn [mbind option_bind].
    apply step_accumulate_counter in Hacc; [| rewrite Hg; exact Hr].
    destruct Hacc as (Ha & Hd & Hi & Haf & Hqf & _ & Ho & Hc & _).
    rewrite Hg in Ha. rewrite Hgo in Ho. rewrite Hgc in Hc.
    intros [= <- <-].
    destruct (s_isActive w1 && (p >=? 0));
      cbn [set_lastPos set_motion s_accumDelta s_isActive s_activeFrames
           s_quietFrames s_order s_orderCount];
      repeat (split; [assumption |]); assumption.
  - cbn [mbind option_bind]. intros [= <- <-].
    rewrite Z.add_0_r, (wrap32_small _ Hr).
    assert (Hz : int_range 0) by (unfold int_range; lia).
    destruct (s_isActive g && (p >=? 0));
      cbn [set_lastPos set_motion s_accumDelta s_isActive s_activeFrames
           s_quietFrames s_order s_orderCount];
      repeat (split; [first [assumption | reflexivity] |]); assumption.
Qed.

(** The step accumulator writes only the counter and the accumulator. *)
Lemma step_accumulate_frame_fields fuel w activePos w' d :
  step_accumulate fuel w activePos = Some (w', d) →
  gate_view w' = gate_view w ∧ lastPos w' = lastPos w ∧ s_invert w' = s_invert w.
Proof.
  unfold step_accumulate. cbv zeta.
  destruct (steps_up fuel _ (s_accumDelta w) 0) as [[[f1 a1] d1] |];
    [| discriminate].
  cbn [mbind option_bind].
  destruct (steps_down fuel f1 a1 d1) as [[[f2 a2] d2] |]; [| discriminate].
  cbn [mbind option_bind]. intros [= <- <-]. repeat split.
Qed.

(** In one iteration of [touchTask] the gate moves as [activity_gate] does
    on the frame's predicate, and the electrode order stays. *)
Lemma touchTask_iter_gate fuel w hw w' d :
  touchTask_iter com_position fuel w hw = Some (w', d) →
  gate_view w' = gate_view (activity_gate w (frame_qualifies w hw)).
Proof.
  unfold touchTask_iter. cbv zeta. fold (frame_qualifies w hw).
  set (g := activity_gate w (frame_qualifies w hw)).
  set (p := active_position com_position w (com_estimate w hw)).
  clearbody g p.
  destruct (s_isActive g && (p >=? 0) && (lastPos g >=? 0)).
  - destruct (step_accumulate fuel g p) as [[w1 d1] |] eqn:Hacc; [| discriminate].
    cbn [mbind option_bind]. intros [= <- <-].
    apply step_accumulate_frame_fields in Hacc. destruct Hacc as (Hv & _).
    rewrite <- Hv. destruct (s_isActive w1 && (p >=? 0)); reflexivity.
  - cbn [mbind option_bind]. intros [= <- <-].
    destruct (s_isActive g && (p >=? 0)); reflexivity.
Qed.

(** While the gate is active and both the frame's position and the last
    one are defined, an iteration of [touchTask] is a step of the
    accumulator followed by the update of [lastPos]. *)
Lemma touchTask_iter_in_session fuel w hw :
  let g := activity_gate w (frame_qualifies w hw) in
  let p := active_position com_position w (com_estimate w hw) in
  s_isActive g = true → 0 ≤ p → 0 ≤ lastPos w →
  touchTask_iter com_position fuel w hw
  = '(w1, d) ← step_accumulate fuel g p; Some (set_lastPos w1 p, d).
Proof.
  intros g p Ha Hp Hl. unfold touchTask_iter. cbv zeta.
  fold (frame_qualifies w hw). fold g. fold p.
  assert (Hgl : lastPos g = lastPos w) by reflexivity.
  clearbody g p. rewrite Ha, Hgl.
  replace (p >=? 0) with true by (symmetry; lia).
  replace (lastPos w >=? 0) with true by (symmetry; lia).
  cbn [andb].
  destruct (step_accumulate fuel g p) as [[w1 d1] |] eqn:Hacc; [| reflexivity].
  cbn [mbind option_bind].
  apply step_accumulate_frame_fields in Hacc. destruct Hacc as (Hv & _).
  injection Hv as Hi _ _ _ _. rewrite Hi, Ha. reflexivity.
Qed.

Lemma gate_after_view (frames : list mpr121_frame) :
  ∀ a b, gate_view a = gate_view b →
         gate_view (gate_after a frames) = gate_view (gate_after b frames).
Proof.
  induction frames as [| hw frames IH]; intros a b Hv; [exact Hv |].
  unfold gate_after. cbn [foldl]. apply IH.
  injection Hv as Hi Haf Hqf Ho Hc.
  unfold frame_qualifies. rewrite (com_estimate_order b a hw Ho Hc).
  unfold gate_view, activity_gate.
  cbn [set_gate s_isActive s_activeFrames s_quietFrames s_order s_orderCount].
  rewrite Hi, Haf, Hqf, Ho, Hc. reflexivity.
Qed.

(** Over a whole run of [touchTask], drains interleaved, the gate is where
    [gate_after] puts it on the frames polled. *)
Lemma wheel_run_gate fuel events :
  ∀ w w' steps drained,
    wheel_run com_position fuel events w = Some (w', steps, drained) →
    gate_view w' = gate_view (gate_after w (polled_frames events)).
Proof.
  induction events as [| ev events IH]; intros w w' steps drained; cbn [wheel_run].
  - intros [= <- <- <-]. reflexivity.
  - destruct ev as [hw |].
    + destruct (touchTask_iter com_position fuel w hw) as [[w1 d] |] eqn:Hiter;
        [| discriminate].
      cbn [mbind option_bind].
      destruct (wheel_run com_position fuel events w1) as [[[w2 st] dr] |] eqn:Hrun;
        [| discriminate].
      cbn [mbind option_bind]. intros [= <- <- <-].
      rewrite (IH w1 w2 st dr Hrun). cbn [polled_frames].
      unfold gate_after at 2. cbn [foldl].
      apply gate_after_view, (touchTask_iter_gate fuel w hw w1 d Hiter).
    + cbn [touchWheelGetAndClearDelta].
      destruct (wheel_run com_position fuel events
                  (set_motion w 0 (s_fracMove w))) as [[[w2 st] dr] |] eqn:Hrun;
        [| discriminate].
      cbn [mbind option_bind]. intros [= <- <- <-].
      rewrite (IH _ w2 st dr Hrun). cbn [polled_frames].
      apply gate_after_view. reflexivity.
Qed.

(** Every value a run hands out or keeps pending was accumulated by a
    poll, as long as fewer than [2^31] steps are at stake. *)
Lemma wheel_run_conserves fuel events :
  ∀ w w' steps drained,
    wheel_run com_position fuel events w = Some (w', steps, drained) →
    Z.abs (s_accumDelta w) + sumZ (map Z.abs steps) < 2147483648 →
    sumZ drained + s_accumDelta w' = s_accumDelta w + sumZ steps.
Proof.
  induction events as [| ev events IH]; intros w w' steps drained; cbn [wheel_run].
  - intros [= <- <- <-] _. cbn. lia.
  - destruct ev as [hw |].
    + destruct (touchTask_iter com_position fuel w hw) as [[w1 d] |] eqn:Hiter;
        [| discriminate].
      cbn [mbind option_bind].
      destruct (wheel_run com_position fuel events w1) as [[[w2 st] dr] |] eqn:Hrun;
        [| discriminate].
      cbn [mbind option_bind]. intros [= <- <- <-]. cbn [map sumZ foldr].
      fold (sumZ (map Z.abs st)). fold (sumZ st). intros Hb.
      assert (Hpos : 0 ≤ sumZ (map Z.abs st)).
      { clear. induction st as [| x st IH]; cbn; [lia |].
        fold (sumZ (map Z.abs st)). lia. }
      apply touchTask_iter_counter in Hiter; [| unfold int_range; lia].
      destruct Hiter as (Ha & _).
      rewrite wrap32_small in Ha by lia.
      specialize (IH w1 w2 st dr Hrun ltac:(lia)). lia.
    + cbn [touchWheelGetAndClearDelta].
      destruct (wheel_run com_position fuel events
                  (set_motion w 0 (s_fracMove w))) as [[[w2 st] dr] |] eqn:Hrun;
        [| discriminate].
      cbn [mbind option_bind]. intros [= <- <- <-]. intros Hb.
      cbn [sumZ foldr]. fold (sumZ dr).
      specialize (IH _ w2 st dr Hrun). cbn [set_motion s_accumDelta] in IH.
      specialize (IH ltac:(lia)). lia.
Qed.

(** Drains that are not preempted.  Run from its load to its store
    without a poll in between, [touchWheelGetAndClearDelta] returns the
    counter and leaves it at zero, so a second drain right after returns
    0; and over any interleaving of whole polls and whole drains that
    starts with an empty counter, the drained values plus what is still
    pending equal the steps the polls accumulated (so the drained values
    alone do once the last event is a drain), provided fewer than [2^31]
    steps were accumulated in all, the range of the [int] counter. *)
Theorem drain_returns_and_clears fuel w events w' steps drained :
  fst (touchWheelGetAndClearDelta w) = s_accumDelta w ∧
  s_accumDelta (snd (touchWheelGetAndClearDelta w)) = 0 ∧
  fst (touchWheelGetAndClearDelta (snd (touchWheelGetAndClearDelta w))) = 0 ∧
  (s_accumDelta w = 0 →
   wheel_run com_position fuel events w = Some (w', steps, drained) →
   sumZ (map Z.abs steps) < 2147483648 →
   sumZ drained + s_accumDelta w' = sumZ steps ∧
   (s_accumDelta w' = 0 → sumZ drained = sumZ steps)).
Proof.
  split; [reflexivity |]. split; [reflexivity |]. split; [reflexivity |].
  intros Hempty Hrun Hbound.
  pose proof (wheel_run_conserves fuel events w w' steps drained Hrun
                ltac:(lia)) as H.
  rewrite Hempty in H. split; [lia |]. intros Hz. lia.
Qed.

End PollLoop.

Lemma drain_returns_and_clears_witness :
  sumZ [2; 0] + 0 = sumZ [0; 0; 1; 1] ∧ sumZ [2; 0] = sumZ [0; 0; 1; 1].
Proof.
  destruct (drain_returns_and_clears single_slot_position 7 touch_wheel_init
              swipe
              {| s_accumDelta := 0;
                 s_order := [0; 1; 2; 3; 4; 5; 6; 7; 8; 9; 10; 11];
                 s_orderCount := 12;
                 s_invert := false;
                 s_fracMove := 0;
                 s_isActive := true;
                 s_activeFrames := 4;
                 s_quietFrames := 0;
                 lastPos := F32.of_int 2 |}
              [0; 0; 1; 1] [2; 0]) as (_ & _ & _ & H).
  destruct H as [Hsum Hdrained].
  - reflexivity.
  - vm_compute. reflexivity.
  - vm_compute. reflexivity.
  - split; [exact Hsum | apply Hdrained; reflexivity].
Defined.

(** ** Binary32 rounding *)

(** On every pair of the sample values, sums and differences of the
    embedding are those of [SpecFloat] at the binary32 parameters. *)
Example F32_agrees_with_SpecFloat :
  Forall F32.representable binary32_samples ∧
  forallb (λ x, forallb (agrees_with_spec_float x) binary32_samples)
          binary32_samples = true.
Proof.
  split; [repeat constructor |]. vm_compute. reflexivity.
Qed.

Lemma F32_ulp_exp_nonneg n : 0 ≤ F32.ulp_exp n.
Proof. unfold F32.ulp_exp. lia. Qed.

Lemma F32_ulp_exp_mono m n : 0 ≤ m ≤ n → F32.ulp_exp m ≤ F32.ulp_exp n.
Proof.
  intros H. unfold F32.ulp_exp.
  pose proof (Z.log2_le_mono m n ltac:(lia)). lia.
Qed.

Lemma F32_ulp_pow_pos n : 0 < 2 ^ F32.ulp_exp n.
Proof. apply Z.pow_pos_nonneg; [lia | apply F32_ulp_exp_nonneg]. Qed.

(** a magnitude is representable iff its ulp divides it *)
Lemma F32_representable_divide x :
  F32.representable x ↔ (2 ^ F32.ulp_exp (Z.abs x) | Z.abs x).
Proof.
  unfold F32.representable. pose proof (F32_ulp_pow_pos (Z.abs x)).
  rewrite Z.mod_divide by lia. reflexivity.
Qed.

Lemma F32_pow2_divide j k : 0 ≤ j ≤ k → (2 ^ j | 2 ^ k).
Proof.
  intros H. exists (2 ^ (k - j)). rewrite <- Z.pow_add_r by lia. f_equal. lia.
Qed.

(** A magnitude that a power of two at least its ulp divides is representable *)
Lemma F32_representable_by_divisor x k :
  F32.ulp_exp (Z.abs x) ≤ k → (2 ^ k | x) → F32.representable x.
Proof.
  intros Hk Hd. apply F32_representable_divide.
  apply Z.divide_abs_r.
  eapply Z.divide_trans; [| exact Hd].
  apply F32_pow2_divide. split; [apply F32_ulp_exp_nonneg | exact Hk].
Qed.

Lemma F32_representable_opp x : F32.representable x → F32.representable (- x).
Proof. unfold F32.representable. rewrite Z.abs_opp. trivial. Qed.

Lemma F32_rne_opp x : F32.rne (- x) = - F32.rne x.
Proof. unfold F32.rne. rewrite Z.sgn_opp, Z.abs_opp. lia. Qed.

Lemma F32_rne_mag_exact n : n mod 2 ^ F32.ulp_exp n = 0 → F32.rne_mag n = n.
Proof.
  intros H. unfold F32.rne_mag. cbv zeta. rewrite H.
  pose proof (F32_ulp_pow_pos n).
  replace (2 * 0 <? 2 ^ F32.ulp_exp n) with true by (symmetry; lia).
  pose proof (Z.div_mod n (2 ^ F32.ulp_exp n) ltac:(lia)). lia.
Qed.

Lemma F32_rne_exact x : F32.representable x → F32.rne x = x.
Proof.
  intros H. unfold F32.rne. rewrite F32_rne_mag_exact by exact H.
  destruct x; simpl; lia.
Qed.

(** rne_mag picks one of the two neighbours, nearest *)
Lemma F32_rne_mag_cases n :
  let d := F32.ulp_exp n in
  let q := n / 2 ^ d in
  let r := n mod 2 ^ d in
  (F32.rne_mag n = q * 2 ^ d ∧ 2 * r ≤ 2 ^ d) ∨
  (F32.rne_mag n = (q + 1) * 2 ^ d ∧ 2 ^ d ≤ 2 * r).
Proof.
  cbv zeta. unfold F32.rne_mag. cbv zeta.
  destruct (2 * (n mod 2 ^ F32.ulp_exp n) <? 2 ^ F32.ulp_exp n) eqn:H1; [left; split; [reflexivity | lia] |].
  destruct (2 ^ F32.ulp_exp n <? 2 * (n mod 2 ^ F32.ulp_exp n)) eqn:H2; [right; split; [reflexivity | lia] |].
  destruct (Z.even _); [left | right]; (split; [reflexivity | lia]).
Qed.

Lemma F32_div_mod_ulp n :
  let d := F32.ulp_exp n in
  n = (n / 2 ^ d) * 2 ^ d + n mod 2 ^ d ∧ 0 ≤ n mod 2 ^ d < 2 ^ d.
Proof.
  cbv zeta. pose proof (F32_ulp_pow_pos n).
  pose proof (Z.div_mod n (2 ^ F32.ulp_exp n) ltac:(lia)).
  pose proof (Z.mod_pos_bound n (2 ^ F32.ulp_exp n) ltac:(lia)). lia.
Qed.

(** magnitude bounds in a binade *)
Lemma F32_ulp_exp_bounds n :
  0 < F32.ulp_exp n → 2 ^ (F32.ulp_exp n + 23) ≤ n < 2 ^ (F32.ulp_exp n + 24).
Proof.
  unfold F32.ulp_exp. intros H.
  assert (Hn : 0 < n).
  { destruct (Z_lt_le_dec 0 n); [assumption |]. rewrite Z.log2_nonpos in H by lia. lia. }
  pose proof (Z.log2_spec n Hn).
  replace (Z.max 0 (Z.log2 n - 23) + 23) with (Z.log2 n) by lia.
  replace (Z.max 0 (Z.log2 n - 23) + 24) with (Z.succ (Z.log2 n)) by lia.
  exact H0.
Qed.

Lemma F32_ulp_exp_lower y k : 0 ≤ k → 2 ^ (k + 23) ≤ y → k ≤ F32.ulp_exp y.
Proof.
  intros Hk Hy. unfold F32.ulp_exp.
  assert (k + 23 ≤ Z.log2 y).
  { apply Z.log2_le_pow2; [| exact Hy].
    pose proof (Z.pow_pos_nonneg 2 (k + 23) ltac:(lia) ltac:(lia)). lia. }
  lia.
Qed.

(** No representable magnitude lies strictly between the two neighbours *)
Lemma F32_no_representable_between n y :
  0 ≤ n → 0 ≤ y → F32.representable y →
  let d := F32.ulp_exp n in
  let q := n / 2 ^ d in
  q * 2 ^ d < y < (q + 1) * 2 ^ d → False.
Proof.
  intros Hn Hy Hr d q [Hlo Hhi].
  destruct (F32_div_mod_ulp n) as [Hdm Hrm]. fold d in Hdm, Hrm. fold q in Hdm.
  assert (Hdp : 0 < 2 ^ d) by apply F32_ulp_pow_pos.
  assert (Hd : d ≤ F32.ulp_exp y).
  { destruct (Z.eq_dec d 0) as [-> | Hnz]; [apply F32_ulp_exp_nonneg |].
    assert (Hd0 : 0 < d) by (pose proof (F32_ulp_exp_nonneg n); unfold d in *; lia).
    pose proof (F32_ulp_exp_bounds n Hd0) as [Hb _]. fold d in Hb.
    apply F32_ulp_exp_lower; [lia |].
    rewrite Z.pow_add_r in Hb |- * by lia.
    change (2 ^ 23) with 8388608 in Hb |- *.
    fold d in Hrm. set (P := 2 ^ d) in *.
    assert (Hq : 8388608 ≤ q).
    { destruct (Z_lt_le_dec q 8388608); [| assumption].
      assert ((q + 1) * P ≤ 8388608 * P) by (apply Z.mul_le_mono_nonneg_r; lia).
      lia. }
    assert (8388608 * P ≤ q * P) by (apply Z.mul_le_mono_nonneg_r; lia).
    lia. }
  apply F32_representable_divide in Hr. rewrite (Z.abs_eq y) in Hr by lia.
  assert (Hdiv : (2 ^ d | y)).
  { eapply Z.divide_trans; [| exact Hr]. apply F32_pow2_divide.
    split; [apply F32_ulp_exp_nonneg | exact Hd]. }
  destruct Hdiv as [k Hk]. subst y.
  assert (q < k) by (apply (Z.mul_lt_mono_pos_r (2 ^ d)); lia).
  assert (k < q + 1) by (apply (Z.mul_lt_mono_pos_r (2 ^ d)); lia).
  lia.
Qed.

Lemma F32_rne_mag_nonneg n : 0 ≤ n → 0 ≤ F32.rne_mag n.
Proof.
  intros Hn. destruct (F32_div_mod_ulp n) as [Hdm Hrm].
  pose proof (F32_ulp_pow_pos n).
  assert (0 ≤ n / 2 ^ F32.ulp_exp n) by (apply Z.div_pos; lia).
  destruct (F32_rne_mag_cases n) as [[-> _] | [-> _]]; nia.
Qed.

Lemma F32_rne_mag_le n y :
  0 ≤ n → F32.representable y → n ≤ y → F32.rne_mag n ≤ y.
Proof.
  intros Hn Hr Hle. destruct (F32_div_mod_ulp n) as [Hdm Hrm].
  destruct (F32_rne_mag_cases n) as [[-> _] | [-> Hhalf]]; [lia |].
  destruct (Z_lt_le_dec y ((n / 2 ^ F32.ulp_exp n + 1) * 2 ^ F32.ulp_exp n)); [| assumption].
  exfalso. apply (F32_no_representable_between n y Hn ltac:(lia) Hr). cbv zeta.
  pose proof (F32_ulp_pow_pos n). split; [| assumption]. lia.
Qed.

Lemma F32_rne_mag_ge n y :
  0 ≤ n → 0 ≤ y → F32.representable y → y ≤ n → y ≤ F32.rne_mag n.
Proof.
  intros Hn Hy Hr Hle. destruct (F32_div_mod_ulp n) as [Hdm Hrm].
  pose proof (F32_ulp_pow_pos n).
  destruct (Z_lt_le_dec (n / 2 ^ F32.ulp_exp n * 2 ^ F32.ulp_exp n) y) as [Hlt |];
    [| destruct (F32_rne_mag_cases n) as [[-> _] | [-> _]]; lia].
  exfalso. apply (F32_no_representable_between n y Hn Hy Hr). cbv zeta. lia.
Qed.

(** Rounding never crosses a representable bound *)
Lemma F32_rne_le x y : F32.representable y → x ≤ y → F32.rne x ≤ y.
Proof.
  intros Hr Hle. unfold F32.rne.
  destruct (Z.sgn_spec x) as [[Hx ->] | [[Hx ->] | [Hx ->]]].
  - rewrite Z.mul_1_l. apply F32_rne_mag_le; [lia | exact Hr | lia].
  - subst x. lia.
  - destruct (Z_lt_le_dec y 0).
    + pose proof (F32_rne_mag_ge (Z.abs x) (- y) ltac:(lia) ltac:(lia)
                    (F32_representable_opp y Hr) ltac:(lia)). lia.
    + pose proof (F32_rne_mag_nonneg (Z.abs x) ltac:(lia)). lia.
Qed.

Lemma F32_rne_ge x y : F32.representable y → y ≤ x → y ≤ F32.rne x.
Proof.
  intros Hr Hle.
  pose proof (F32_rne_le (- x) (- y) (F32_representable_opp y Hr) ltac:(lia)) as H.
  rewrite F32_rne_opp in H. lia.
Qed.

Lemma F32_ulp_exp_upper y k : 0 ≤ k → y < 2 ^ (k + 24) → F32.ulp_exp y ≤ k.
Proof.
  intros Hk Hy. unfold F32.ulp_exp.
  destruct (Z_lt_le_dec 0 y) as [Hpos | Hnp].
  - assert (Z.log2 y < k + 24) by (apply Z.log2_lt_pow2; assumption). lia.
  - rewrite Z.log2_nonpos by lia. lia.
Qed.

Lemma F32_rne_mag_representable n : 0 ≤ n → F32.representable (F32.rne_mag n).
Proof.
  intros Hn. destruct (F32_div_mod_ulp n) as [Hdm Hrm].
  set (d := F32.ulp_exp n) in *. set (q := n / 2 ^ d) in *.
  assert (Hdp : 0 < 2 ^ d) by apply F32_ulp_pow_pos.
  assert (Hd0 : 0 ≤ d) by apply F32_ulp_exp_nonneg.
  assert (Hq0 : 0 ≤ q) by (apply Z.div_pos; lia).
  destruct (Z.eq_dec d 0) as [Hz | Hnz].
  - assert (Hex : F32.rne_mag n = n).
    { apply F32_rne_mag_exact. fold d. rewrite Hz. apply Z.mod_1_r. }
    rewrite Hex. unfold F32.representable. rewrite Z.abs_eq by lia.
    fold d. rewrite Hz. apply Z.mod_1_r.
  - pose proof (F32_ulp_exp_bounds n ltac:(fold d; lia)) as [Hlo Hhi]. fold d in Hlo, Hhi.
    assert (Hq : q + 1 ≤ 2 ^ 24).
    { rewrite Z.pow_add_r in Hhi by lia.
      destruct (Z_lt_le_dec q (2 ^ 24)); [lia |].
      assert (2 ^ 24 * 2 ^ d ≤ q * 2 ^ d) by (apply Z.mul_le_mono_nonneg_r; lia).
      lia. }
    assert (Hm : ∃ m, F32.rne_mag n = m * 2 ^ d ∧ 0 ≤ m ≤ 2 ^ 24).
    { destruct (F32_rne_mag_cases n) as [[-> _] | [-> _]]; fold d; fold q;
        eexists; (split; [reflexivity | lia]). }
    destruct Hm as (m & -> & Hm).
    assert (Habs : Z.abs (m * 2 ^ d) = m * 2 ^ d) by (apply Z.abs_eq; nia).
    destruct (Z.eq_dec m (2 ^ 24)) as [-> | Hne].
    + apply (F32_representable_by_divisor _ (d + 1)).
      * rewrite Habs. apply F32_ulp_exp_upper; [lia |].
        rewrite <- Z.pow_add_r by lia.
        apply Z.pow_lt_mono_r; lia.
      * rewrite <- Z.pow_add_r by lia. apply F32_pow2_divide. lia.
    + apply (F32_representable_by_divisor _ d).
      * rewrite Habs. apply F32_ulp_exp_upper; [lia |].
        rewrite Z.pow_add_r by lia.
        assert (m * 2 ^ d < 2 ^ 24 * 2 ^ d) by (apply Z.mul_lt_mono_pos_r; lia).
        lia.
      * exists m. reflexivity.
Qed.

Lemma F32_rne_representable x : F32.representable (F32.rne x).
Proof.
  unfold F32.rne.
  destruct (Z.sgn_spec x) as [[Hx ->] | [[Hx ->] | [Hx ->]]].
  - rewrite Z.mul_1_l. apply F32_rne_mag_representable. lia.
  - reflexivity.
  - replace (-1 * F32.rne_mag (Z.abs x)) with (- F32.rne_mag (Z.abs x)) by lia.
    apply F32_representable_opp, F32_rne_mag_representable. lia.
Qed.

(** The error of one rounding is at most half an ulp *)
Lemma F32_rne_mag_error n : 0 ≤ n → 2 * Z.abs (F32.rne_mag n - n) ≤ 2 ^ F32.ulp_exp n.
Proof.
  intros Hn. destruct (F32_div_mod_ulp n) as [Hdm Hrm].
  destruct (F32_rne_mag_cases n) as [[-> Hh] | [-> Hh]]; lia.
Qed.

Lemma F32_rne_error x : 2 * Z.abs (F32.rne x - x) ≤ 2 ^ F32.ulp_exp (Z.abs x).
Proof.
  unfold F32.rne. pose proof (F32_rne_mag_error (Z.abs x) ltac:(lia)).
  destruct (Z.sgn_spec x) as [[Hx ->] | [[Hx ->] | [Hx ->]]]; lia.
Qed.

(** representable magnitudes: what their ulp gives *)
Lemma F32_representable_ulp_divide x k :
  F32.representable x → 0 ≤ k → 2 ^ (k + 23) ≤ Z.abs x → (2 ^ k | x).
Proof.
  intros Hr Hk Hx.
  assert (Hd : (2 ^ F32.ulp_exp (Z.abs x) | x))
    by (apply Z.divide_abs_r, F32_representable_divide, Hr).
  eapply Z.divide_trans; [| exact Hd]. apply F32_pow2_divide.
  split; [lia |]. apply F32_ulp_exp_lower; assumption.
Qed.

(** An integer of at most 24 bits scaled by a power of two is a binary32
    value. *)
Lemma F32_scaled_representable n e :
  Z.abs n < 2 ^ 24 → 0 ≤ e → F32.representable (n * 2 ^ e).
Proof.
  intros Hn He.
  apply (F32_representable_by_divisor _ e); [| exists n; reflexivity].
  apply F32_ulp_exp_upper; [lia |].
  assert (Hp : 0 < 2 ^ e) by (apply Z.pow_pos_nonneg; lia).
  rewrite Z.abs_mul, (Z.abs_eq (2 ^ e)) by lia.
  rewrite Z.pow_add_r by lia. rewrite Z.mul_comm.
  apply Z.mul_lt_mono_pos_l; lia.
Qed.

(** Subtracting 1.0f from a float in [0.5, 6.5] is exact. *)
Lemma F32_sub_one_exact x :
  F32.representable x → F32.half ≤ x ≤ 13 * F32.half →
  F32.sub x F32.one = x - F32.one.
Proof.
  intros Hr [Hlo Hhi]. unfold F32.sub. apply F32_rne_exact.
  unfold F32.half, F32.one in *.
  destruct (Z_lt_le_dec x (2 ^ 149)) as [Hlt | Hge].
  - apply (F32_representable_by_divisor _ 125).
    + apply F32_ulp_exp_upper; lia.
    + apply Z.divide_sub_r.
      * apply (F32_representable_ulp_divide x 125 Hr); lia.
      * apply (F32_pow2_divide 125 149). lia.
  - apply (F32_representable_by_divisor _ (F32.ulp_exp (Z.abs x))).
    + apply F32_ulp_exp_mono. lia.
    + apply Z.divide_sub_r.
      * apply Z.divide_abs_r, F32_representable_divide, Hr.
      * apply F32_pow2_divide. split; [apply F32_ulp_exp_nonneg |].
        apply F32_ulp_exp_upper; lia.
Qed.

Lemma F32_add_one_exact x :
  F32.representable x → - (13 * F32.half) ≤ x ≤ - F32.half →
  F32.add x F32.one = x + F32.one.
Proof.
  intros Hr Hx. unfold F32.add.
  pose proof (F32_sub_one_exact (- x) (F32_representable_opp x Hr) ltac:(lia)) as H.
  unfold F32.sub in H.
  replace (x + F32.one) with (- (- x - F32.one)) by lia.
  rewrite F32_rne_opp, H. reflexivity.
Qed.

(** ** Step accumulator *)

Lemma steps_up_eq fuel frac accum sd :
  steps_up fuel frac accum sd
  = if frac >=? F32.half then
      match fuel with
      | O => None
      | S fuel => steps_up fuel (F32.sub frac F32.one)
                           (wrap32 (accum + 1)) (wrap32 (sd + 1))
      end
    else Some (frac, accum, sd).
Proof. destruct fuel; reflexivity. Qed.

Lemma steps_down_eq fuel frac accum sd :
  steps_down fuel frac accum sd
  = if frac <=? - F32.half then
      match fuel with
      | O => None
      | S fuel => steps_down fuel (F32.add frac F32.one)
                             (wrap32 (accum - 1)) (wrap32 (sd - 1))
      end
    else Some (frac, accum, sd).
Proof. destruct fuel; reflexivity. Qed.

(** From an accumulator of at most [(2 m - 1) / 2], the first loop ends
    within [m] iterations, each subtraction exact. *)
Lemma steps_up_exact (m : nat) :
  ∀ fuel frac accum sd,
    (m ≤ fuel)%nat → (m ≤ 7)%nat →
    F32.representable frac →
    - (13 * F32.half) ≤ frac ≤ (2 * Z.of_nat m - 1) * F32.half →
    -1000 ≤ sd → sd + Z.of_nat m ≤ 1000 →
    ∃ k accum',
      steps_up fuel frac accum sd = Some (frac - k * F32.one, accum', sd + k) ∧
      0 ≤ k ≤ Z.of_nat m ∧
      F32.representable (frac - k * F32.one) ∧
      frac - k * F32.one < F32.half ∧
      (0 < k → - F32.half ≤ frac - k * F32.one).
Proof.
  induction m as [| m IH]; intros fuel frac accum sd Hfuel Hm Hr Hfrac Hsd1 Hsd2;
    rewrite steps_up_eq.
  - replace (frac >=? F32.half) with false
      by (symmetry; unfold F32.half in *; lia).
    exists 0, accum. rewrite Z.mul_0_l, Z.sub_0_r, Z.add_0_r.
    repeat split; try lia; try assumption. unfold F32.half in *. lia.
  - destruct (frac >=? F32.half) eqn:Hge.
    + destruct fuel as [| fuel]; [lia |].
      rewrite (F32_sub_one_exact frac Hr) by (unfold F32.half in *; lia).
      rewrite (wrap32_small (sd + 1)) by lia.
      destruct (IH fuel (frac - F32.one) (wrap32 (accum + 1)) (sd + 1))
        as (k & accum' & Hrun & Hk & Hrk & Hlt & Hlow); try lia.
      * rewrite <- (F32_sub_one_exact frac Hr) by (unfold F32.half in *; lia).
        apply F32_rne_representable.
      * unfold F32.half, F32.one in *. lia.
      * exists (k + 1), accum'.
        replace (frac - (k + 1) * F32.one) with (frac - F32.one - k * F32.one) by lia.
        replace (sd + (k + 1)) with (sd + 1 + k) by lia.
        repeat split; try lia; try assumption.
        intros _. destruct (Z.eq_dec k 0) as [-> | Hk0]; [| apply Hlow; lia].
        unfold F32.half, F32.one in *. lia.
    + exists 0, accum. rewrite Z.mul_0_l, Z.sub_0_r, Z.add_0_r.
      repeat split; try lia; try assumption.
Qed.

Lemma steps_down_exact (m : nat) :
  ∀ fuel frac accum sd,
    (m ≤ fuel)%nat → (m ≤ 7)%nat →
    F32.representable frac →
    - ((2 * Z.of_nat m - 1) * F32.half) ≤ frac ≤ 13 * F32.half →
    sd ≤ 1000 → -1000 ≤ sd - Z.of_nat m →
    ∃ k accum',
      steps_down fuel frac accum sd = Some (frac + k * F32.one, accum', sd - k) ∧
      0 ≤ k ≤ Z.of_nat m ∧
      F32.representable (frac + k * F32.one) ∧
      - F32.half < frac + k * F32.one ∧
      (0 < k → frac + k * F32.one ≤ F32.half).
Proof.
  induction m as [| m IH]; intros fuel frac accum sd Hfuel Hm Hr Hfrac Hsd1 Hsd2;
    rewrite steps_down_eq.
  - replace (frac <=? - F32.half) with false
      by (symmetry; unfold F32.half in *; lia).
    exists 0, accum. rewrite Z.mul_0_l, Z.add_0_r, Z.sub_0_r.
    repeat split; try lia; try assumption. unfold F32.half in *. lia.
  - destruct (frac <=? - F32.half) eqn:Hle.
    + destruct fuel as [| fuel]; [lia |].
      rewrite (F32_add_one_exact frac Hr) by (unfold F32.half in *; lia).
      rewrite (wrap32_small (sd - 1)) by lia.
      destruct (IH fuel (frac + F32.one) (wrap32 (accum - 1)) (sd - 1))
        as (k & accum' & Hrun & Hk & Hrk & Hgt & Hhigh); try lia.
      * rewrite <- (F32_add_one_exact frac Hr) by (unfold F32.half in *; lia).
        apply F32_rne_representable.
      * unfold F32.half, F32.one in *. lia.
      * exists (k + 1), accum'.
        replace (frac + (k + 1) * F32.one) with (frac + F32.one + k * F32.one) by lia.
        replace (sd - (k + 1)) with (sd - 1 - k) by lia.
        repeat split; try lia; try assumption.
        intros _. destruct (Z.eq_dec k 0) as [-> | Hk0]; [| apply Hhigh; lia].
        unfold F32.half, F32.one in *. lia.
    + exists 0, accum. rewrite Z.mul_0_l, Z.add_0_r, Z.sub_0_r.
      repeat split; try lia; try assumption.
Qed.

(** The difference of two positions of a ring of [count] slots is a
    binary32 value of at most [count / 2] in magnitude (at most 1 on a
    ring of one slot). *)
Lemma wrapped_diff_bounds count invert p last :
  1 ≤ count ≤ 12 → position_ok count p → position_ok count last →
  F32.representable (wrapped_diff count invert p last) ∧
  Z.abs (wrapped_diff count invert p last) ≤ Z.max (count * F32.half) F32.one.
Proof.
  intros Hc [Hrp Hp] [Hrl Hl]. unfold F32.of_int in *.
  assert (Hfull : F32.representable ((count + 1) * 2 ^ 149))
    by (apply F32_scaled_representable; lia).
  assert (Hhalf : F32.representable (count * F32.half))
    by (apply F32_scaled_representable; lia).
  assert (Hone : F32.representable F32.one) by reflexivity.
  unfold wrapped_diff, F32.sub, F32.add, F32.of_int. cbv zeta.
  pose proof (F32_rne_le (p - last) _ Hfull ltac:(lia)) as H0hi.
  pose proof (F32_rne_ge (p - last) _ (F32_representable_opp _ Hfull) ltac:(lia)) as H0lo.
  pose proof (F32_rne_representable (p - last)) as H0r.
  set (d0 := F32.rne (p - last)) in *. clearbody d0.
  assert (H1 : ∃ d1, (if d0 >? count * F32.half then F32.rne (d0 - count * 2 ^ 149) else d0) = d1
                     ∧ F32.representable d1
                     ∧ - ((count + 1) * 2 ^ 149) ≤ d1
                       ≤ Z.max (count * F32.half) F32.one).
  { eexists. split; [reflexivity |].
    destruct (d0 >? count * F32.half) eqn:Hgt.
    - split; [apply F32_rne_representable |]. split.
      + apply F32_rne_ge; [apply F32_representable_opp, Hfull |].
        unfold F32.half in *. lia.
      + etransitivity; [apply (F32_rne_le _ F32.one Hone); unfold F32.one; lia |].
        lia.
    - split; [exact H0r |]. lia. }
  destruct H1 as (d1 & -> & H1r & H1lo & H1hi).
  assert (H2 : ∃ d2, (if d1 <? - (count * F32.half) then F32.rne (d1 + count * 2 ^ 149) else d1) = d2
                     ∧ F32.representable d2
                     ∧ - Z.max (count * F32.half) F32.one ≤ d2
                       ≤ Z.max (count * F32.half) F32.one).
  { eexists. split; [reflexivity |].
    destruct (d1 <? - (count * F32.half)) eqn:Hlt.
    - split; [apply F32_rne_representable |]. split.
      + etransitivity;
          [| apply (F32_rne_ge _ (- F32.one) (F32_representable_opp _ Hone));
             unfold F32.one; lia].
        lia.
      + etransitivity; [apply (F32_rne_le _ _ Hhalf); unfold F32.half in *; lia |].
        lia.
    - split; [exact H1r |]. lia. }
  destruct H2 as (d2 & -> & H2r & H2lo & H2hi).
  destruct invert; unfold F32.opp.
  - split; [apply F32_representable_opp, H2r | lia].
  - split; [exact H2r | lia].
Qed.

(** One frame of the step accumulator: both loops end within seven
    iterations; the steps emitted are the rounded sum minus the new
    accumulator, which is again within a half; the rounding error of the
    sum is at most [2^-22]. *)
Lemma step_accumulate_frame fuel w p :
  (7 ≤ fuel)%nat → session_state w → position_ok (s_orderCount w) p →
  let diff := wrapped_diff (s_orderCount w) (s_invert w) p (lastPos w) in
  ∃ w' d,
    step_accumulate fuel w p = Some (w', d) ∧
    d * F32.one = F32.add (s_fracMove w) diff - s_fracMove w' ∧
    Z.abs (F32.add (s_fracMove w) diff - (s_fracMove w + diff)) ≤ 2 ^ 127 ∧
    session_state (set_lastPos w' p) ∧
    s_orderCount w' = s_orderCount w ∧ s_invert w' = s_invert w.
Proof.
  intros Hfuel (Hc & Hrf & Hf & Hlast) Hp diff.
  destruct (wrapped_diff_bounds (s_orderCount w) (s_invert w) p (lastPos w)
              Hc Hp Hlast) as [Hrd Hd].
  fold diff in Hrd, Hd.
  assert (Hbound : F32.representable (13 * F32.half))
    by (apply F32_scaled_representable; lia).
  assert (Hsum : Z.abs (s_fracMove w + diff) ≤ 13 * F32.half)
    by (unfold F32.half, F32.one in *; lia).
  pose proof (F32_rne_le (s_fracMove w + diff) _ Hbound ltac:(lia)) as Hhi.
  pose proof (F32_rne_ge (s_fracMove w + diff) _
                (F32_representable_opp _ Hbound) ltac:(lia)) as Hlo.
  pose proof (F32_rne_representable (s_fracMove w + diff)) as Hr1.
  assert (Herr : Z.abs (F32.add (s_fracMove w) diff - (s_fracMove w + diff)) ≤ 2 ^ 127).
  { unfold F32.add. pose proof (F32_rne_error (s_fracMove w + diff)) as He.
    assert (F32.ulp_exp (Z.abs (s_fracMove w + diff)) ≤ 128)
      by (apply F32_ulp_exp_upper; unfold F32.half in *; lia).
    assert (2 ^ F32.ulp_exp (Z.abs (s_fracMove w + diff)) ≤ 2 ^ 128)
      by (apply Z.pow_le_mono_r; lia).
    lia. }
  unfold step_accumulate. cbv zeta. fold diff.
  fold (F32.add (s_fracMove w) diff) in Hhi, Hlo, Hr1.
  set (frac1 := F32.add (s_fracMove w) diff) in *. clearbody frac1.
  destruct (steps_up_exact 7 fuel frac1 (s_accumDelta w) 0)
    as (k & a1 & -> & Hk & Hrk & Hklt & Hklo); try lia; try assumption.
  cbn [mbind option_bind].
  assert (Hkb : - ((2 * Z.of_nat 7 - 1) * F32.half) ≤ frac1 - k * F32.one
                ≤ 13 * F32.half)
    by (unfold F32.half, F32.one in *; lia).
  destruct (steps_down_exact 7 fuel (frac1 - k * F32.one) a1 (0 + k))
    as (j & a2 & -> & Hj & Hrj & Hjgt & Hjhi); try lia; try assumption.
  cbn [mbind option_bind].
  eexists _, _. split; [reflexivity |].
  cbn [set_motion set_lastPos s_fracMove s_orderCount s_invert lastPos].
  split; [lia |]. split; [exact Herr |]. split; [| split; reflexivity].
  unfold session_state.
  cbn [set_motion set_lastPos s_fracMove s_orderCount s_invert lastPos].
  repeat split; try lia; try assumption; try apply Hp.
  destruct (Z.eq_dec j 0) as [-> | Hj0].
  - unfold F32.half, F32.one in *. lia.
  - specialize (Hjhi ltac:(lia)). lia.
Qed.

Lemma sumZ_cons x l : sumZ (x :: l) = x + sumZ l.
Proof. reflexivity. Qed.

(** A session from any accumulator value: the emitted steps account for
    the initial accumulator, the differences and the rounding errors,
    less what stays in the accumulator. *)
Lemma session_conserves fuel positions :
  ∀ w,
    (7 ≤ fuel)%nat → session_state w →
    Forall (position_ok (s_orderCount w)) positions →
    ∃ w' steps,
      session fuel w positions = Some (w', steps) ∧
      session_state w' ∧
      sumZ steps * F32.one
      = s_fracMove w
        + sumZ (session_diffs (s_orderCount w) (s_invert w) (lastPos w) positions)
        + sumZ (session_rounding fuel w positions)
        - s_fracMove w' ∧
      Forall (λ e, Z.abs e ≤ 2 ^ 127) (session_rounding fuel w positions) ∧
      length (session_rounding fuel w positions) = length positions.
Proof.
  induction positions as [| p positions IH]; intros w Hfuel Hw Hps.
  - exists w, []. cbn. repeat split; try apply Hw; try lia. constructor.
  - apply Forall_cons in Hps. destruct Hps as [Hp Hps].
    destruct (step_accumulate_frame fuel w p Hfuel Hw Hp)
      as (w1 & d & Hacc & Hd & Herr & Hw1 & Hc1 & Hi1).
    destruct (IH (set_lastPos w1 p) Hfuel Hw1) as (w' & steps & Hrun & Hw' & Hsum & Hall & Hlen).
    { cbn [set_lastPos s_orderCount]. rewrite Hc1. exact Hps. }
    exists w', (d :: steps).
    cbn [session session_diffs session_rounding]. rewrite Hacc.
    cbn [mbind option_bind]. rewrite Hrun. cbn [mbind option_bind].
    split; [reflexivity |]. split; [exact Hw' |].
    cbn [set_lastPos s_orderCount s_invert lastPos s_fracMove] in Hsum.
    rewrite Hc1, Hi1 in Hsum.
    split; [| split].
    + rewrite !sumZ_cons. lia.
    + constructor; [exact Herr | exact Hall].
    + cbn [length]. rewrite Hlen. reflexivity.
Qed.

(** C2, as amended.  In an uninterrupted active session that starts with
    an empty accumulator, over positions the estimator can produce (binary32
    values from 0 to the slot count, at most 12, one slot of slack
    allowed): both loops of every
    frame end; the final accumulator is within a half; and the emitted
    steps equal the sum of the wrap-corrected differences, plus the
    rounding errors of the binary32 additions [s_fracMove += diff], minus
    the final accumulator.  Each rounding error is at most [2^-22], so the
    emitted total stays within [0.5 + n * 2^-22] of the sum of the
    differences over [n] frames. *)
Theorem step_accumulator_conserves_motion fuel w positions :
  (7 ≤ fuel)%nat → session_state w → s_fracMove w = 0 →
  Forall (position_ok (s_orderCount w)) positions →
  ∃ w' steps,
    session fuel w positions = Some (w', steps) ∧
    Z.abs (s_fracMove w') ≤ F32.half ∧
    sumZ steps * F32.one
    = sumZ (session_diffs (s_orderCount w) (s_invert w) (lastPos w) positions)
      + sumZ (session_rounding fuel w positions)
      - s_fracMove w' ∧
    Forall (λ e, Z.abs e ≤ 2 ^ 127) (session_rounding fuel w positions) ∧
    Z.abs (sumZ steps * F32.one
           - sumZ (session_diffs (s_orderCount w) (s_invert w) (lastPos w)
                     positions))
    ≤ F32.half + Z.of_nat (length positions) * 2 ^ 127.
Proof.
  intros Hfuel Hw Hzero Hps.
  destruct (session_conserves fuel positions w Hfuel Hw Hps)
    as (w' & steps & Hrun & Hw' & Hsum & Hall & Hlen).
  exists w', steps. rewrite Hzero, Z.add_0_l in Hsum.
  destruct Hw' as (_ & _ & Hf' & _).
  repeat split; try assumption.
  assert (Hbound : ∀ l : list Z, Forall (λ e, Z.abs e ≤ 2 ^ 127) l →
                     Z.abs (sumZ l) ≤ Z.of_nat (length l) * 2 ^ 127).
  { clear. induction l as [| x l IH]; intros H.
    - cbn. lia.
    - apply Forall_cons in H. destruct H as [Hx Hl]. specialize (IH Hl).
      rewrite sumZ_cons. cbn [length]. lia. }
  specialize (Hbound _ Hall). rewrite Hlen in Hbound. lia.
Qed.

Lemma step_accumulator_conserves_motion_witness :
  ∃ w' steps,
    session 7 quarter_wheel [0; 2 ^ 119] = Some (w', steps) ∧
    Z.abs (s_fracMove w') ≤ F32.half ∧
    sumZ steps * F32.one
    = sumZ (session_diffs 12 false (2 ^ 147) [0; 2 ^ 119])
      + sumZ (session_rounding 7 quarter_wheel [0; 2 ^ 119])
      - s_fracMove w' ∧
    Forall (λ e, Z.abs e ≤ 2 ^ 127) (session_rounding 7 quarter_wheel [0; 2 ^ 119]) ∧
    Z.abs (sumZ steps * F32.one
           - sumZ (session_diffs 12 false (2 ^ 147) [0; 2 ^ 119]))
    ≤ F32.half + 2 * 2 ^ 127.
Proof.
  apply (step_accumulator_conserves_motion 7 quarter_wheel [0; 2 ^ 119]).
  - lia.
  - repeat split; vm_compute; congruence.
  - reflexivity.
  - repeat constructor; vm_compute; congruence.
Defined.

(** C2, as stated, fails.  The session 0.25, 0, [2^-30]: the differences
    are -0.25 and [2^-30]; the second addition rounds [-0.25 + 2^-30] back
    to -0.25, so no step is emitted and the accumulator ends at -0.25,
    while the sum of the differences minus the accumulator is [2^-30]. *)
Lemma step_accumulator_rounding_drops_motion :
  session_state quarter_wheel ∧
  Forall (position_ok 12) [0; 2 ^ 119] ∧
  session 7 quarter_wheel [0; 2 ^ 119]
  = Some (set_lastPos (set_motion quarter_wheel 0 (- 2 ^ 147)) (2 ^ 119), [0; 0]) ∧
  session_diffs 12 false (2 ^ 147) [0; 2 ^ 119] = [- 2 ^ 147; 2 ^ 119] ∧
  sumZ [0; 0] * F32.one
  ≠ sumZ [- 2 ^ 147; 2 ^ 119] - (- 2 ^ 147).
Proof.
  split; [repeat split; vm_compute; congruence |].
  split; [repeat constructor; vm_compute; congruence |].
  split; [vm_compute; reflexivity |].
  split; [vm_compute; reflexivity |].
  vm_compute. discriminate.
Qed.

(* ===================================================================== *)
(** * Part III.  Further properties of the same files                    *)
(* ===================================================================== *)

(** ** Arrays *)

Lemma arr_get_set_eq {A} (d : A) (a : list A) i v :
  0 ≤ i < Z.of_nat (length a) → arr_get d (arr_set a i v) i = v.
Proof.
  intros H. unfold arr_get, arr_set.
  rewrite list_lookup_insert_eq by lia. reflexivity.
Qed.

Lemma arr_get_set_ne {A} (d : A) (a : list A) i j v :
  0 ≤ i → 0 ≤ j → i ≠ j → arr_get d (arr_set a i v) j = arr_get d a j.
Proof.
  intros Hi Hj Hne. unfold arr_get, arr_set.
  rewrite list_lookup_insert_ne by lia. reflexivity.
Qed.

Lemma arr_set_length {A} (a : list A) i v : length (arr_set a i v) = length a.
Proof. unfold arr_set. apply length_insert. Qed.

(** ** Sensitivity profile: validity *)

(** What [touch_config_validate] accepts. *)
Lemma validate_spec c :
  touch_config_validate c = true ↔
  (1 ≤ global_level c ≤ 5 ∧
   ∀ i, 0 ≤ i < 12 →
        arr_get 0 (touch_threshold c) i ≠ 0 ∧
        arr_get 0 (release_threshold c) i ≠ 0 ∧
        arr_get 0 (release_threshold c) i < arr_get 0 (touch_threshold c) i).
Proof.
  unfold touch_config_validate, TOUCH_SENSITIVITY_MIN, TOUCH_SENSITIVITY_MAX,
    TOUCH_ELECTRODE_COUNT.
  destruct ((global_level c <? 1) || (global_level c >? 5)) eqn:Hl.
  - split; [discriminate |]. intros [H _]. apply orb_true_iff in Hl. lia.
  - apply orb_false_iff in Hl. rewrite forallb_forall. split.
    + intros H. split; [lia |]. intros i Hi.
      specialize (H i ltac:(apply list_elem_of_In, elem_of_seqZ; lia)).
      unfold threshold_ok in H. apply negb_true_iff in H.
      rewrite !orb_false_iff in H. lia.
    + intros [_ H] i Hi. apply list_elem_of_In, elem_of_seqZ in Hi.
      specialize (H i ltac:(lia)). unfold threshold_ok.
      apply negb_true_iff. rewrite !orb_false_iff. lia.
Qed.

(** X1.  [touch_config_set_sensitivity_level] either rejects the level
    (outside 1..5) and returns the profile untouched, or accepts it and
    returns a profile that passes [touch_config_validate]: every row of
    both tables has touch above release above zero. *)
Theorem set_sensitivity_level_valid_or_untouched c level :
  config_wf c →
  (level < 1 ∨ 5 < level →
   touch_config_set_sensitivity_level c level = (false, c)) ∧
  (1 ≤ level ≤ 5 →
   fst (touch_config_set_sensitivity_level c level) = true ∧
   touch_config_validate (snd (touch_config_set_sensitivity_level c level)) = true).
Proof.
  intros Hwf. split.
  - intros H. unfold touch_config_set_sensitivity_level,
      TOUCH_SENSITIVITY_MIN, TOUCH_SENSITIVITY_MAX.
    replace ((level <? 1) || (level >? 5)) with true; [reflexivity |].
    symmetry. apply orb_true_iff. lia.
  - intros Hl. config_cells c.
    assert (Hlev : level = 1 ∨ level = 2 ∨ level = 3 ∨ level = 4 ∨ level = 5) by lia.
    destruct small_pad_compensation0;
      repeat (destruct Hlev as [Hlev | Hlev]; [subst level |]); try subst level;
      split; reflexivity.
Qed.

Lemma set_sensitivity_level_valid_or_untouched_witness :
  touch_config_set_sensitivity_level zeroed_config 9 = (false, zeroed_config) ∧
  touch_config_validate (snd (touch_config_set_sensitivity_level zeroed_config 5))
  = true.
Proof.
  split.
  - apply (set_sensitivity_level_valid_or_untouched zeroed_config 9);
      [split; reflexivity | lia].
  - apply (set_sensitivity_level_valid_or_untouched zeroed_config 5);
      [split; reflexivity | lia].
Defined.

(** X2.  Both [init_defaults] functions produce the default initialisers of
    the header, whatever the structure held before, and the default
    profile passes validation. *)
Theorem init_defaults_are_header_defaults c wc :
  config_wf c → length (electrode_order wc) = 12%nat →
  touch_config_init_defaults c = TOUCH_CONFIG_DEFAULT ∧
  touch_wheel_config_init_defaults wc = TOUCH_WHEEL_CONFIG_DEFAULT ∧
  touch_config_validate (touch_config_init_defaults c) = true.
Proof.
  intros Hwf Hlen. rewrite (init_defaults_factory c Hwf).
  split; [reflexivity |]. split; [| reflexivity].
  destruct wc as [o ? ? ? ? ?]. simpl in Hlen.
  do 12 (destruct o as [| ? o]; [discriminate Hlen |]).
  destruct o; [| discriminate Hlen]. reflexivity.
Qed.

Lemma init_defaults_are_header_defaults_witness :
  touch_config_init_defaults zeroed_config = TOUCH_CONFIG_DEFAULT ∧
  touch_wheel_config_init_defaults
    {| electrode_order := replicate 12 7; invert_direction := true;
       center_of_mass_threshold := 0; position_hysteresis := 0;
       enable_interpolation := false; scroll_acceleration := 9 |}
  = TOUCH_WHEEL_CONFIG_DEFAULT ∧
  touch_config_validate (touch_config_init_defaults zeroed_config) = true.
Proof.
  apply init_defaults_are_header_defaults; [split; reflexivity | reflexivity].
Defined.

(** X3.  An accepted [touch_config_set_electrode_threshold] keeps a valid
    profile valid and changes the two thresholds of that electrode only:
    the level and every other electrode's thresholds stay. *)
Theorem set_electrode_threshold_keeps_valid c electrode touch_thr release_thr :
  config_wf c → touch_config_validate c = true → 0 ≤ electrode →
  fst (touch_config_set_electrode_threshold c electrode touch_thr release_thr)
  = true →
  let c' := snd (touch_config_set_electrode_threshold c electrode touch_thr
                   release_thr) in
  touch_config_validate c' = true ∧ config_wf c' ∧
  global_level c' = global_level c ∧
  arr_get 0 (touch_threshold c') electrode = touch_thr ∧
  arr_get 0 (release_threshold c') electrode = release_thr ∧
  ∀ j, 0 ≤ j → j ≠ electrode →
       arr_get 0 (touch_threshold c') j = arr_get 0 (touch_threshold c) j ∧
       arr_get 0 (release_threshold c') j = arr_get 0 (release_threshold c) j.
Proof.
  intros [Ht Hr] Hv He. unfold touch_config_set_electrode_threshold,
    TOUCH_ELECTRODE_COUNT.
  destruct (electrode >=? 12) eqn:Hge; [discriminate |].
  destruct ((touch_thr =? 0) || (release_thr =? 0) || (touch_thr <=? release_thr))
    eqn:Hbad; [discriminate |].
  intros _. cbn [snd]. rewrite !orb_false_iff in Hbad.
  assert (Hfresh : ∀ j, 0 ≤ j → j ≠ electrode →
            arr_get 0 (arr_set (touch_threshold c) electrode touch_thr) j
            = arr_get 0 (touch_threshold c) j ∧
            arr_get 0 (arr_set (release_threshold c) electrode release_thr) j
            = arr_get 0 (release_threshold c) j).
  { intros j Hj Hne. split; apply arr_get_set_ne; lia. }
  assert (Hte : arr_get 0 (arr_set (touch_threshold c) electrode touch_thr) electrode
                = touch_thr) by (apply arr_get_set_eq; lia).
  assert (Hre : arr_get 0 (arr_set (release_threshold c) electrode release_thr) electrode
                = release_thr) by (apply arr_get_set_eq; lia).
  split; [| split; [| split; [| split; [| split]]]]; try assumption; try reflexivity.
  - apply validate_spec in Hv. destruct Hv as [Hl Hall].
    apply validate_spec. split; [exact Hl |]. intros j Hj.
    cbn [set_custom_per_pad set_release_threshold set_touch_threshold
         touch_threshold release_threshold].
    destruct (Z.eq_dec j electrode) as [-> | Hne].
    + rewrite Hte, Hre. lia.
    + destruct (Hfresh j ltac:(lia) Hne) as [-> ->]. apply Hall, Hj.
  - split; cbn; rewrite arr_set_length; assumption.
Qed.

Lemma set_electrode_threshold_keeps_valid_witness :
  touch_config_validate
    (snd (touch_config_set_electrode_threshold TOUCH_CONFIG_DEFAULT 4 30 12))
  = true.
Proof.
  apply (set_electrode_threshold_keeps_valid TOUCH_CONFIG_DEFAULT 4 30 12);
    [split; reflexivity | reflexivity | lia | reflexivity].
Defined.

(** ** Persistence: save and load *)

(** The keys of the electrodes are pairwise distinct and differ from the
    seven keys of the scalar fields. *)
Lemma touch_th_key_inj i j : touch_th_key i = touch_th_key j → i = j.
Proof.
  unfold touch_th_key. intros H.
  apply (inj (String.append "touch_th_")) in H.
  apply (inj pretty) in H. exact H.
Qed.

Lemma release_th_key_inj i j : release_th_key i = release_th_key j → i = j.
Proof.
  unfold release_th_key. intros H.
  apply (inj (String.append "release_th_")) in H.
  apply (inj pretty) in H. exact H.
Qed.

Lemma touch_release_keys_differ i j : touch_th_key i ≠ release_th_key j.
Proof. discriminate. Qed.

Lemma scalar_keys_differ k i :
  k ∈ scalar_keys → k ≠ touch_th_key i ∧ k ≠ release_th_key i.
Proof.
  unfold scalar_keys. rewrite !elem_of_cons, elem_of_nil.
  intros H. repeat (destruct H as [-> | H]; [split; discriminate |]).
  destruct H.
Qed.

(** The loop of [touch_config_save_to_nvs]: a key that is not an
    electrode's is left as it was, and each electrode of the loop gets
    its two keys. *)
Lemma save_loop_other c (l : list Z) :
  ∀ m k, (∀ i, k ≠ touch_th_key i ∧ k ≠ release_th_key i) →
         foldl (save_thresholds_body c) m l !! k = m !! k.
Proof.
  induction l as [| x l IH]; intros m k Hk; [reflexivity |].
  cbn [foldl]. rewrite IH by exact Hk. unfold save_thresholds_body.
  destruct (Hk x) as [Ht Hr].
  rewrite !lookup_insert_ne by congruence. reflexivity.
Qed.

Lemma save_loop_electrode c (l : list Z) :
  ∀ m i, i ∈ l →
         foldl (save_thresholds_body c) m l !! touch_th_key i
         = Some (NvsUChar (arr_get 0 (touch_threshold c) i)) ∧
         foldl (save_thresholds_body c) m l !! release_th_key i
         = Some (NvsUChar (arr_get 0 (release_threshold c) i)).
Proof.
  induction l as [| x l IH] using rev_ind; intros m i Hi; [inversion Hi |].
  rewrite foldl_app. cbn [foldl]. unfold save_thresholds_body at 1 3.
  destruct (Z.eq_dec i x) as [-> | Hne].
  - rewrite lookup_insert_ne by (symmetry; apply touch_release_keys_differ).
    rewrite !lookup_insert_eq. split; reflexivity.
  - apply elem_of_app in Hi. destruct Hi as [Hi | Hi];
      [| apply list_elem_of_singleton in Hi; contradiction].
    destruct (IH m i Hi) as [Ht Hr].
    rewrite !lookup_insert_ne;
      [split; assumption | ..];
      intros H;
      first [ apply touch_th_key_inj in H; congruence
            | apply release_th_key_inj in H; congruence
            | discriminate H ].
Qed.

(** The loop of [touch_config_load_from_nvs] writes the cells of its
    electrodes from their keys, with the defaults 8 and 4 for a missing
    key, and nothing else. *)
Lemma load_loop_spec m (l : list Z) :
  ∀ c, (∀ i, i ∈ l → 0 ≤ i < 12) → config_wf c →
       let c' := foldl (load_thresholds_body m) c l in
       config_wf c' ∧
       global_level c' = global_level c ∧
       custom_per_pad c' = custom_per_pad c ∧
       small_pad_compensation c' = small_pad_compensation c ∧
       debounce_count c' = debounce_count c ∧
       filter_config c' = filter_config c ∧
       auto_calibration c' = auto_calibration c ∧
       calibration_interval_ms c' = calibration_interval_ms c ∧
       ∀ j, 0 ≤ j →
            arr_get 0 (touch_threshold c') j
            = (if bool_decide (j ∈ l) then getUChar m (touch_th_key j) 8
               else arr_get 0 (touch_threshold c) j) ∧
            arr_get 0 (release_threshold c') j
            = (if bool_decide (j ∈ l) then getUChar m (release_th_key j) 4
               else arr_get 0 (release_threshold c) j).
Proof.
  induction l as [| x l IH] using rev_ind; intros c Hl Hwf.
  - cbn. repeat split; try apply Hwf.
  - rewrite foldl_app. cbn [foldl].
    destruct (IH c ltac:(intros i Hi; apply Hl, elem_of_app; left; exact Hi) Hwf)
      as (Hwf' & Hg & Hc & Hs & Hd & Hf & Ha & Hi' & Hcells).
    set (c1 := foldl (load_thresholds_body m) c l) in *. clearbody c1.
    assert (Hx : 0 ≤ x < 12)
      by (apply Hl, elem_of_app; right; apply list_elem_of_singleton; reflexivity).
    unfold load_thresholds_body.
    cbn [set_release_threshold set_touch_threshold global_level touch_threshold
         release_threshold custom_per_pad small_pad_compensation debounce_count
         filter_config auto_calibration calibration_interval_ms].
    split; [apply (set_thresholds_wf c1 x _ _ Hwf') |].
    repeat (split; [assumption |]).
    intros j Hj. destruct Hwf' as [Ht Hr].
    destruct (Z.eq_dec j x) as [-> | Hne].
    + rewrite !arr_get_set_eq by lia.
      rewrite bool_decide_eq_true_2
        by (apply elem_of_app; right; apply list_elem_of_singleton; reflexivity).
      split; reflexivity.
    + rewrite !arr_get_set_ne by lia. destruct (Hcells j Hj) as [-> ->].
      destruct (bool_decide (j ∈ l)) eqn:Hin.
      * apply bool_decide_eq_true_1 in Hin.
        rewrite bool_decide_eq_true_2 by (apply elem_of_app; left; exact Hin).
        split; reflexivity.
      * apply bool_decide_eq_false_1 in Hin.
        rewrite bool_decide_eq_false_2; [split; reflexivity |].
        intros H. apply elem_of_app in H. destruct H as [H | H]; [contradiction |].
        apply list_elem_of_singleton in H. contradiction.
Qed.

Lemma arr_get_ext (a b : list Z) :
  length a = 12%nat → length b = 12%nat →
  (∀ j, 0 ≤ j < 12 → arr_get 0 a j = arr_get 0 b j) → a = b.
Proof.
  intros Ha Hb H. apply (list_eq_same_length a b 12 Hb Ha).
  intros i x y Hi Hx Hy. specialize (H (Z.of_nat i) ltac:(lia)).
  unfold arr_get in H. rewrite Nat2Z.id, Hx, Hy in H. exact H.
Qed.

(** The profile a successful save leaves in the store is the one the
    loader reads out of it. *)
Lemma stored_profile_of_saved prefs c c0 :
  config_wf c → config_wf c0 → touch_config_validate c = true →
  ∃ m, touch_config_save_to_nvs true prefs c = (true, Some m) ∧
       stored_profile m c0 = c.
Proof.
  intros Hwf Hwf0 Hv. unfold touch_config_save_to_nvs. rewrite Hv. cbn [negb].
  eexists. split; [reflexivity |].
  set (m0 := default ∅ prefs). clearbody m0.
  set (m7 := <["cal_interval" := _]> _).
  set (M := foldl (save_thresholds_body c) m7 (seqZ 0 TOUCH_ELECTRODE_COUNT)).
  assert (Hscalar : ∀ k, k ∈ scalar_keys → M !! k = m7 !! k).
  { intros k Hk. apply save_loop_other. intros i. apply scalar_keys_differ, Hk. }
  assert (Hcell : ∀ i, 0 ≤ i < 12 →
            getUChar M (touch_th_key i) 8 = arr_get 0 (touch_threshold c) i ∧
            getUChar M (release_th_key i) 4 = arr_get 0 (release_threshold c) i).
  { intros i Hi. unfold getUChar.
    destruct (save_loop_electrode c (seqZ 0 TOUCH_ELECTRODE_COUNT) m7 i
                ltac:(apply elem_of_seqZ; unfold TOUCH_ELECTRODE_COUNT; lia))
      as [Ht Hr].
    fold M in Ht, Hr. rewrite Ht, Hr. split; reflexivity. }
  unfold stored_profile.
  match goal with
  | |- foldl _ ?init _ = _ =>
      destruct (load_loop_spec M (seqZ 0 TOUCH_ELECTRODE_COUNT) init
                  ltac:(intros i Hi; apply elem_of_seqZ in Hi;
                        unfold TOUCH_ELECTRODE_COUNT in Hi; lia) Hwf0)
        as (Hwf' & Hg & Hc & Hs & Hd & Hf & Ha & Hi & Hcells);
      set (sp := foldl (load_thresholds_body M) init
                       (seqZ 0 TOUCH_ELECTRODE_COUNT)) in *
  end.
  clearbody sp.
  cbn [global_level custom_per_pad small_pad_compensation debounce_count
       filter_config auto_calibration calibration_interval_ms]
    in Hg, Hc, Hs, Hd, Hf, Ha, Hi.
  assert (Hread : ∀ k, k ∈ scalar_keys → M !! k = m7 !! k) by exact Hscalar.
  unfold getUChar in Hg, Hd, Hf. unfold getBool in Hc, Hs, Ha.
  unfold getULong in Hi.
  rewrite Hread in Hg by (unfold scalar_keys; repeat constructor).
  rewrite Hread in Hc by (unfold scalar_keys; repeat constructor).
  rewrite Hread in Hs by (unfold scalar_keys; repeat constructor).
  rewrite Hread in Hd by (unfold scalar_keys; repeat constructor).
  rewrite Hread in Hf by (unfold scalar_keys; repeat constructor).
  rewrite Hread in Ha by (unfold scalar_keys; repeat constructor).
  rewrite Hread in Hi by (unfold scalar_keys; repeat constructor).
  unfold m7 in Hg, Hc, Hs, Hd, Hf, Ha, Hi.
  repeat (rewrite lookup_insert_ne in Hg by discriminate).
  repeat (rewrite lookup_insert_ne in Hc by discriminate).
  repeat (rewrite lookup_insert_ne in Hs by discriminate).
  repeat (rewrite lookup_insert_ne in Hd by discriminate).
  repeat (rewrite lookup_insert_ne in Hf by discriminate).
  repeat (rewrite lookup_insert_ne in Ha by discriminate).
  rewrite lookup_insert_eq in Hg, Hc, Hs, Hd, Hf, Ha, Hi.
  assert (Htt : touch_threshold sp = touch_threshold c).
  { apply arr_get_ext; [apply Hwf' | apply Hwf |].
    intros j Hj. destruct (Hcells j ltac:(lia)) as [-> _].
    rewrite bool_decide_eq_true_2
      by (apply elem_of_seqZ; unfold TOUCH_ELECTRODE_COUNT; lia).
    apply Hcell, Hj. }
  assert (Hrt : release_threshold sp = release_threshold c).
  { apply arr_get_ext; [apply Hwf' | apply Hwf |].
    intros j Hj. destruct (Hcells j ltac:(lia)) as [_ ->].
    rewrite bool_decide_eq_true_2
      by (apply elem_of_seqZ; unfold TOUCH_ELECTRODE_COUNT; lia).
    apply Hcell, Hj. }
  destruct sp, c.
  cbn [global_level touch_threshold release_threshold custom_per_pad
       small_pad_compensation debounce_count filter_config auto_calibration
       calibration_interval_ms] in *.
  congruence.
Qed.

(** X4.  Save and load round trip.  [touch_config_save_to_nvs] writes
    nothing when the profile fails validation or the namespace does not
    open for writing; a profile it does save is the one
    [touch_config_load_from_nvs] then returns, with [true], whatever the
    store and the target of the load held before. *)
Theorem save_then_load_round_trip writable prefs c c0 :
  config_wf c → config_wf c0 →
  (touch_config_validate c = false ∨ writable = false →
   touch_config_save_to_nvs writable prefs c = (false, prefs)) ∧
  (touch_config_validate c = true →
   fst (touch_config_save_to_nvs true prefs c) = true ∧
   touch_config_load_from_nvs (snd (touch_config_save_to_nvs true prefs c)) c0
   = (true, c)).
Proof.
  intros Hwf Hwf0. split.
  - unfold touch_config_save_to_nvs.
    destruct (touch_config_validate c); [| reflexivity].
    intros [H | ->]; [discriminate | reflexivity].
  - intros Hv.
    destruct (stored_profile_of_saved prefs c c0 Hwf Hwf0 Hv) as (m & Hsave & Hsp).
    rewrite Hsave. cbn [fst snd]. split; [reflexivity |].
    unfold touch_config_load_from_nvs. fold (stored_profile m c0).
    rewrite Hsp, Hv. reflexivity.
Qed.

Lemma save_then_load_round_trip_witness :
  touch_config_save_to_nvs true None zeroed_config = (false, None) ∧
  touch_config_load_from_nvs
    (snd (touch_config_save_to_nvs true None custom_profile)) zeroed_config
  = (true, custom_profile).
Proof.
  split.
  - apply (save_then_load_round_trip true None zeroed_config zeroed_config);
      [split; reflexivity | split; reflexivity | left; reflexivity].
  - apply (save_then_load_round_trip true None custom_profile zeroed_config);
      [split; reflexivity | split; reflexivity | reflexivity].
Defined.

(** Split the arrays of the profile [c], well-formed by [H], into cells. *)
Ltac profile_cells c H :=
  let tt := fresh "tt" in
  let rt := fresh "rt" in
  let Ht := fresh "Ht" in
  let Hr := fresh "Hr" in
  destruct c as [? tt rt ? ? ? ? ? ?];
  destruct H as [Ht Hr];
  simpl in Ht, Hr;
  do 12 (destruct tt as [| ? tt]; [discriminate Ht |]);
  (destruct tt; [| discriminate Ht]);
  do 12 (destruct rt as [| ? rt]; [discriminate Hr |]);
  (destruct rt; [| discriminate Hr]);
  clear Ht Hr.

(** X5.  [touch_config_load_from_nvs] on a namespace that opened never
    leaves an invalid profile.  Its result flag tells whether the stored
    record validates: with [true] the profile is the stored record, with
    [false] it is the factory profile, whatever the target held. *)
Theorem load_from_nvs_validates_or_defaults m c :
  config_wf c →
  let r := touch_config_load_from_nvs (Some m) c in
  touch_config_validate (snd r) = true ∧
  fst r = touch_config_validate (stored_profile m c) ∧
  (fst r = true → snd r = stored_profile m c) ∧
  (fst r = false → snd r = TOUCH_CONFIG_DEFAULT).
Proof.
  intros Hwf. cbv zeta.
  destruct (load_from_nvs_opened m c Hwf) as (Hvalid & Hgood & Hbad).
  cbv zeta in Hgood, Hbad. split; [exact Hvalid |].
  destruct (touch_config_validate (stored_profile m c)) eqn:Hv.
  - rewrite (Hgood eq_refl). cbn [fst snd].
    split; [reflexivity |]. split; [reflexivity | discriminate].
  - rewrite (Hbad eq_refl). cbn [fst snd].
    split; [reflexivity |]. split; [discriminate | reflexivity].
Qed.

Lemma load_from_nvs_validates_or_defaults_witness :
  touch_config_load_from_nvs (Some {["global_level" := NvsUChar 9]}) zeroed_config
  = (false, TOUCH_CONFIG_DEFAULT).
Proof.
  destruct (load_from_nvs_validates_or_defaults {["global_level" := NvsUChar 9]}
              zeroed_config)
    as (_ & Hflag & _ & Hbad); [split; reflexivity |].
  assert (Hfst : fst (touch_config_load_from_nvs
                        (Some {["global_level" := NvsUChar 9]}) zeroed_config)
                 = false) by (rewrite Hflag; vm_compute; reflexivity).
  specialize (Hbad Hfst).
  destruct (touch_config_load_from_nvs (Some {["global_level" := NvsUChar 9]})
              zeroed_config) as [ok c'].
  cbn [fst snd] in Hfst, Hbad. rewrite Hfst, Hbad. reflexivity.
Defined.

(** X6.  Every field the loader reads comes from its own key, or from the
    getter's default when the key is missing or holds a value of another
    type: the level, the two flags of the pads, the debounce count, the
    filter configuration, the auto-calibration flag and its interval
    (lines 166 to 172), and the two thresholds of every electrode (the
    loop).  The defaults are level 3, no per-pad thresholds, small-pad
    compensation on, debounce count 2, filter configuration 4,
    auto-calibration on every 30000 ms, and 8 and 4 for an electrode's
    thresholds (also for the small pad, whose factory values are 6
    and 3). *)
Theorem load_reads_key_or_default m c i :
  config_wf c → 0 ≤ i < 12 →
  let p := stored_profile m c in
  (global_level p = getUChar m "global_level" 3 ∧
   custom_per_pad p = getBool m "custom_per_pad" false ∧
   small_pad_compensation p = getBool m "small_pad_comp" true ∧
   debounce_count p = getUChar m "debounce_count" 2 ∧
   filter_config p = getUChar m "filter_config" 4 ∧
   auto_calibration p = getBool m "auto_cal" true ∧
   calibration_interval_ms p = getULong m "cal_interval" 30000 ∧
   arr_get 0 (touch_threshold p) i = getUChar m (touch_th_key i) 8 ∧
   arr_get 0 (release_threshold p) i = getUChar m (release_th_key i) 4) ∧
  ((m !! ("global_level"%string) = None → global_level p = 3) ∧
   (m !! ("custom_per_pad"%string) = None → custom_per_pad p = false) ∧
   (m !! ("small_pad_comp"%string) = None → small_pad_compensation p = true) ∧
   (m !! ("debounce_count"%string) = None → debounce_count p = 2) ∧
   (m !! ("filter_config"%string) = None → filter_config p = 4) ∧
   (m !! ("auto_cal"%string) = None → auto_calibration p = true) ∧
   (m !! ("cal_interval"%string) = None → calibration_interval_ms p = 30000) ∧
   (m !! touch_th_key i = None → arr_get 0 (touch_threshold p) i = 8) ∧
   (m !! release_th_key i = None → arr_get 0 (release_threshold p) i = 4)) ∧
  (∀ key d, (∀ v, m !! key ≠ Some (NvsUChar v)) → getUChar m key d = d) ∧
  (∀ key d, (∀ v, m !! key ≠ Some (NvsBool v)) → getBool m key d = d) ∧
  (∀ key d, (∀ v, m !! key ≠ Some (NvsULong v)) → getULong m key d = d).
Proof.
  intros Hwf Hi. cbv zeta. unfold stored_profile.
  match goal with
  | |- context [foldl _ ?init _] =>
      destruct (load_loop_spec m (seqZ 0 TOUCH_ELECTRODE_COUNT) init
                  ltac:(intros j Hj; apply elem_of_seqZ in Hj;
                        unfold TOUCH_ELECTRODE_COUNT in Hj; lia) Hwf)
        as (_ & Hg & Hc & Hs & Hd & Hf & Ha & Hcal & Hcells)
  end.
  destruct (Hcells i ltac:(lia)) as [Ht Hr].
  rewrite bool_decide_eq_true_2 in Ht, Hr
    by (apply elem_of_seqZ; unfold TOUCH_ELECTRODE_COUNT; lia).
  rewrite Ht, Hr, Hg, Hc, Hs, Hd, Hf, Ha, Hcal.
  cbn [global_level custom_per_pad small_pad_compensation debounce_count
       filter_config auto_calibration calibration_interval_ms].
  unfold TOUCH_SENSITIVITY_DEFAULT.
  split; [repeat split |].
  split.
  { repeat split; intros Hnone; unfold getUChar, getBool, getULong;
      rewrite Hnone; reflexivity. }
  split; [| split]; intros key d Hother; unfold getUChar, getBool, getULong;
    destruct (m !! key) as [[v | v | v] |] eqn:Hkey; try reflexivity;
    exfalso; apply (Hother v); reflexivity.
Qed.

Lemma load_reads_key_or_default_witness :
  arr_get 0 (touch_threshold (stored_profile ∅ TOUCH_CONFIG_DEFAULT)) 11 = 8 ∧
  calibration_interval_ms (stored_profile ∅ TOUCH_CONFIG_DEFAULT) = 30000.
Proof.
  destruct (load_reads_key_or_default ∅ TOUCH_CONFIG_DEFAULT 11)
    as (_ & Hmissing & _); [split; reflexivity | lia |].
  destruct Hmissing as (_ & _ & _ & _ & _ & _ & Hcal & Hth & _).
  split; [apply Hth | apply Hcal]; reflexivity.
Defined.

(** X7.  [touch_config_apply_small_pad_compensation] turns the flag on and
    reapplies the current level to every electrode, hand-set thresholds
    included; when the stored level is outside 1..5 the reapplication
    fails silently and only the flag changes. *)
Theorem apply_small_pad_compensation_effect c i :
  config_wf c → 0 ≤ i < 12 →
  let c' := touch_config_apply_small_pad_compensation c in
  small_pad_compensation c' = true ∧
  (1 ≤ global_level c ≤ 5 →
   touch_config_validate c' = true ∧
   (arr_get 0 (touch_threshold c') i, arr_get 0 (release_threshold c') i)
   = arr_get (0, 0) (if i =? 11 then small_pad_levels else sensitivity_levels)
             (global_level c - 1)) ∧
  (global_level c < 1 ∨ 5 < global_level c →
   c' = set_small_pad_compensation c true).
Proof.
  intros Hwf Hi. cbv zeta. unfold touch_config_apply_small_pad_compensation.
  cbv zeta. cbn [set_small_pad_compensation global_level].
  split; [| split].
  - unfold touch_config_set_sensitivity_level.
    destruct (_ || _); [reflexivity |]. cbn [snd].
    apply (foldl_invariant (λ c, small_pad_compensation c = true)); [reflexivity |].
    intros a x Ha. unfold set_level_body. destruct (_ && _); exact Ha.
  - intros Hl.
    assert (Hlev : global_level c = 1 ∨ global_level c = 2 ∨ global_level c = 3
                   ∨ global_level c = 4 ∨ global_level c = 5) by lia.
    clear Hl. profile_cells c Hwf. simpl in Hlev.
    repeat (destruct Hlev as [Hlev | Hlev]; [subst |]);
      try subst; small_index i; split; reflexivity.
  - intros Hl. unfold touch_config_set_sensitivity_level,
      TOUCH_SENSITIVITY_MIN, TOUCH_SENSITIVITY_MAX.
    replace ((global_level c <? 1) || (global_level c >? 5)) with true;
      [reflexivity |].
    symmetry. apply orb_true_iff. lia.
Qed.

Lemma apply_small_pad_compensation_effect_witness :
  (arr_get 0 (touch_threshold
                (touch_config_apply_small_pad_compensation custom_profile)) 0,
   arr_get 0 (release_threshold
                (touch_config_apply_small_pad_compensation custom_profile)) 0)
  = (8, 4) ∧
  touch_config_apply_small_pad_compensation zeroed_config
  = set_small_pad_compensation zeroed_config true.
Proof.
  split.
  - apply (apply_small_pad_compensation_effect custom_profile 0);
      [split; reflexivity | lia
      | change (global_level custom_profile) with 3; lia].
  - apply (apply_small_pad_compensation_effect zeroed_config 0);
      [split; reflexivity | lia
      | left; change (global_level zeroed_config) with 0; lia].
Defined.

(** ** The hardware interface of the sensitivity manager *)

Lemma apply_loop_thresholds c (regs : list (Z * Z)) :
  config_wf c → length regs = 12%nat →
  foldl (apply_threshold_body c) regs (seqZ 0 TOUCH_ELECTRODE_COUNT)
  = profile_thresholds c.
Proof.
  intros Hwf Hlen. profile_cells c Hwf.
  do 12 (destruct regs as [| ? regs]; [discriminate Hlen |]).
  destruct regs; [| discriminate Hlen]. reflexivity.
Qed.

(** X8.  [touch_sensitivity_manager_apply_config] is all or nothing: a
    profile that fails validation leaves the controller untouched, a valid
    one puts the touch and release threshold of every electrode into the
    controller and changes nothing else. *)
Theorem apply_config_all_or_nothing m :
  manager_wf m →
  (touch_config_validate (g_touch_config m) = false →
   touch_sensitivity_manager_apply_config m = (false, m)) ∧
  (touch_config_validate (g_touch_config m) = true →
   touch_sensitivity_manager_apply_config m
   = (true, set_manager_mpr121 m (profile_thresholds (g_touch_config m)))).
Proof.
  intros (Hwf & _ & Hregs). unfold touch_sensitivity_manager_apply_config.
  split; intros ->; cbn [negb]; [reflexivity |].
  rewrite (apply_loop_thresholds _ _ Hwf Hregs). reflexivity.
Qed.

Lemma apply_config_all_or_nothing_witness :
  touch_sensitivity_manager_apply_config zeroed_manager = (false, zeroed_manager) ∧
  g_mpr121 (snd (touch_sensitivity_manager_apply_config
                   (set_manager_config zeroed_manager TOUCH_CONFIG_DEFAULT)))
  = [(8, 4); (8, 4); (8, 4); (8, 4); (8, 4); (8, 4); (8, 4); (8, 4); (8, 4);
     (8, 4); (8, 4); (6, 3)].
Proof.
  split.
  - apply (apply_config_all_or_nothing zeroed_manager);
      [repeat split | reflexivity].
  - destruct (apply_config_all_or_nothing
                (set_manager_config zeroed_manager TOUCH_CONFIG_DEFAULT))
      as [_ Hvalid]; [repeat split |].
    rewrite Hvalid; reflexivity.
Defined.

Lemma apply_config_valid m :
  manager_wf m → touch_config_validate (g_touch_config m) = true →
  touch_sensitivity_manager_apply_config m
  = (true, set_manager_mpr121 m (profile_thresholds (g_touch_config m))).
Proof.
  intros (Hwf & _ & Hregs) Hv. unfold touch_sensitivity_manager_apply_config.
  rewrite Hv. cbn [negb].
  rewrite (apply_loop_thresholds _ _ Hwf Hregs). reflexivity.
Qed.

Lemma wheel_config_init_defaults_header wc :
  length (electrode_order wc) = 12%nat →
  touch_wheel_config_init_defaults wc = TOUCH_WHEEL_CONFIG_DEFAULT.
Proof.
  intros Hlen. destruct wc as [o ? ? ? ? ?]. simpl in Hlen.
  do 12 (destruct o as [| ? o]; [discriminate Hlen |]).
  destruct o; [| discriminate Hlen]. reflexivity.
Qed.

Lemma profile_thresholds_length c :
  config_wf c → length (profile_thresholds c) = 12%nat.
Proof.
  intros [Ht Hr]. unfold profile_thresholds. rewrite length_zip_with. lia.
Qed.

(** The loader keeps the arrays at their size, and a profile it reports
    as loaded validates. *)
Lemma load_from_nvs_wf prefs c :
  config_wf c →
  config_wf (snd (touch_config_load_from_nvs prefs c)) ∧
  (fst (touch_config_load_from_nvs prefs c) = true →
   touch_config_validate (snd (touch_config_load_from_nvs prefs c)) = true).
Proof.
  intros Hwf. destruct prefs as [m |]; [| split; [exact Hwf | discriminate]].
  unfold touch_config_load_from_nvs. fold (stored_profile m c).
  destruct (touch_config_validate (stored_profile m c)) eqn:Hv; cbn [negb fst snd].
  - split; [apply stored_profile_wf, Hwf | intros _; exact Hv].
  - split; [| discriminate].
    rewrite init_defaults_factory by apply stored_profile_wf, Hwf.
    split; reflexivity.
Qed.

Lemma saved_profile_loads prefs c c0 :
  config_wf c → config_wf c0 → touch_config_validate c = true →
  touch_config_load_from_nvs (snd (touch_config_save_to_nvs true prefs c)) c0
  = (true, c).
Proof.
  intros Hwf Hwf0 Hv.
  destruct (stored_profile_of_saved prefs c c0 Hwf Hwf0 Hv) as (m & Hsave & Hsp).
  rewrite Hsave. cbn [snd].
  unfold touch_config_load_from_nvs. fold (stored_profile m c0).
  rewrite Hsp, Hv. reflexivity.
Qed.


(** X9.  [touch_sensitivity_manager_init] does nothing when the controller
    is not found.  When it is found, whatever the store holds (missing,
    unreadable or invalid included) and whatever the globals held, the
    profile afterwards passes validation, the controller holds exactly its
    thresholds and the wheel configuration is the default one; when
    nothing could be loaded the profile is the factory one, and if the
    store is writable it then holds that profile. *)
Theorem manager_init_leaves_valid_profile found writable m :
  manager_wf m →
  (found = false →
   touch_sensitivity_manager_init found writable m = (false, m)) ∧
  (found = true →
   let r := touch_sensitivity_manager_init found writable m in
   fst r = true ∧
   touch_config_validate (g_touch_config (snd r)) = true ∧
   g_mpr121 (snd r) = profile_thresholds (g_touch_config (snd r)) ∧
   g_wheel_config (snd r) = TOUCH_WHEEL_CONFIG_DEFAULT ∧
   (fst (touch_config_load_from_nvs (g_preferences m) (g_touch_config m)) = false →
    g_touch_config (snd r) = TOUCH_CONFIG_DEFAULT ∧
    (writable = true →
     ∀ c0, config_wf c0 →
           touch_config_load_from_nvs (g_preferences (snd r)) c0
           = (true, TOUCH_CONFIG_DEFAULT)))).
Proof.
  intros (Hwf & Hwheel & Hregs). split; [intros ->; reflexivity |].
  intros ->. cbv zeta. unfold touch_sensitivity_manager_init. cbn [negb].
  destruct (load_from_nvs_wf (g_preferences m) (g_touch_config m) Hwf)
    as [Hlwf Hlvalid].
  set (loaded := touch_config_load_from_nvs (g_preferences m) (g_touch_config m)) in *.
  clearbody loaded. destruct loaded as [ok c1]. cbn [fst snd] in *.
  destruct ok; cbn [negb].
  - cbn [set_manager_config set_manager_wheel g_wheel_config g_touch_config].
    rewrite (wheel_config_init_defaults_header _ Hwheel).
    specialize (Hlvalid eq_refl).
    rewrite apply_config_valid by (repeat split; try apply Hlwf; assumption).
    cbn [fst snd set_manager_mpr121 g_touch_config g_mpr121 g_wheel_config
         g_preferences].
    split; [reflexivity |]. split; [exact Hlvalid |]. split; [reflexivity |].
    split; [reflexivity |]. discriminate.
  - cbn [set_manager_config set_manager_preferences set_manager_wheel
         g_wheel_config g_touch_config g_preferences].
    rewrite (init_defaults_factory c1 Hlwf).
    rewrite (wheel_config_init_defaults_header _ Hwheel).
    rewrite apply_config_valid by (repeat split; assumption).
    cbn [fst snd set_manager_mpr121 g_touch_config g_mpr121 g_wheel_config
         g_preferences].
    split; [reflexivity |]. split; [reflexivity |]. split; [reflexivity |].
    split; [reflexivity |]. intros _. split; [reflexivity |].
    intros -> c0 Hc0. cbn [set_manager_config g_preferences g_touch_config].
    apply saved_profile_loads; [split; reflexivity | exact Hc0 | reflexivity].
Qed.

Lemma set_sensitivity_level_accepted c level :
  config_wf c → 1 ≤ level ≤ 5 →
  fst (touch_config_set_sensitivity_level c level) = true ∧
  touch_config_validate (snd (touch_config_set_sensitivity_level c level)) = true.
Proof.
  intros Hwf Hl. config_cells c.
  assert (Hlev : level = 1 ∨ level = 2 ∨ level = 3 ∨ level = 4 ∨ level = 5) by lia.
  repeat match goal with b : bool |- _ => destruct b end;
    repeat (destruct Hlev as [Hlev | Hlev]; [subst level |]); try subst level;
    split; reflexivity.
Qed.

(** X10.  [touch_sensitivity_manager_set_level] changes nothing (profile,
    controller, store) when the level is outside 1..5.  An accepted level
    leaves the profile that [touch_config_set_sensitivity_level] computes,
    the controller holding exactly its thresholds, the wheel configuration
    as it was, and, when the store is writable, a stored record that loads
    back as that profile; when it is not writable the store is unchanged. *)
Theorem manager_set_level_syncs_hardware_and_store writable m level :
  manager_wf m →
  (level < 1 ∨ 5 < level →
   touch_sensitivity_manager_set_level writable m level = (false, m)) ∧
  (1 ≤ level ≤ 5 →
   let r := touch_sensitivity_manager_set_level writable m level in
   fst r = true ∧
   g_touch_config (snd r)
   = snd (touch_config_set_sensitivity_level (g_touch_config m) level) ∧
   g_mpr121 (snd r) = profile_thresholds (g_touch_config (snd r)) ∧
   g_wheel_config (snd r) = g_wheel_config m ∧
   (writable = true →
    ∀ c0, config_wf c0 →
          touch_config_load_from_nvs (g_preferences (snd r)) c0
          = (true, g_touch_config (snd r))) ∧
   (writable = false → g_preferences (snd r) = g_preferences m)).
Proof.
  intros (Hwf & Hwheel & Hregs). split.
  - intros Hl. unfold touch_sensitivity_manager_set_level,
      touch_config_set_sensitivity_level, TOUCH_SENSITIVITY_MIN,
      TOUCH_SENSITIVITY_MAX.
    replace ((level <? 1) || (level >? 5)) with true; [reflexivity |].
    symmetry. apply orb_true_iff. lia.
  - intros Hl. cbv zeta. unfold touch_sensitivity_manager_set_level.
    destruct (set_sensitivity_level_accepted (g_touch_config m) level Hwf Hl)
      as [Hok Hvalid].
    pose proof (set_sensitivity_level_wf (g_touch_config m) level Hwf) as Hwf'.
    set (r := touch_config_set_sensitivity_level (g_touch_config m) level) in *.
    clearbody r. destruct r as [ok c']. cbn [fst snd] in *. subst ok.
    cbn [negb].
    rewrite apply_config_valid by (repeat split; try apply Hwf'; assumption).
    cbn [fst snd set_manager_config set_manager_mpr121 set_manager_preferences
         g_touch_config g_mpr121 g_wheel_config g_preferences].
    split; [reflexivity |]. split; [reflexivity |]. split; [reflexivity |].
    split; [reflexivity |]. split.
    + intros -> c0 Hc0. apply saved_profile_loads; assumption.
    + intros ->. unfold touch_config_save_to_nvs. rewrite Hvalid. reflexivity.
Qed.

Lemma manager_set_level_syncs_hardware_and_store_witness :
  touch_sensitivity_manager_set_level true zeroed_manager 0
  = (false, zeroed_manager) ∧
  g_mpr121 (snd (touch_sensitivity_manager_set_level true zeroed_manager 1))
  = profile_thresholds
      (g_touch_config (snd (touch_sensitivity_manager_set_level true zeroed_manager 1))).
Proof.
  split.
  - apply (manager_set_level_syncs_hardware_and_store true zeroed_manager 0);
      [repeat split | lia].
  - destruct (manager_set_level_syncs_hardware_and_store true zeroed_manager 1)
      as [_ H]; [repeat split |].
    destruct (H ltac:(lia)) as (_ & _ & Hsync & _). exact Hsync.
Defined.

Lemma profile_thresholds_set c i t r :
  profile_thresholds
    (set_custom_per_pad (set_release_threshold (set_touch_threshold c i t) i r) true)
  = arr_set (profile_thresholds c) i (t, r).
Proof.
  unfold profile_thresholds, arr_set. destruct c. cbn. unfold zip, arr_set.
  symmetry. apply insert_zip_with.
Qed.

(** X11.  [touch_sensitivity_manager_set_electrode_threshold] changes nothing
    when it returns false.  When it returns true the electrode is below 12
    and the pair has release below touch, both non-zero; the controller
    channel of that electrode holds the pair and the other channels are as
    before, so a controller that held the profile's thresholds still does;
    the store is written only if the whole new profile validates: then,
    if writable, it loads back as the new profile, otherwise it is
    unchanged although the controller has changed. *)
Theorem manager_set_electrode_threshold_effect writable m e t r :
  manager_wf m → 0 ≤ e →
  let res := touch_sensitivity_manager_set_electrode_threshold writable m e t r in
  (fst res = false → snd res = m) ∧
  (fst res = true →
   e < 12 ∧ t ≠ 0 ∧ r ≠ 0 ∧ r < t ∧
   arr_get (0, 0) (g_mpr121 (snd res)) e = (t, r) ∧
   (∀ j, 0 ≤ j → j ≠ e →
         arr_get (0, 0) (g_mpr121 (snd res)) j = arr_get (0, 0) (g_mpr121 m) j) ∧
   (g_mpr121 m = profile_thresholds (g_touch_config m) →
    g_mpr121 (snd res) = profile_thresholds (g_touch_config (snd res))) ∧
   (touch_config_validate (g_touch_config (snd res)) = false →
    g_preferences (snd res) = g_preferences m) ∧
   (touch_config_validate (g_touch_config (snd res)) = true → writable = true →
    ∀ c0, config_wf c0 →
          touch_config_load_from_nvs (g_preferences (snd res)) c0
          = (true, g_touch_config (snd res)))).
Proof.
  intros (Hwf & Hwheel & Hregs) He. cbv zeta.
  unfold touch_sensitivity_manager_set_electrode_threshold,
    touch_config_set_electrode_threshold, TOUCH_ELECTRODE_COUNT.
  destruct (e >=? 12) eqn:Hge; [split; [reflexivity | discriminate] |].
  destruct ((t =? 0) || (r =? 0) || (t <=? r)) eqn:Hbad;
    [split; [reflexivity | discriminate] |].
  rewrite !orb_false_iff in Hbad.
  cbn [fst snd negb set_manager_config set_manager_mpr121 set_manager_preferences
       g_touch_config g_mpr121 g_wheel_config g_preferences].
  split; [discriminate |]. intros _.
  split; [lia |]. split; [lia |]. split; [lia |]. split; [lia |].
  split; [apply arr_get_set_eq; lia |].
  split; [intros j Hj Hne; apply arr_get_set_ne; lia |].
  split; [intros ->; symmetry; apply profile_thresholds_set |].
  split.
  - intros Hinv. unfold touch_config_save_to_nvs. rewrite Hinv. reflexivity.
  - intros Hv -> c0 Hc0. apply saved_profile_loads; [| exact Hc0 | exact Hv].
    destruct Hwf as [Ht Hr]. split; cbn; rewrite arr_set_length; assumption.
Qed.

Lemma manager_set_electrode_threshold_effect_witness :
  snd (touch_sensitivity_manager_set_electrode_threshold true zeroed_manager 12 8 4)
  = zeroed_manager ∧
  arr_get (0, 0)
    (g_mpr121 (snd (touch_sensitivity_manager_set_electrode_threshold true
                      zeroed_manager 3 8 4))) 3 = (8, 4) ∧
  g_preferences (snd (touch_sensitivity_manager_set_electrode_threshold true
                        zeroed_manager 3 8 4))
  = g_preferences zeroed_manager.
Proof.
  split; [| split].
  - destruct (manager_set_electrode_threshold_effect true zeroed_manager 12 8 4)
      as [H _]; [repeat split | lia |]. apply H. reflexivity.
  - destruct (manager_set_electrode_threshold_effect true zeroed_manager 3 8 4)
      as [_ H]; [repeat split | lia |].
    destruct (H eq_refl) as (_ & _ & _ & _ & Hcell & _). exact Hcell.
  - destruct (manager_set_electrode_threshold_effect true zeroed_manager 3 8 4)
      as [_ H]; [repeat split | lia |].
    destruct (H eq_refl) as (_ & _ & _ & _ & _ & _ & _ & Hstore & _).
    apply Hstore. reflexivity.
Defined.

Lemma manager_init_leaves_valid_profile_witness :
  touch_sensitivity_manager_init false true zeroed_manager = (false, zeroed_manager) ∧
  g_touch_config (snd (touch_sensitivity_manager_init true true zeroed_manager))
  = TOUCH_CONFIG_DEFAULT.
Proof.
  split.
  - destruct (manager_init_leaves_valid_profile false true zeroed_manager)
      as [H _]; [repeat split |]. apply H. reflexivity.
  - destruct (manager_init_leaves_valid_profile true true zeroed_manager)
      as [_ H]; [repeat split |].
    destruct (H eq_refl) as (_ & _ & _ & _ & Hdef).
    destruct Hdef as [Hdef _]; [reflexivity | exact Hdef].
Defined.

(** ** Centre-of-mass sums in closed form *)

Lemma sumZ_snoc l x : sumZ (l ++ [x]) = sumZ l + x.
Proof.
  unfold sumZ. induction l as [| y l IH]; cbn [foldr app]; [lia |].
  rewrite IH. lia.
Qed.

Lemma max_list_snoc l x :
  0 ≤ x → foldr Z.max 0 (l ++ [x]) = Z.max (foldr Z.max 0 l) x.
Proof.
  intros Hx. induction l as [| y l IH]; cbn [foldr app]; [lia |].
  rewrite IH. lia.
Qed.

Lemma max_list_nonneg l : 0 ≤ foldr Z.max 0 l.
Proof. induction l as [| y l IH]; cbn [foldr]; lia. Qed.

Lemma max_list_reaches l v :
  0 < v → (v ≤ foldr Z.max 0 l ↔ ∃ x, x ∈ l ∧ v ≤ x).
Proof.
  intros Hv. induction l as [| y l IH]; cbn [foldr].
  - split; [lia |]. intros (x & Hx & _). inversion Hx.
  - split.
    + intros H. destruct (Z.le_gt_cases v y) as [Hy | Hy].
      * exists y. split; [apply list_elem_of_here | exact Hy].
      * destruct (proj1 IH ltac:(lia)) as (x & Hx & Hle).
        exists x. split; [apply list_elem_of_further, Hx | exact Hle].
    + intros (x & Hx & Hle). apply elem_of_cons in Hx.
      destruct Hx as [-> | Hx]; [lia |].
      assert (v ≤ foldr Z.max 0 l) by (apply IH; exists x; split; assumption).
      lia.
Qed.

Lemma com_add_of t i x :
  0 < x → com_add (com_of t) i x = com_of (t ++ [(i, x)]).
Proof.
  intros Hx. unfold com_add, com_of. cbn [terms totalMag maxStrength].
  rewrite fmap_app. cbn [fmap list_fmap snd].
  rewrite sumZ_snoc, max_list_snoc by lia. f_equal.
  destruct (x >? foldr Z.max 0 t.*2) eqn:Hgt; lia.
Qed.

(** A loop that adds the slots passing a floor computes the sums of the
    list of those slots. *)
Lemma com_loop_closed (f : Z → Z) (floor : Z) (body : com_sums → Z → com_sums)
    (l : list Z) :
  0 < floor →
  (∀ s i, body s i = if floor <=? f i then com_add s i (f i) else s) →
  ∀ t, foldl body (com_of t) l
       = com_of (t ++ omap (λ i, if floor <=? f i then Some (i, f i) else None) l).
Proof.
  intros Hfloor Hbody. induction l as [| i l IH]; intros t.
  - cbn. rewrite app_nil_r. reflexivity.
  - cbn [foldl omap list_omap]. rewrite Hbody.
    destruct (floor <=? f i) eqn:Hi.
    + rewrite com_add_of by lia. rewrite IH, <- app_assoc. reflexivity.
    + apply IH.
Qed.

Lemma com_baseline_body_floor w hw s i :
  com_baseline_body w hw s i
  = if 1 <=? baseline_strength w hw i
    then com_add s i (baseline_strength w hw i) else s.
Proof.
  unfold com_baseline_body, baseline_strength. cbv zeta.
  set (d := u16 _ - u16 _).
  destruct (2 * d <? 1) eqn:H1, (1 <=? d) eqn:H2; try lia.
  - reflexivity.
  - replace (d >? 0) with true by (symmetry; lia). reflexivity.
Qed.

Lemma com_fallback_body_floor w hw s i :
  com_fallback_body w hw s i
  = if 2 <=? fallback_strength w hw i
    then com_add s i (fallback_strength w hw i) else s.
Proof.
  unfold com_fallback_body, fallback_strength. cbv zeta.
  set (d := 32 - u16 _).
  destruct (2 <=? d) eqn:H2.
  - rewrite (Z.max_r 0 d) by lia.
    replace (d >? 1) with true by (symmetry; lia). reflexivity.
  - replace (Z.max 0 d >? 1) with false by (symmetry; lia). reflexivity.
Qed.

Lemma slots_above_elem f floor count i x :
  (i, x) ∈ slots_above f floor count ↔ 0 ≤ i < count ∧ floor ≤ f i ∧ x = f i.
Proof.
  unfold slots_above. rewrite list_elem_of_omap. split.
  - intros (j & Hj & Hsome). apply elem_of_seqZ in Hj.
    destruct (floor <=? f j) eqn:Hf; [| discriminate].
    injection Hsome as <- <-. repeat split; lia.
  - intros (Hi & Hf & ->). exists i. split; [apply elem_of_seqZ; lia |].
    replace (floor <=? f i) with true by (symmetry; lia). reflexivity.
Qed.

Lemma slots_above_sum_pos f floor count :
  0 < floor → slots_above f floor count ≠ [] →
  0 < sumZ (slots_above f floor count).*2.
Proof.
  intros Hfloor. unfold slots_above.
  generalize (seqZ 0 count) as l.
  assert (Hnn : ∀ l, 0 ≤ sumZ (omap (λ i, if floor <=? f i then Some (i, f i)
                                          else None) l).*2).
  { induction l as [| i l IH]; [cbn; lia |].
    cbn [omap list_omap]. destruct (floor <=? f i) eqn:Hi; [| exact IH].
    cbn [fmap list_fmap snd]. rewrite sumZ_cons. lia. }
  induction l as [| i l IH]; [intros H; exfalso; apply H; reflexivity |].
  cbn [omap list_omap]. destruct (floor <=? f i) eqn:Hi; [| exact IH].
  intros _. cbn [fmap list_fmap snd]. rewrite sumZ_cons.
  specialize (Hnn l). lia.
Qed.

Lemma com_estimate_is_com_of w hw :
  com_estimate w hw = com_of (com_terms w hw).
Proof.
  unfold com_estimate, com_terms. change com_empty with (com_of []).
  rewrite (com_loop_closed (baseline_strength w hw) 1) by
    (lia || apply com_baseline_body_floor).
  cbn [app]. fold (slots_above (baseline_strength w hw) 1 (s_orderCount w)).
  destruct (slots_above (baseline_strength w hw) 1 (s_orderCount w)) as [| t b] eqn:Hb.
  - change (totalMag (com_of []) <=? 0) with true. cbv iota.
    rewrite (com_loop_closed (fallback_strength w hw) 2) by
      (lia || apply com_fallback_body_floor).
    reflexivity.
  - pose proof (slots_above_sum_pos (baseline_strength w hw) 1 (s_orderCount w)
                  ltac:(lia)) as Hpos.
    rewrite Hb in Hpos. specialize (Hpos ltac:(discriminate)).
    cbn [totalMag com_of].
    replace (sumZ (t :: b).*2 <=? 0) with false by (symmetry; lia).
    reflexivity.
Qed.

(** X12.  The two loops of the centre-of-mass estimate in closed form.  The
    terms are the slots whose electrode reads at least one count below its
    baseline, in slot order, each with that drop; only when there is none,
    they are the slots whose filtered count is 30 or less, each with 32
    minus that count.  [totalMag] is the sum of the strengths of the terms
    and [maxStrength] their maximum (0 without terms); every strength is
    positive, so [totalMag] is zero exactly when there is no term. *)
Theorem com_estimate_closed_form w hw :
  terms (com_estimate w hw) = com_terms w hw ∧
  totalMag (com_estimate w hw) = sumZ (com_terms w hw).*2 ∧
  maxStrength (com_estimate w hw) = foldr Z.max 0 (com_terms w hw).*2 ∧
  (∀ i x, (i, x) ∈ com_terms w hw → 0 ≤ i < s_orderCount w ∧ 0 < x) ∧
  (totalMag (com_estimate w hw) = 0 ↔ com_terms w hw = []).
Proof.
  rewrite com_estimate_is_com_of.
  cbn [com_of terms totalMag maxStrength].
  split; [reflexivity |]. split; [reflexivity |]. split; [reflexivity |].
  unfold com_terms.
  destruct (slots_above (baseline_strength w hw) 1 (s_orderCount w)) as [| t b] eqn:Hb.
  - split.
    { intros i x Hin. apply slots_above_elem in Hin. lia. }
    split.
    + intros Hz.
      destruct (slots_above (fallback_strength w hw) 2 (s_orderCount w)) eqn:Hf;
        [reflexivity |].
      pose proof (slots_above_sum_pos (fallback_strength w hw) 2 (s_orderCount w)
                    ltac:(lia)) as Hpos.
      rewrite Hf in Hpos. specialize (Hpos ltac:(discriminate)). lia.
    + intros ->. reflexivity.
  - split.
    { intros i x Hin. rewrite <- Hb in Hin. apply slots_above_elem in Hin. lia. }
    split; [| discriminate]. intros Hz.
    pose proof (slots_above_sum_pos (baseline_strength w hw) 1 (s_orderCount w)
                  ltac:(lia)) as Hpos.
    rewrite Hb in Hpos. specialize (Hpos ltac:(discriminate)). lia.
Qed.

(** X13.  Which frames make [touchTask] propose "active".  A frame qualifies
    exactly when a touched bit is set, or some slot's electrode reads at
    least 10 counts below its baseline, or no slot reads below its
    baseline at all and some slot's filtered count is 22 or less: the
    fallback loop alone opens the gate, without any touched bit. *)
Theorem frame_qualifies_iff w hw :
  frame_qualifies w hw = true ↔
  touched hw ≠ 0 ∨
  (∃ i, 0 ≤ i < s_orderCount w ∧ 10 ≤ baseline_strength w hw i) ∨
  ((∀ i, 0 ≤ i < s_orderCount w → baseline_strength w hw i ≤ 0) ∧
   ∃ i, 0 ≤ i < s_orderCount w ∧ 10 ≤ fallback_strength w hw i).
Proof.
  unfold frame_qualifies, proposedActive.
  rewrite com_estimate_is_com_of. cbn [com_of maxStrength]. unfold com_terms.
  rewrite orb_true_iff, negb_true_iff, Z.eqb_neq.
  assert (Hmax : ∀ t : list (Z * Z),
            (foldr Z.max 0 t.*2 >=? 10) = true ↔ ∃ i x, (i, x) ∈ t ∧ 10 ≤ x).
  { intros t. rewrite Z.geb_le, (max_list_reaches _ 10) by lia. split.
    - intros (x & Hx & Hle). apply list_elem_of_fmap in Hx.
      destruct Hx as ([i y] & -> & Hin). exists i, y. split; assumption.
    - intros (i & x & Hin & Hle). exists x. split; [| exact Hle].
      apply list_elem_of_fmap. exists (i, x). split; [reflexivity | exact Hin]. }
  rewrite Hmax.
  assert (Hnil : slots_above (baseline_strength w hw) 1 (s_orderCount w) = [] ↔
                 ∀ i, 0 ≤ i < s_orderCount w → baseline_strength w hw i ≤ 0).
  { split.
    - intros Hb i Hi. destruct (Z.le_gt_cases (baseline_strength w hw i) 0); [assumption |].
      assert (Hin : (i, baseline_strength w hw i)
                    ∈ slots_above (baseline_strength w hw) 1 (s_orderCount w))
        by (apply slots_above_elem; repeat split; lia).
      rewrite Hb in Hin. inversion Hin.
    - intros Hall.
      destruct (slots_above (baseline_strength w hw) 1 (s_orderCount w))
        as [| [i x] b] eqn:Hb; [reflexivity |].
      assert (Hin : (i, x) ∈ slots_above (baseline_strength w hw) 1 (s_orderCount w))
        by (rewrite Hb; apply list_elem_of_here).
      apply slots_above_elem in Hin. destruct Hin as (Hi & Hf & _).
      specialize (Hall i Hi). lia. }
  split.
  - intros [Ht | (i & x & Hin & Hle)]; [left; exact Ht | right].
    destruct (slots_above (baseline_strength w hw) 1 (s_orderCount w))
      as [| t b] eqn:Hb.
    + right. split; [apply Hnil; reflexivity |].
      apply slots_above_elem in Hin. destruct Hin as (Hi & _ & ->).
      exists i. split; assumption.
    + left. rewrite <- Hb in Hin.
      apply slots_above_elem in Hin. destruct Hin as (Hi & _ & ->).
      exists i. split; assumption.
  - intros [Ht | [(i & Hi & Hle) | (Hall & i & Hi & Hle)]]; [left; exact Ht | |].
    + right. exists i, (baseline_strength w hw i). split; [| exact Hle].
      assert (Hin : (i, baseline_strength w hw i)
                    ∈ slots_above (baseline_strength w hw) 1 (s_orderCount w))
        by (apply slots_above_elem; repeat split; lia).
      destruct (slots_above (baseline_strength w hw) 1 (s_orderCount w));
        [inversion Hin | exact Hin].
    + right. exists i, (fallback_strength w hw i). split; [| exact Hle].
      rewrite (proj2 Hnil Hall).
      apply slots_above_elem; repeat split; lia.
Qed.

(** X14.  [wrapIndex] brings an index that is off by less than one turn back
    into the ring.  For [n] positive and [idx] from [-n] up to [2 n - 1]
    the result lies in [0, n) and differs from [idx] by a multiple of [n];
    it is the index itself when that is in range. *)
Theorem wrapIndex_in_ring idx n :
  0 < n < 1073741824 → - n ≤ idx < 2 * n →
  0 ≤ wrapIndex idx n < n ∧ wrapIndex idx n = idx mod n.
Proof.
  intros Hn Hidx. unfold wrapIndex.
  destruct (idx <? 0) eqn:Hneg.
  - rewrite wrap32_small by lia. split; [lia |].
    apply (Z.mod_unique_pos _ _ (-1)); lia.
  - destruct (idx >=? n) eqn:Hge.
    + rewrite wrap32_small by lia. split; [lia |].
      apply (Z.mod_unique_pos _ _ 1); lia.
    + split; [lia |]. symmetry. apply Z.mod_small. lia.
Qed.

Lemma wrapIndex_in_ring_witness :
  wrapIndex (-1) 12 = 11 ∧ wrapIndex 12 12 = 0.
Proof.
  split.
  - destruct (wrapIndex_in_ring (-1) 12) as [_ H]; [lia | lia |]. exact H.
  - destruct (wrapIndex_in_ring 12 12) as [_ H]; [lia | lia |]. exact H.
Defined.

(** ** The wheel task outside a session *)

Section IdleWheel.

Variable com_position : list (Z * Z) → Z → Z.

(** An iteration that leaves the gate inactive emits no step, keeps the
    counter, clears the accumulator and forgets the last position. *)
Lemma touchTask_iter_inactive fuel w hw :
  let g := activity_gate w (frame_qualifies w hw) in
  s_isActive g = false →
  touchTask_iter com_position fuel w hw
  = Some (set_lastPos (set_motion g (s_accumDelta w) 0) (F32.of_int (-1)), 0).
Proof.
  intros g Hoff. unfold touchTask_iter. cbv zeta.
  fold (frame_qualifies w hw). fold g. rewrite Hoff. cbn [andb mbind option_bind].
  rewrite Hoff. reflexivity.
Qed.

Lemma isolated_frames_run fuel events :
  ∀ w prev,
    s_isActive w = false →
    (s_activeFrames w = 0 ∨ (s_activeFrames w = 1 ∧ prev = true)) →
    no_pair prev (map (frame_qualifies w) (polled_frames events)) = true →
    ∃ w' drained,
      wheel_run com_position fuel events w
      = Some (w', replicate (length (polled_frames events)) 0, drained) ∧
      s_isActive w' = false ∧
      sumZ drained + s_accumDelta w' = s_accumDelta w.
Proof.
  induction events as [| ev events IH]; intros w prev Hoff Hstreak Hiso.
  - exists w, []. split; [reflexivity |]. split; [exact Hoff | cbn; lia].
  - destruct ev as [hw |]; cbn [polled_frames map no_pair wheel_run length replicate] in *.
    + apply andb_true_iff in Hiso. destruct Hiso as [Hpair Hiso].
      set (g := activity_gate w (frame_qualifies w hw)).
      assert (Hg : s_isActive g = false ∧
                   (s_activeFrames g = 0 ∨
                    (s_activeFrames g = 1 ∧ frame_qualifies w hw = true))).
      { unfold g, activity_gate.
        cbn [set_gate s_isActive s_activeFrames s_quietFrames]. rewrite Hoff.
        destruct (frame_qualifies w hw) eqn:Hq.
        - destruct Hstreak as [-> | [_ ->]]; [| discriminate Hpair].
          cbn. split; [reflexivity | right; split; reflexivity].
        - cbn. split; [reflexivity | left; reflexivity]. }
      destruct Hg as [Hgoff Hgstreak].
      rewrite (touchTask_iter_inactive fuel w hw Hgoff). fold g.
      cbn [mbind option_bind].
      set (w1 := set_lastPos (set_motion g (s_accumDelta w) 0) (F32.of_int (-1))).
      assert (Hq1 : map (frame_qualifies w1) (polled_frames events)
                    = map (frame_qualifies w) (polled_frames events)).
      { apply map_ext. intros hw'. unfold frame_qualifies.
        rewrite (com_estimate_order w w1 hw'); reflexivity. }
      destruct (IH w1 (frame_qualifies w hw)) as (w' & drained & Hrun & Hoff' & Hsum).
      * exact Hgoff.
      * exact Hgstreak.
      * rewrite Hq1. exact Hiso.
      * exists w', drained. rewrite Hrun. cbn [mbind option_bind].
        split; [reflexivity |]. split; [exact Hoff' | exact Hsum].
    + cbn [touchWheelGetAndClearDelta].
      set (w1 := set_motion w 0 (s_fracMove w)).
      assert (Hq1 : map (frame_qualifies w1) (polled_frames events)
                    = map (frame_qualifies w) (polled_frames events)).
      { apply map_ext. intros hw'. unfold frame_qualifies.
        rewrite (com_estimate_order w w1 hw'); reflexivity. }
      destruct (IH w1 prev) as (w' & drained & Hrun & Hoff' & Hsum).
      * exact Hoff.
      * exact Hstreak.
      * rewrite Hq1. exact Hiso.
      * exists w', (s_accumDelta w :: drained). rewrite Hrun.
        cbn [mbind option_bind]. split; [reflexivity |].
        split; [exact Hoff' |]. rewrite sumZ_cons.
        cbn [w1 set_motion s_accumDelta] in Hsum. lia.
Qed.

(** X15.  Isolated frames never scroll.  From an idle gate, over any
    interleaving of polls and drains in which no two consecutive polled
    frames qualify, every iteration of [touchTask] ends (with any bound on
    its loops, zero included) and emits no step, the gate is inactive at
    the end, and the drains return what the counter held at the start and
    nothing else: whatever position the estimator computes for a frame. *)
Theorem isolated_frames_never_step fuel events w :
  gate_idle w →
  no_pair false (map (frame_qualifies w) (polled_frames events)) = true →
  ∃ w' drained,
    wheel_run com_position fuel events w
    = Some (w', replicate (length (polled_frames events)) 0, drained) ∧
    s_isActive w' = false ∧
    sumZ drained + s_accumDelta w' = s_accumDelta w.
Proof.
  intros (Hoff & Hstreak & _) Hiso.
  apply (isolated_frames_run fuel events w false Hoff); [left; exact Hstreak | exact Hiso].
Qed.

End IdleWheel.

Lemma isolated_frames_never_step_witness :
  ∃ w' drained,
    wheel_run single_slot_position 0
      [Poll (slot_frame 0); Poll (resting_frame 0); Poll (slot_frame 1); Drain]
      touch_wheel_init
    = Some (w', [0; 0; 0], drained) ∧
    s_isActive w' = false ∧
    sumZ drained + s_accumDelta w' = 0.
Proof.
  apply (isolated_frames_never_step single_slot_position 0
           [Poll (slot_frame 0); Poll (resting_frame 0); Poll (slot_frame 1); Drain]
           touch_wheel_init);
    [repeat split | vm_compute; reflexivity].
Defined.

(** ** The step accumulator: steps of one frame *)

(** X16.  The steps of one frame.  In an active session, on a position the
    estimator can produce, both loops of the step accumulator end within
    seven iterations.  With [x] the accumulator after [s_fracMove += diff],
    the frame emits the integer nearest to [x], the lower one on a tie:
    what it leaves in the accumulator is [x] minus the steps, exactly, and
    lies above minus a half and up to a half inclusive.  So a move of
    exactly half a slot emits a step counter-clockwise and none clockwise.
    The frame emits at most half the slot count plus one steps in either
    direction (7 on the ring of 12). *)
Theorem step_accumulate_rounds_to_nearest fuel w p :
  (7 ≤ fuel)%nat → session_state w → position_ok (s_orderCount w) p →
  let x := F32.add (s_fracMove w)
             (wrapped_diff (s_orderCount w) (s_invert w) p (lastPos w)) in
  ∃ w' d,
    step_accumulate fuel w p = Some (w', d) ∧
    s_fracMove w' = x - d * F32.one ∧
    - F32.half < s_fracMove w' ≤ F32.half ∧
    2 * Z.abs d ≤ Z.max (s_orderCount w + 2) 4.
Proof.
  intros Hfuel (Hc & Hrf & Hf & Hlast) Hp x.
  destruct (wrapped_diff_bounds (s_orderCount w) (s_invert w) p (lastPos w)
              Hc Hp Hlast) as [Hrd Hd].
  set (diff := wrapped_diff (s_orderCount w) (s_invert w) p (lastPos w)) in *.
  assert (Hm : F32.representable
                 (Z.max (s_orderCount w + 1) 3 * F32.half))
    by (apply F32_scaled_representable; lia).
  assert (Hsum : Z.abs (s_fracMove w + diff)
                 ≤ Z.max (s_orderCount w + 1) 3 * F32.half)
    by (unfold F32.half, F32.one in *; lia).
  pose proof (F32_rne_le (s_fracMove w + diff) _ Hm ltac:(lia)) as Hhi.
  pose proof (F32_rne_ge (s_fracMove w + diff) _
                (F32_representable_opp _ Hm) ltac:(lia)) as Hlo.
  pose proof (F32_rne_representable (s_fracMove w + diff)) as Hr1.
  unfold step_accumulate. cbv zeta. fold diff.
  fold (F32.add (s_fracMove w) diff) in Hhi, Hlo, Hr1. fold x in Hhi, Hlo, Hr1 |- *.
  clearbody x.
  assert (Hhalf : 0 < F32.half) by (unfold F32.half; apply Z.pow_pos_nonneg; lia).
  assert (Hone : F32.one = 2 * F32.half)
    by (unfold F32.one, F32.half; rewrite <- Z.pow_succ_r; [reflexivity | lia]).
  assert (Hm13 : Z.max (s_orderCount w + 1) 3 * F32.half ≤ 13 * F32.half)
    by (apply Z.mul_le_mono_nonneg_r; lia).
  assert (Hx : - (13 * F32.half) ≤ x ≤ 13 * F32.half) by lia.
  destruct (steps_up_exact 7 fuel x (s_accumDelta w) 0)
    as (k & a1 & -> & Hk & Hrk & Hklt & Hklo); try lia; try assumption.
  cbn [mbind option_bind].
  destruct (steps_down_exact 7 fuel (x - k * F32.one) a1 (0 + k))
    as (j & a2 & -> & Hj & Hrj & Hjgt & Hjhi); try lia; try assumption.
  cbn [mbind option_bind].
  eexists _, _. split; [reflexivity |].
  cbn [set_motion s_fracMove].
  split; [lia |].
  assert (Htop : x - k * F32.one + j * F32.one ≤ F32.half).
  { destruct (Z.eq_dec j 0) as [-> | Hj0]; [lia |]. apply Hjhi. lia. }
  split; [lia |].
  set (m := Z.max (s_orderCount w + 1) 3) in *.
  assert (Hd2 : Z.abs (0 + k - j) * (2 * F32.half) < (m + 2) * F32.half).
  { rewrite <- Hone.
    replace (Z.abs (0 + k - j) * F32.one) with (Z.abs ((k - j) * F32.one))
      by (rewrite Z.abs_mul, (Z.abs_eq F32.one) by lia; f_equal; lia).
    lia. }
  assert (2 * Z.abs (0 + k - j) < m + 2).
  { apply (Z.mul_lt_mono_pos_r F32.half); lia. }
  lia.
Qed.

Lemma step_accumulate_rounds_to_nearest_witness :
  ∃ w' d,
    step_accumulate 7 quarter_wheel (3 * 2 ^ 147) = Some (w', d) ∧
    s_fracMove w' = F32.half - d * F32.one ∧
    - F32.half < s_fracMove w' ≤ F32.half ∧
    2 * Z.abs d ≤ 14.
Proof.
  apply (step_accumulate_rounds_to_nearest 7 quarter_wheel (3 * 2 ^ 147)).
  - lia.
  - repeat split; vm_compute; congruence.
  - repeat split; vm_compute; congruence.
Defined.

(** ** The electrode order *)

Lemma copy_loop_spec {A} (d : A) (f : Z → A) (l : list Z) :
  ∀ a : list A,
    (∀ i, i ∈ l → 0 ≤ i < Z.of_nat (length a)) →
    length (foldl (λ a i, arr_set a i (f i)) a l) = length a ∧
    ∀ j, 0 ≤ j →
         arr_get d (foldl (λ a i, arr_set a i (f i)) a l) j
         = if bool_decide (j ∈ l) then f j else arr_get d a j.
Proof.
  induction l as [| x l IH]; intros a Hl.
  - split; [reflexivity |]. intros j Hj. reflexivity.
  - cbn [foldl].
    assert (Hx : 0 ≤ x < Z.of_nat (length a)) by (apply Hl, list_elem_of_here).
    destruct (IH (arr_set a x (f x))) as [Hlen Hget].
    { intros i Hi. rewrite arr_set_length. apply Hl, list_elem_of_further, Hi. }
    rewrite arr_set_length in Hlen. split; [exact Hlen |].
    intros j Hj. rewrite (Hget j Hj).
    destruct (bool_decide (j ∈ l)) eqn:Hjl.
    + apply bool_decide_eq_true in Hjl.
      rewrite bool_decide_eq_true_2 by (apply list_elem_of_further, Hjl). reflexivity.
    + apply bool_decide_eq_false in Hjl.
      destruct (Z.eq_dec j x) as [-> | Hne].
      * rewrite bool_decide_eq_true_2 by apply list_elem_of_here.
        apply arr_get_set_eq, Hx.
      * rewrite bool_decide_eq_false_2
          by (intros Hin; apply elem_of_cons in Hin; tauto).
        apply arr_get_set_ne; lia.
Qed.

(** X17.  [touchWheelSetElectrodeOrder] ignores a count of 0 or above 12.
    Otherwise the ring has [count] slots, the first [count] entries of the
    order are the caller's and the entries from [count] on keep what they
    held; the counter, the gate, the accumulator and the last position of
    a session in progress are left as they are. *)
Theorem set_electrode_order_effect w order count :
  length (s_order w) = 12%nat →
  (count = 0 ∨ 12 < count → touchWheelSetElectrodeOrder w order count = w) ∧
  (1 ≤ count ≤ 12 →
   let w' := touchWheelSetElectrodeOrder w order count in
   s_orderCount w' = count ∧ length (s_order w') = 12%nat ∧
   (∀ i, 0 ≤ i < count → arr_get 0 (s_order w') i = arr_get 0 order i) ∧
   (∀ i, count ≤ i → arr_get 0 (s_order w') i = arr_get 0 (s_order w) i) ∧
   (s_accumDelta w', s_invert w', s_fracMove w', lastPos w')
   = (s_accumDelta w, s_invert w, s_fracMove w, lastPos w) ∧
   (s_isActive w', s_activeFrames w', s_quietFrames w')
   = (s_isActive w, s_activeFrames w, s_quietFrames w)).
Proof.
  intros Hlen. unfold touchWheelSetElectrodeOrder. split.
  - intros Hc. replace ((count =? 0) || (count >? 12)) with true; [reflexivity |].
    symmetry. apply orb_true_iff. lia.
  - intros Hc. cbv zeta.
    replace ((count =? 0) || (count >? 12)) with false
      by (symmetry; apply orb_false_iff; lia).
    cbn [s_orderCount s_order s_accumDelta s_invert s_fracMove lastPos
         s_isActive s_activeFrames s_quietFrames].
    destruct (copy_loop_spec 0 (λ i, arr_get 0 order i) (seqZ 0 count) (s_order w))
      as [Hl Hget].
    { intros i Hi. apply elem_of_seqZ in Hi. lia. }
    split; [reflexivity |]. split; [rewrite Hl; exact Hlen |].
    split; [| split; [| split; reflexivity]].
    + intros i Hi. rewrite (Hget i) by lia.
      rewrite bool_decide_eq_true_2 by (apply elem_of_seqZ; lia). reflexivity.
    + intros i Hi. rewrite (Hget i) by lia.
      rewrite bool_decide_eq_false_2
        by (intros Hin; apply elem_of_seqZ in Hin; lia).
      reflexivity.
Qed.

Lemma set_electrode_order_effect_witness :
  touchWheelSetElectrodeOrder touch_wheel_init [3; 2; 1] 13 = touch_wheel_init ∧
  s_orderCount (touchWheelSetElectrodeOrder touch_wheel_init [3; 2; 1] 3) = 3.
Proof.
  split.
  - apply (set_electrode_order_effect touch_wheel_init [3; 2; 1] 13);
      [reflexivity | right; lia].
  - destruct (set_electrode_order_effect touch_wheel_init [3; 2; 1] 3) as [_ H];
      [reflexivity |].
    destruct (H ltac:(lia)) as [Hcount _]. exact Hcount.
Defined.

(** ** The consumer of the wheel *)

Lemma menu_count_cases a : menu_count a = 3 ∨ menu_count a = 4.
Proof. unfold menu_count. destruct (s_menuLevel a =? 0); [left | right]; reflexivity. Qed.

(** [(sel + (moves % count) + count) % count] on a selection in range. *)
Lemma menu_walk sel moves count :
  0 < count ≤ 4 → 0 ≤ sel < count →
  Z.rem (wrap32 (wrap32 (sel + Z.rem moves count) + count)) count
  = (sel + moves) mod count.
Proof.
  intros Hc Hs.
  pose proof (Z.quot_rem' moves count) as Hqr.
  assert (Hr : - count < Z.rem moves count < count).
  { pose proof (Z.rem_bound_abs moves count ltac:(lia)). lia. }
  rewrite (wrap32_small (sel + Z.rem moves count)) by lia.
  rewrite wrap32_small by lia.
  rewrite Z.rem_mod_nonneg by lia.
  replace (sel + moves)
    with (sel + Z.rem moves count + count + (Z.quot moves count - 1) * count) by lia.
  rewrite Z_mod_plus_full. reflexivity.
Qed.

(** X18.  The wheel in the menu.  The loop of [menuTask] drains the counter and, in
    the menu view with the selection in range, moves the selection by the
    drained steps modulo the number of entries (3 on the home level, 4 on
    the music level), for every value of the counter, negative ones
    included; the volume, the view and the level stay, the wheel's counter
    is left at zero, and no redraw is requested when nothing was drained. *)
Theorem wheel_scroll_walks_menu w a :
  s_currentView a = VIEW_MENU → 0 ≤ s_menuSelected a < menu_count a →
  let r := apply_wheel_scroll w a in
  s_menuSelected (snd r) = (s_menuSelected a + s_accumDelta w) mod menu_count a ∧
  0 ≤ s_menuSelected (snd r) < menu_count a ∧
  s_accumDelta (fst r) = 0 ∧
  (s_currentView (snd r), s_menuLevel (snd r), s_audioVolume (snd r))
  = (s_currentView a, s_menuLevel a, s_audioVolume a) ∧
  (s_accumDelta w = 0 → snd r = a).
Proof.
  intros Hview Hsel. cbv zeta. unfold apply_wheel_scroll.
  cbn [touchWheelGetAndClearDelta].
  pose proof (menu_count_cases a) as Hc.
  destruct (s_accumDelta w =? 0) eqn:Hz.
  - apply Z.eqb_eq in Hz. rewrite Hz, Z.add_0_r, Z.mod_small by lia.
    cbn [fst snd set_motion s_accumDelta].
    repeat split; first [lia | intros; reflexivity].
  - cbn [set_wheel_debug_counter s_currentView]. rewrite Hview.
    cbn [fst snd set_motion s_accumDelta appSetMenuSelected s_menuSelected
         set_wheel_debug_counter s_currentView s_menuLevel s_audioVolume].
    change (menu_count _) with (menu_count a).
    rewrite menu_walk by lia.
    pose proof (Z.mod_pos_bound (s_menuSelected a + s_accumDelta w) (menu_count a)
                  ltac:(lia)).
    apply Z.eqb_neq in Hz.
    split; [reflexivity |]. split; [lia |]. split; [reflexivity |].
    split; [rewrite Hview; reflexivity |]. intros Hzero. contradiction.
Qed.

Lemma wheel_scroll_walks_menu_witness :
  s_menuSelected (snd (apply_wheel_scroll (pending_wheel (-7)) music_menu)) = 3.
Proof.
  destruct (wheel_scroll_walks_menu (pending_wheel (-7)) music_menu)
    as [H _]; [reflexivity | vm_compute; split; congruence |].
  exact H.
Defined.

Lemma press_down_menu a :
  s_currentView a = VIEW_MENU → 0 ≤ s_menuSelected a < menu_count a →
  s_menuSelected (press_down a) = (s_menuSelected a + 1) mod menu_count a ∧
  s_currentView (press_down a) = VIEW_MENU ∧
  menu_count (press_down a) = menu_count a.
Proof.
  intros Hview Hsel. pose proof (menu_count_cases a) as Hc.
  unfold press_down. rewrite Hview. cbv zeta.
  cbn [appSetMenuSelected s_menuSelected s_currentView].
  split; [| split; [exact Hview | reflexivity]].
  rewrite wrap32_small by lia. apply Z.rem_mod_nonneg; lia.
Qed.

Lemma press_up_menu a :
  s_currentView a = VIEW_MENU → 0 ≤ s_menuSelected a < menu_count a →
  s_menuSelected (press_up a) = (s_menuSelected a - 1) mod menu_count a ∧
  s_currentView (press_up a) = VIEW_MENU ∧
  menu_count (press_up a) = menu_count a.
Proof.
  intros Hview Hsel. pose proof (menu_count_cases a) as Hc.
  unfold press_up. rewrite Hview. cbv zeta.
  cbn [appSetMenuSelected s_menuSelected s_currentView].
  split; [| split; [exact Hview | reflexivity]].
  rewrite (wrap32_small (_ - 1)) by lia.
  rewrite wrap32_small by lia. rewrite Z.rem_mod_nonneg by lia.
  replace (s_menuSelected a - 1 + menu_count a)
    with (s_menuSelected a - 1 + 1 * menu_count a) by lia.
  apply Z_mod_plus_full.
Qed.

Lemma iter_press_down (n : nat) a :
  s_currentView a = VIEW_MENU → 0 ≤ s_menuSelected a < menu_count a →
  s_menuSelected (Nat.iter n press_down a)
  = (s_menuSelected a + Z.of_nat n) mod menu_count a ∧
  s_currentView (Nat.iter n press_down a) = VIEW_MENU ∧
  menu_count (Nat.iter n press_down a) = menu_count a.
Proof.
  intros Hview Hsel. pose proof (menu_count_cases a) as Hc.
  induction n as [| n IH].
  - cbn [Nat.iter nat_rect]. rewrite Z.add_0_r, Z.mod_small by lia.
    repeat split; assumption.
  - change (Nat.iter (S n) press_down a)
      with (press_down (Nat.iter n press_down a)).
    set (b := Nat.iter n press_down a) in *. destruct IH as (Hs & Hv & Hm).
    pose proof (Z.mod_pos_bound (s_menuSelected a + Z.of_nat n) (menu_count a)
                  ltac:(lia)) as Hb.
    destruct (press_down_menu b Hv ltac:(rewrite Hm, Hs; exact Hb))
      as (Hs' & Hv' & Hm').
    split; [| split; [exact Hv' | rewrite Hm'; exact Hm]].
    rewrite Hs', Hm, Hs, Zplus_mod_idemp_l. f_equal. lia.
Qed.

Lemma iter_press_up (n : nat) a :
  s_currentView a = VIEW_MENU → 0 ≤ s_menuSelected a < menu_count a →
  s_menuSelected (Nat.iter n press_up a)
  = (s_menuSelected a - Z.of_nat n) mod menu_count a ∧
  s_currentView (Nat.iter n press_up a) = VIEW_MENU ∧
  menu_count (Nat.iter n press_up a) = menu_count a.
Proof.
  intros Hview Hsel. pose proof (menu_count_cases a) as Hc.
  induction n as [| n IH].
  - cbn [Nat.iter nat_rect]. rewrite Z.sub_0_r, Z.mod_small by lia.
    repeat split; assumption.
  - change (Nat.iter (S n) press_up a)
      with (press_up (Nat.iter n press_up a)).
    set (b := Nat.iter n press_up a) in *. destruct IH as (Hs & Hv & Hm).
    pose proof (Z.mod_pos_bound (s_menuSelected a - Z.of_nat n) (menu_count a)
                  ltac:(lia)) as Hb.
    destruct (press_up_menu b Hv ltac:(rewrite Hm, Hs; exact Hb))
      as (Hs' & Hv' & Hm').
    split; [| split; [exact Hv' | rewrite Hm'; exact Hm]].
    rewrite Hs', Hm, Hs, Zminus_mod_idemp_l. f_equal. lia.
Qed.

(** X19.  The wheel agrees with the buttons.  In the menu view, draining [n]
    pending steps selects the entry that [n] presses of DOWN select, and
    draining [-n] the one that [n] presses of UP select. *)
Theorem wheel_scroll_agrees_with_buttons (n : nat) w a :
  s_currentView a = VIEW_MENU → 0 ≤ s_menuSelected a < menu_count a →
  (s_accumDelta w = Z.of_nat n →
   s_menuSelected (snd (apply_wheel_scroll w a))
   = s_menuSelected (Nat.iter n press_down a)) ∧
  (s_accumDelta w = - Z.of_nat n →
   s_menuSelected (snd (apply_wheel_scroll w a))
   = s_menuSelected (Nat.iter n press_up a)).
Proof.
  intros Hview Hsel.
  destruct (iter_press_down n a Hview Hsel) as [Hd _].
  destruct (iter_press_up n a Hview Hsel) as [Hu _].
  pose proof (menu_count_cases a) as Hc.
  assert (Hwalk : s_menuSelected (snd (apply_wheel_scroll w a))
                  = (s_menuSelected a + s_accumDelta w) mod menu_count a).
  { unfold apply_wheel_scroll. cbn [touchWheelGetAndClearDelta].
    destruct (s_accumDelta w =? 0) eqn:Hz.
    - apply Z.eqb_eq in Hz. rewrite Hz, Z.add_0_r, Z.mod_small by lia. reflexivity.
    - cbn [set_wheel_debug_counter s_currentView]. rewrite Hview.
      cbn [snd appSetMenuSelected set_wheel_debug_counter s_menuSelected].
      change (menu_count _) with (menu_count a). apply menu_walk; lia. }
  split; intros Hn; rewrite Hwalk, Hn; [rewrite Hd | rewrite Hu]; f_equal; lia.
Qed.

Lemma wheel_scroll_agrees_with_buttons_witness :
  s_menuSelected (snd (apply_wheel_scroll (pending_wheel 3) music_menu))
  = s_menuSelected (press_down (press_down (press_down music_menu))).
Proof.
  destruct (wheel_scroll_agrees_with_buttons 3 (pending_wheel 3) music_menu)
    as [H _]; [reflexivity | vm_compute; split; congruence |].
  apply H. reflexivity.
Defined.

Lemma constrain_clamps v lo hi :
  lo ≤ hi → constrain v lo hi = Z.max lo (Z.min hi v).
Proof.
  intros H. unfold constrain. rewrite Z.gtb_ltb.
  destruct (Z.ltb_spec v lo), (Z.ltb_spec hi v); lia.
Qed.

(** X20.  The wheel in the now-playing view.  Draining [n] steps sets the
    volume to [vol + n * 2], computed on [int], clamped to 0..100; the
    menu selection stays and the wheel's counter is left at zero.  For
    every [n] for which neither [n * 2] nor [vol + n * 2] leaves the
    range of an [int], the volume moves by [2 n] and saturates at 0 and
    100.  Beyond that range it does not: at volume 50, draining
    1073741823 steps wraps the sum to a negative number and leaves the
    volume at 0. *)
Theorem wheel_scroll_saturates_volume w a :
  s_currentView a = VIEW_NOW_PLAYING → 0 ≤ s_audioVolume a ≤ 100 →
  let n := s_accumDelta w in
  let r := apply_wheel_scroll w a in
  s_audioVolume (snd r)
  = Z.max 0 (Z.min 100 (wrap32 (s_audioVolume a + wrap32 (n * 2)))) ∧
  (int_range (n * 2) → int_range (s_audioVolume a + n * 2) →
   s_audioVolume (snd r) = Z.max 0 (Z.min 100 (s_audioVolume a + 2 * n))) ∧
  (s_audioVolume a = 50 → n = 1073741823 → s_audioVolume (snd r) = 0) ∧
  s_menuSelected (snd r) = s_menuSelected a ∧
  s_accumDelta (fst r) = 0.
Proof.
  intros Hview Hvol. cbv zeta.
  assert (Hraw : s_audioVolume (snd (apply_wheel_scroll w a))
                 = Z.max 0 (Z.min 100 (wrap32 (s_audioVolume a
                                                + wrap32 (s_accumDelta w * 2))))).
  { unfold apply_wheel_scroll. cbn [touchWheelGetAndClearDelta].
    destruct (s_accumDelta w =? 0) eqn:Hz.
    - apply Z.eqb_eq in Hz. rewrite Hz. cbn [snd].
      change (wrap32 (0 * 2)) with 0. rewrite Z.add_0_r.
      rewrite wrap32_small by lia. lia.
    - cbn [set_wheel_debug_counter s_currentView]. rewrite Hview.
      cbn [snd audioSetVolume set_wheel_debug_counter s_audioVolume].
      rewrite !constrain_clamps by lia. lia. }
  split; [exact Hraw |]. split; [| split; [| split]].
  - unfold int_range. intros Hprod Hsum. rewrite Hraw.
    rewrite (wrap32_small (s_accumDelta w * 2)) by lia.
    rewrite wrap32_small by lia.
    replace (s_accumDelta w * 2) with (2 * s_accumDelta w) by lia. reflexivity.
  - intros H50 Hn. rewrite Hraw, H50, Hn. vm_compute. reflexivity.
  - unfold apply_wheel_scroll. cbn [touchWheelGetAndClearDelta].
    destruct (s_accumDelta w =? 0); [reflexivity |].
    cbn [set_wheel_debug_counter s_currentView]. rewrite Hview. reflexivity.
  - unfold apply_wheel_scroll. cbn [touchWheelGetAndClearDelta].
    destruct (s_accumDelta w =? 0); [reflexivity |].
    cbn [set_wheel_debug_counter s_currentView]. rewrite Hview. reflexivity.
Qed.

Lemma wheel_scroll_saturates_volume_witness :
  s_audioVolume
    (snd (apply_wheel_scroll (pending_wheel 40)
            (press_up (audioSetVolume
                         {| s_currentView := VIEW_NOW_PLAYING; s_menuLevel := 1;
                            s_menuSelected := 0; s_forceRedraw := false;
                            s_audioVolume := 50; g_wheelDebugCounter := 6 |} 50))))
  = 100 ∧
  s_audioVolume
    (snd (apply_wheel_scroll (pending_wheel 1073741823)
            {| s_currentView := VIEW_NOW_PLAYING; s_menuLevel := 1;
               s_menuSelected := 0; s_forceRedraw := false;
               s_audioVolume := 50; g_wheelDebugCounter := 0 |}))
  = 0.
Proof.
  split.
  - match goal with
    | |- s_audioVolume (snd (apply_wheel_scroll ?w ?a)) = _ =>
        destruct (wheel_scroll_saturates_volume w a) as (_ & H & _);
          [reflexivity | vm_compute; split; congruence |]
    end.
    rewrite H; [reflexivity | |]; vm_compute; split; congruence.
  - match goal with
    | |- s_audioVolume (snd (apply_wheel_scroll ?w ?a)) = _ =>
        destruct (wheel_scroll_saturates_volume w a) as (_ & _ & H & _);
          [reflexivity | vm_compute; split; congruence |]
    end.
    apply H; reflexivity.
Defined.

(** ** The calibration engine *)

(** A loop over distinct in-range indices whose body rewrites the cell of
    its index from that cell alone. *)
Lemma update_loop_spec {A} (d : A) (h : Z → A → A) (body : list A → Z → list A)
    (l : list Z) :
  (∀ a i, 0 ≤ i < Z.of_nat (length a) → body a i = arr_set a i (h i (arr_get d a i))) →
  NoDup l →
  ∀ a : list A,
    (∀ i, i ∈ l → 0 ≤ i < Z.of_nat (length a)) →
    length (foldl body a l) = length a ∧
    ∀ j, 0 ≤ j →
         arr_get d (foldl body a l) j
         = if bool_decide (j ∈ l) then h j (arr_get d a j) else arr_get d a j.
Proof.
  intros Hbody. induction l as [| x l IH]; intros Hnd a Hl.
  - split; [reflexivity |]. intros j Hj. reflexivity.
  - cbn [foldl]. apply NoDup_cons in Hnd. destruct Hnd as [Hx Hnd].
    assert (Hxr : 0 ≤ x < Z.of_nat (length a)) by (apply Hl, list_elem_of_here).
    rewrite (Hbody a x Hxr).
    destruct (IH Hnd (arr_set a x (h x (arr_get d a x)))) as [Hlen Hget].
    { intros i Hi. rewrite arr_set_length. apply Hl, list_elem_of_further, Hi. }
    rewrite arr_set_length in Hlen. split; [exact Hlen |].
    intros j Hj. rewrite (Hget j Hj).
    destruct (Z.eq_dec j x) as [-> | Hne].
    + rewrite (bool_decide_eq_false_2 _ Hx).
      rewrite bool_decide_eq_true_2 by apply list_elem_of_here.
      apply arr_get_set_eq, Hxr.
    + rewrite (arr_get_set_ne d a x j) by lia.
      destruct (bool_decide (j ∈ l)) eqn:Hjl.
      * apply bool_decide_eq_true in Hjl.
        rewrite bool_decide_eq_true_2 by (apply list_elem_of_further, Hjl).
        reflexivity.
      * apply bool_decide_eq_false in Hjl.
        rewrite bool_decide_eq_false_2
          by (intros Hin; apply elem_of_cons in Hin; tauto).
        reflexivity.
Qed.

Lemma arr_set_same {A} (d : A) (a : list A) i :
  0 ≤ i < Z.of_nat (length a) → arr_set a i (arr_get d a i) = a.
Proof.
  intros Hi. unfold arr_set, arr_get.
  destruct (lookup_lt_is_Some_2 a (Z.to_nat i) ltac:(lia)) as [x Hx].
  rewrite Hx. cbn [default]. apply list_insert_id, Hx.
Qed.

Lemma arr_read_in_range {A} (d : A) (a : list A) i :
  0 ≤ i < Z.of_nat (length a) → arr_read a i = Some (arr_get d a i).
Proof.
  intros Hi. unfold arr_read, arr_get.
  replace (i <? 0) with false by (symmetry; lia).
  destruct (lookup_lt_is_Some_2 a (Z.to_nat i) ltac:(lia)) as [x ->].
  reflexivity.
Qed.

Lemma electrodes_in_range (n : nat) i :
  n = 12%nat → i ∈ seqZ 0 TOUCH_ELECTRODE_COUNT → 0 ≤ i < Z.of_nat n.
Proof.
  intros -> Hi. apply elem_of_seqZ in Hi. unfold TOUCH_ELECTRODE_COUNT in Hi. lia.
Qed.

Lemma electrode_decide i :
  0 ≤ i < 12 → bool_decide (i ∈ seqZ 0 TOUCH_ELECTRODE_COUNT) = true.
Proof.
  intros Hi. apply bool_decide_eq_true_2, elem_of_seqZ.
  unfold TOUCH_ELECTRODE_COUNT. lia.
Qed.

Lemma byte_or_shift lsb msb :
  0 ≤ lsb ≤ 255 → 0 ≤ msb ≤ 255 →
  Z.lor (Z.shiftl msb 8) lsb = msb * 256 + lsb.
Proof.
  intros Hl Hm.
  rewrite Z.shiftl_mul_pow2 by lia. change (2 ^ 8) with 256.
  rewrite <- Z.lxor_lor, <- Z.add_nocarry_lxor; try reflexivity.
  - apply Z.bits_inj'. intros n Hn. rewrite Z.land_spec, Z.bits_0.
    destruct (Z.lt_ge_cases n 8) as [Hlt | Hge].
    + change 256 with (2 ^ 8). rewrite Z.mul_pow2_bits_low by lia. reflexivity.
    + rewrite (Z.bits_above_log2 lsb n), andb_false_r; [reflexivity | lia |].
      destruct (Z.eq_dec lsb 0) as [-> | Hnz]; [cbn; lia |].
      apply Z.log2_lt_pow2; [lia |].
      apply Z.lt_le_trans with (2 ^ 8); [cbn; lia | apply Z.pow_le_mono_r; lia].
  - apply Z.bits_inj'. intros n Hn. rewrite Z.land_spec, Z.bits_0.
    destruct (Z.lt_ge_cases n 8) as [Hlt | Hge].
    + change 256 with (2 ^ 8). rewrite Z.mul_pow2_bits_low by lia. reflexivity.
    + rewrite (Z.bits_above_log2 lsb n), andb_false_r; [reflexivity | lia |].
      destruct (Z.eq_dec lsb 0) as [-> | Hnz]; [cbn; lia |].
      apply Z.log2_lt_pow2; [lia |].
      apply Z.lt_le_trans with (2 ^ 8); [cbn; lia | apply Z.pow_le_mono_r; lia].
Qed.

(** X21.  What the engine reads from the bus.  For an electrode below 12 and
    bytes on the wire, [read_electrode_filtered_data] returns the 16-bit
    value of the two bytes, low byte first, while
    [read_electrode_baseline] returns its single byte, so never more than
    255; both return 0 for an electrode of 12 or more, or when the bus
    has nothing available. *)
Theorem bus_reads_values electrode lsb msb :
  0 ≤ electrode < 12 → 0 ≤ lsb ≤ 255 → 0 ≤ msb ≤ 255 →
  read_electrode_filtered_data (Some (lsb, msb)) electrode = msb * 256 + lsb ∧
  read_electrode_baseline (Some lsb) electrode = lsb ∧
  read_electrode_filtered_data None electrode = 0 ∧
  read_electrode_baseline None electrode = 0 ∧
  (∀ wire e, 12 ≤ e → read_electrode_filtered_data wire e = 0) ∧
  (∀ wire e, 12 ≤ e → read_electrode_baseline wire e = 0).
Proof.
  intros He Hl Hm.
  unfold read_electrode_filtered_data, read_electrode_baseline, TOUCH_ELECTRODE_COUNT.
  replace (electrode >=? 12) with false by (symmetry; lia).
  split; [| split; [| split; [| split; [| split]]]]; try reflexivity.
  - unfold u16. rewrite (Z.mod_small msb), (Z.mod_small lsb) by lia.
    rewrite byte_or_shift by lia. apply Z.mod_small. lia.
  - unfold u16. apply Z.mod_small. lia.
  - intros wire e Hge. replace (e >=? 12) with true by (symmetry; lia). reflexivity.
  - intros wire e Hge. replace (e >=? 12) with true by (symmetry; lia). reflexivity.
Qed.

Lemma bus_reads_values_witness :
  read_electrode_filtered_data (Some (44, 2)) 3 = 556.
Proof.
  destruct (bus_reads_values 3 44 2) as [H _]; [lia | lia | lia |]. exact H.
Defined.

Lemma calculate_touch_deltas_loop (l : list Z) :
  ∀ g, foldl calculate_touch_deltas_body g l
       = set_touch_delta g
           (foldl (λ a i,
                     arr_set a i
                       (if arr_get 0 (baseline g) i >? arr_get 0 (filtered_data g) i
                        then u16 (arr_get 0 (baseline g) i
                                  - arr_get 0 (filtered_data g) i)
                        else 0))
                  (touch_delta g) l).
Proof.
  induction l as [| x l IH]; intros g.
  - destruct g; reflexivity.
  - cbn [foldl]. rewrite IH. unfold calculate_touch_deltas_body. cbv zeta.
    destruct (arr_get 0 (baseline g) x >? arr_get 0 (filtered_data g) x);
      reflexivity.
Qed.

(** X22.  [calculate_touch_deltas] leaves in every cell of [touch_delta] the
    drop of the filtered count below the baseline, zero when the count is
    at or above it, and changes nothing else; the touched test that
    follows then answers, for an enabled electrode, whether that drop
    reaches the electrode's touch threshold. *)
Theorem calculate_touch_deltas_effect g config e :
  calibration_wf g → length (touch_threshold config) = 12%nat →
  (∀ i, 0 ≤ i < 12 → 0 ≤ arr_get 0 (baseline g) i < 65536 ∧
                      0 ≤ arr_get 0 (filtered_data g) i < 65536) →
  0 ≤ e < 12 →
  let g' := calculate_touch_deltas g in
  arr_get 0 (touch_delta g') e
  = Z.max 0 (arr_get 0 (baseline g) e - arr_get 0 (filtered_data g) e) ∧
  calibration_wf g' ∧
  (baseline g', filtered_data g', electrode_enabled g',
   last_calibration_time g', calibration_needed g')
  = (baseline g, filtered_data g, electrode_enabled g,
     last_calibration_time g, calibration_needed g) ∧
  touch_calibration_is_electrode_touched g' config e
  = Some (arr_get false (electrode_enabled g) e
          && (Z.max 0 (arr_get 0 (baseline g) e - arr_get 0 (filtered_data g) e)
              >=? arr_get 0 (touch_threshold config) e)).
Proof.
  intros (Hb & Hf & Hd & Hen) Hthr Hrange He. cbv zeta.
  unfold calculate_touch_deltas. rewrite calculate_touch_deltas_loop.
  match goal with
  | |- context [foldl ?body (touch_delta g) _] =>
      destruct (copy_loop_spec 0
                  (λ i, if arr_get 0 (baseline g) i >? arr_get 0 (filtered_data g) i
                        then u16 (arr_get 0 (baseline g) i
                                  - arr_get 0 (filtered_data g) i)
                        else 0)
                  (seqZ 0 TOUCH_ELECTRODE_COUNT) (touch_delta g))
        as [Hlen Hget];
        [intros i Hi; apply (electrodes_in_range _ i Hd Hi) |]
  end.
  set (deltas := foldl _ (touch_delta g) _) in *.
  cbn [set_touch_delta touch_delta baseline filtered_data electrode_enabled
       last_calibration_time calibration_needed].
  assert (Hcell : arr_get 0 deltas e
                  = Z.max 0 (arr_get 0 (baseline g) e - arr_get 0 (filtered_data g) e)).
  { rewrite (Hget e) by lia. rewrite electrode_decide by lia.
    destruct (Hrange e He) as [Hbe Hfe].
    destruct (Z.gtb_spec (arr_get 0 (baseline g) e) (arr_get 0 (filtered_data g) e)).
    - unfold u16. rewrite Z.mod_small by lia. lia.
    - lia. }
  split; [exact Hcell |].
  split; [repeat split; cbn; try assumption; rewrite Hlen; exact Hd |].
  split; [reflexivity |].
  unfold touch_calibration_is_electrode_touched, TOUCH_ELECTRODE_COUNT.
  replace (e >=? 12) with false by (symmetry; lia).
  cbn [electrode_enabled touch_delta].
  rewrite (arr_read_in_range false (electrode_enabled g)) by lia.
  rewrite (arr_read_in_range 0 deltas) by lia.
  rewrite (arr_read_in_range 0 (touch_threshold config)) by lia.
  cbn [mbind option_bind]. rewrite Hcell.
  destruct (arr_get false (electrode_enabled g) e); reflexivity.
Qed.

Lemma calculate_touch_deltas_effect_witness :
  arr_get 0 (touch_delta (calculate_touch_deltas pressed_calibration)) 0 = 126.
Proof.
  destruct (calculate_touch_deltas_effect pressed_calibration TOUCH_CONFIG_DEFAULT 0)
    as [H _].
  - repeat split.
  - reflexivity.
  - intros i Hi.
    assert (Hc : i = 0 ∨ i = 1 ∨ i = 2 ∨ i = 3 ∨ i = 4 ∨ i = 5 ∨ i = 6 ∨ i = 7
                 ∨ i = 8 ∨ i = 9 ∨ i = 10 ∨ i = 11) by lia.
    repeat (destruct Hc as [-> | Hc]; [vm_compute; repeat split; congruence |]).
    subst i. vm_compute. repeat split; congruence.
  - lia.
  - exact H.
Defined.

(** *** Baseline capture *)

Lemma u16_add_l x y : u16 (u16 x + y) = u16 (x + y).
Proof. unfold u16. apply Zplus_mod_idemp_l. Qed.

Lemma u16_range x : 0 ≤ u16 x < 65536.
Proof. unfold u16. apply Z.mod_pos_bound. lia. Qed.

Lemma baseline_reading_byte readings sample electrode :
  byte_wire readings → 0 ≤ baseline_reading readings sample electrode ≤ 255.
Proof.
  intros Hw. unfold baseline_reading, read_electrode_baseline.
  destruct (electrode >=? TOUCH_ELECTRODE_COUNT); [lia |].
  destruct (readings sample electrode) as [b |] eqn:Hb; [| lia].
  specialize (Hw _ _ _ Hb). unfold u16. rewrite Z.mod_small by lia. lia.
Qed.

Lemma readings_sum_bounds readings (l : list Z) electrode :
  byte_wire readings →
  0 ≤ readings_sum readings l electrode ≤ 255 * Z.of_nat (length l).
Proof.
  intros Hw. unfold readings_sum. induction l as [| s l IH]; [cbn; lia |].
  cbn [map length]. rewrite sumZ_cons.
  pose proof (baseline_reading_byte readings s electrode Hw). lia.
Qed.

(** One pass over the electrodes adds the reading of each enabled one. *)
Lemma sample_pass enabled readings sample (base : list Z) :
  length base = 12%nat →
  length (foldl (sample_body enabled readings sample) base
                (seqZ 0 TOUCH_ELECTRODE_COUNT)) = 12%nat ∧
  ∀ e, 0 ≤ e < 12 →
       arr_get 0 (foldl (sample_body enabled readings sample) base
                        (seqZ 0 TOUCH_ELECTRODE_COUNT)) e
       = if arr_get false enabled e
         then u16 (arr_get 0 base e + baseline_reading readings sample e)
         else arr_get 0 base e.
Proof.
  intros Hlen.
  destruct (update_loop_spec 0
              (λ e v, if arr_get false enabled e
                      then u16 (v + baseline_reading readings sample e) else v)
              (sample_body enabled readings sample)
              (seqZ 0 TOUCH_ELECTRODE_COUNT)) with (a := base) as [Hl Hget].
  - intros a i Hi. unfold sample_body.
    destruct (arr_get false enabled i); cbn [negb]; [reflexivity |].
    symmetry. apply arr_set_same, Hi.
  - apply NoDup_seqZ.
  - intros i Hi. apply (electrodes_in_range _ i Hlen Hi).
  - split; [rewrite Hl; exact Hlen |].
    intros e He. rewrite (Hget e) by lia. rewrite electrode_decide by lia.
    reflexivity.
Qed.

(** The passes over the samples [l] add up the readings of each enabled
    electrode, modulo [2^16]. *)
Lemma sample_passes enabled readings (l : list Z) :
  ∀ base : list Z,
    length base = 12%nat →
    (∀ e, 0 ≤ e < 12 → 0 ≤ arr_get 0 base e < 65536) →
    let r := foldl (λ base sample,
                      foldl (sample_body enabled readings sample) base
                            (seqZ 0 TOUCH_ELECTRODE_COUNT)) base l in
    length r = 12%nat ∧
    ∀ e, 0 ≤ e < 12 →
         arr_get 0 r e
         = if arr_get false enabled e
           then u16 (arr_get 0 base e + readings_sum readings l e)
           else arr_get 0 base e.
Proof.
  induction l as [| s l IH]; intros base Hlen Hrange; cbv zeta.
  - split; [exact Hlen |]. intros e He. cbn [foldl].
    unfold readings_sum. cbn [map sumZ foldr]. rewrite Z.add_0_r.
    destruct (arr_get false enabled e); [| reflexivity].
    unfold u16. symmetry. apply Z.mod_small, Hrange, He.
  - cbn [foldl].
    destruct (sample_pass enabled readings s base Hlen) as [Hl1 Hget1].
    destruct (IH _ Hl1) as [Hl Hget].
    { intros e He. rewrite (Hget1 e He).
      destruct (arr_get false enabled e); [apply u16_range | apply Hrange, He]. }
    split; [exact Hl |].
    intros e He. rewrite (Hget e He), (Hget1 e He).
    destruct (arr_get false enabled e); [| reflexivity].
    unfold readings_sum. cbn [map]. rewrite sumZ_cons, u16_add_l.
    f_equal. lia.
Qed.

Lemma average_pass enabled (base : list Z) :
  length base = 12%nat →
  length (foldl (average_body enabled) base (seqZ 0 TOUCH_ELECTRODE_COUNT)) = 12%nat ∧
  ∀ e, 0 ≤ e < 12 →
       arr_get 0 (foldl (average_body enabled) base (seqZ 0 TOUCH_ELECTRODE_COUNT)) e
       = if arr_get false enabled e
         then arr_get 0 base e / CALIBRATION_SAMPLES
         else arr_get 0 base e.
Proof.
  intros Hlen.
  destruct (update_loop_spec 0
              (λ e v, if arr_get false enabled e then v / CALIBRATION_SAMPLES else v)
              (average_body enabled)
              (seqZ 0 TOUCH_ELECTRODE_COUNT)) with (a := base) as [Hl Hget].
  - intros a i Hi. unfold average_body.
    destruct (arr_get false enabled i); [reflexivity |].
    symmetry. apply arr_set_same, Hi.
  - apply NoDup_seqZ.
  - intros i Hi. apply (electrodes_in_range _ i Hlen Hi).
  - split; [rewrite Hl; exact Hlen |].
    intros e He. rewrite (Hget e) by lia. rewrite electrode_decide by lia.
    reflexivity.
Qed.

Lemma arr_get_replicate_zero (n : nat) e : arr_get 0 (replicate n 0) e = 0.
Proof.
  unfold arr_get. destruct (replicate n 0 !! Z.to_nat e) as [x |] eqn:Hx;
    [| reflexivity].
  apply lookup_replicate in Hx. destruct Hx as [-> _]. reflexivity.
Qed.

(** The baseline array the sampling and averaging loops leave. *)
Lemma captured_baseline enabled readings e :
  byte_wire readings → 0 ≤ e < 12 →
  let base :=
    foldl (average_body enabled)
      (foldl (λ base sample,
                foldl (sample_body enabled readings sample) base
                      (seqZ 0 TOUCH_ELECTRODE_COUNT))
             (replicate (Z.to_nat TOUCH_ELECTRODE_COUNT) 0)
             (seqZ 0 CALIBRATION_SAMPLES))
      (seqZ 0 TOUCH_ELECTRODE_COUNT) in
  let avg := readings_sum readings (seqZ 0 CALIBRATION_SAMPLES) e
             / CALIBRATION_SAMPLES in
  length base = 12%nat ∧
  arr_get 0 base e = (if arr_get false enabled e then avg else 0) ∧
  0 ≤ avg ≤ 255.
Proof.
  intros Hw He. cbv zeta.
  destruct (sample_passes enabled readings (seqZ 0 CALIBRATION_SAMPLES)
              (replicate (Z.to_nat TOUCH_ELECTRODE_COUNT) 0))
    as [Hl1 Hget1].
  { reflexivity. }
  { intros i Hi. rewrite arr_get_replicate_zero. lia. }
  destruct (average_pass enabled _ Hl1) as [Hl2 Hget2].
  pose proof (readings_sum_bounds readings (seqZ 0 CALIBRATION_SAMPLES) e Hw) as Hsum.
  change (Z.of_nat (length (seqZ 0 CALIBRATION_SAMPLES))) with 10 in Hsum.
  split; [exact Hl2 |]. split.
  - rewrite (Hget2 e He), (Hget1 e He), arr_get_replicate_zero.
    destruct (arr_get false enabled e); [| reflexivity].
    unfold u16. rewrite Z.add_0_l, Z.mod_small by lia. reflexivity.
  - unfold CALIBRATION_SAMPLES in *. split.
    + apply Z.div_pos; lia.
    + apply Z.div_le_upper_bound; lia.
Qed.

(** *** The health check *)

Lemma health_body_step st x :
  0 ≤ x < 12 →
  let g := g_calibration_data st in
  let base := arr_get 0 (baseline g) x in
  let filtered := arr_get 0 (filtered_data g) x in
  let last := arr_get 0 (last_filtered st) x in
  calibration_frame (health_body st x) = calibration_frame st ∧
  electrode_enabled (g_calibration_data (health_body st x))
  = (if healthy_reading base filtered last then electrode_enabled g
     else arr_set (electrode_enabled g) x false) ∧
  last_filtered (health_body st x)
  = (if baseline_in_range base then arr_set (last_filtered st) x filtered
     else last_filtered st).
Proof.
  intros Hx. cbv zeta.
  unfold health_body, is_electrode_healthy, healthy_reading, baseline_in_range,
    noise_level, TOUCH_ELECTRODE_COUNT.
  replace (x >=? 12) with false by (symmetry; lia).
  destruct ((arr_get 0 (baseline (g_calibration_data st)) x <? 50)
            || (arr_get 0 (baseline (g_calibration_data st)) x >? 1000));
    cbn [negb andb].
  - destruct st as [g ? ? ?]. destruct g. repeat split.
  - destruct (u16 _ >? 100); cbn [negb];
      destruct st as [g ? ? ?]; destruct g; repeat split.
Qed.

Lemma health_loop (l : list Z) :
  NoDup l → (∀ e, e ∈ l → 0 ≤ e < 12) →
  ∀ st,
    calibration_state_wf st →
    let g := g_calibration_data st in
    let st' := foldl health_body st l in
    calibration_state_wf st' ∧
    calibration_frame st' = calibration_frame st ∧
    ∀ e, 0 ≤ e →
         arr_get false (electrode_enabled (g_calibration_data st')) e
         = (if bool_decide (e ∈ l)
            then arr_get false (electrode_enabled g) e
                 && healthy_reading (arr_get 0 (baseline g) e)
                      (arr_get 0 (filtered_data g) e)
                      (arr_get 0 (last_filtered st) e)
            else arr_get false (electrode_enabled g) e) ∧
         arr_get 0 (last_filtered st') e
         = (if bool_decide (e ∈ l) && baseline_in_range (arr_get 0 (baseline g) e)
            then arr_get 0 (filtered_data g) e
            else arr_get 0 (last_filtered st) e).
Proof.
  induction l as [| x l IH]; intros Hnd Hl st Hwf; cbv zeta.
  - cbn [foldl]. split; [exact Hwf |]. split; [reflexivity |].
    intros e He. split; reflexivity.
  - cbn [foldl]. apply NoDup_cons in Hnd. destruct Hnd as [Hx Hnd].
    assert (Hxr : 0 ≤ x < 12) by (apply Hl, list_elem_of_here).
    destruct (health_body_step st x Hxr) as (Hframe & Hen & Hlf).
    set (st1 := health_body st x) in *.
    assert (Hfields : baseline (g_calibration_data st1) = baseline (g_calibration_data st)
                      ∧ filtered_data (g_calibration_data st1)
                        = filtered_data (g_calibration_data st)
                      ∧ touch_delta (g_calibration_data st1)
                        = touch_delta (g_calibration_data st)).
    { unfold calibration_frame in Hframe. injection Hframe as ? ? ? ? ? ? ?.
      repeat split; assumption. }
    destruct Hfields as (Hb1 & Hf1 & Hd1).
    destruct Hwf as ((Hwb & Hwf' & Hwd & Hwe) & Hwl).
    assert (Hwf1 : calibration_state_wf st1).
    { split; [split; [| split; [| split]] |].
      - rewrite Hb1. exact Hwb.
      - rewrite Hf1. exact Hwf'.
      - rewrite Hd1. exact Hwd.
      - rewrite Hen. destruct (healthy_reading _ _ _);
          [exact Hwe | rewrite arr_set_length; exact Hwe].
      - rewrite Hlf. destruct (baseline_in_range _);
          [rewrite arr_set_length; exact Hwl | exact Hwl]. }
    destruct (IH Hnd ltac:(intros e He; apply Hl, list_elem_of_further, He) st1 Hwf1)
      as (Hwf2 & Hframe2 & Hcells).
    split; [exact Hwf2 |]. split; [rewrite Hframe2; exact Hframe |].
    intros e He. destruct (Hcells e He) as [Hce Hcl].
    rewrite Hce, Hcl, Hb1, Hf1. clear Hce Hcl.
    destruct (Z.eq_dec e x) as [-> | Hne].
    + rewrite (bool_decide_eq_false_2 _ Hx).
      rewrite bool_decide_eq_true_2 by apply list_elem_of_here.
      cbn [andb]. rewrite Hen, Hlf. split.
      * destruct (healthy_reading _ _ _); [rewrite andb_true_r; reflexivity |].
        rewrite andb_false_r. apply arr_get_set_eq. lia.
      * destruct (baseline_in_range _); [apply arr_get_set_eq; lia | reflexivity].
    + assert (Hen1 : arr_get false (electrode_enabled (g_calibration_data st1)) e
                     = arr_get false (electrode_enabled (g_calibration_data st)) e).
      { rewrite Hen. destruct (healthy_reading _ _ _);
          [reflexivity | apply arr_get_set_ne; lia]. }
      assert (Hlf1 : arr_get 0 (last_filtered st1) e = arr_get 0 (last_filtered st) e).
      { rewrite Hlf. destruct (baseline_in_range _);
          [apply arr_get_set_ne; lia | reflexivity]. }
      rewrite Hen1, Hlf1.
      destruct (bool_decide (e ∈ l)) eqn:Hel.
      * apply bool_decide_eq_true in Hel.
        rewrite bool_decide_eq_true_2 by (apply list_elem_of_further, Hel).
        split; reflexivity.
      * apply bool_decide_eq_false in Hel.
        rewrite bool_decide_eq_false_2
          by (intros Hin; apply elem_of_cons in Hin; tauto).
        split; reflexivity.
Qed.

(** *** [touch_calibration_perform_baseline] *)

(** The health check and the closing assignments, after the sampling
    loops have left [base2] as the baseline. *)
Lemma perform_baseline_finish (avg : Z → Z) now st (base2 : list Z) :
  calibration_state_wf st → length base2 = 12%nat →
  (∀ e, 0 ≤ e < 12 →
        arr_get 0 base2 e
        = (if arr_get false (electrode_enabled (g_calibration_data st)) e
           then avg e else 0) ∧
        0 ≤ avg e ≤ 255) →
  let g := g_calibration_data st in
  let st2 := foldl health_body (set_calibration_data st (set_baseline g base2))
                   (seqZ 0 TOUCH_ELECTRODE_COUNT) in
  let st' := set_calibration_data st2
               (set_last_calibration_time
                  (set_calibration_needed (g_calibration_data st2) false) now) in
  let g' := g_calibration_data st' in
  calibration_state_wf st' ∧
  filtered_data g' = filtered_data g ∧ touch_delta g' = touch_delta g ∧
  calibration_needed g' = false ∧ last_calibration_time g' = now ∧
  g_calibration_initialized st' = g_calibration_initialized st ∧
  g_last_auto_calibration st' = g_last_auto_calibration st ∧
  ∀ e, 0 ≤ e < 12 →
       0 ≤ avg e ≤ 255 ∧
       arr_get 0 (baseline g') e
       = (if arr_get false (electrode_enabled g) e then avg e else 0) ∧
       arr_get false (electrode_enabled g') e
       = arr_get false (electrode_enabled g) e && (50 <=? avg e)
         && (noise_level (arr_get 0 (filtered_data g) e)
                         (arr_get 0 (last_filtered st) e) <=? 100) ∧
       arr_get 0 (last_filtered st') e
       = (if arr_get false (electrode_enabled g) e && (50 <=? avg e)
          then arr_get 0 (filtered_data g) e
          else arr_get 0 (last_filtered st) e).
Proof.
  intros Hwf Hlen Hbase. cbv zeta.
  destruct Hwf as ((Hwb & Hwf' & Hwd & Hwe) & Hwl).
  assert (Hwf1 : calibration_state_wf
                   (set_calibration_data st (set_baseline (g_calibration_data st) base2))).
  { split; [split; [| split; [| split]] |]; assumption. }
  destruct (health_loop (seqZ 0 TOUCH_ELECTRODE_COUNT) (NoDup_seqZ _ _)) with
    (st := set_calibration_data st (set_baseline (g_calibration_data st) base2))
    as (Hwf2 & Hframe & Hcells); [| exact Hwf1 |].
  { intros e He. apply elem_of_seqZ in He. unfold TOUCH_ELECTRODE_COUNT in He. lia. }
  revert Hwf2 Hframe Hcells.
  generalize (foldl health_body
                (set_calibration_data st (set_baseline (g_calibration_data st) base2))
                (seqZ 0 TOUCH_ELECTRODE_COUNT)).
  intros st2 Hwf2 Hframe Hcells.
  unfold calibration_frame in Hframe.
  destruct st as [g ini auto lf]. destruct g as [b f d en t n].
  destruct st2 as [g2 ini2 auto2 lf2]. destruct g2 as [b2 f2 d2 en2 t2 n2].
  cbn [set_calibration_data set_baseline set_calibration_needed
       set_last_calibration_time g_calibration_data baseline
       filtered_data touch_delta electrode_enabled last_calibration_time
       calibration_needed g_calibration_initialized g_last_auto_calibration
       last_filtered] in *.
  injection Hframe as -> -> -> -> -> -> ->.
  split.
  { destruct Hwf2 as ((? & ? & ? & ?) & ?). repeat split; assumption. }
  split; [reflexivity |]. split; [reflexivity |]. split; [reflexivity |].
  split; [reflexivity |]. split; [reflexivity |]. split; [reflexivity |].
  intros e He. destruct (Hbase e He) as (Hcell & Havg).
  destruct (Hcells e ltac:(lia)) as [Hce Hcl].
  rewrite electrode_decide in Hce, Hcl by lia. cbn [andb] in Hcl.
  split; [exact Havg |]. split; [exact Hcell |].
  rewrite Hce, Hcl, Hcell. unfold healthy_reading, baseline_in_range.
  destruct (arr_get false en e); cbn [andb].
  - generalize (noise_level (arr_get 0 f e) (arr_get 0 lf e)). intros noise.
    revert Havg. generalize (avg e). intros a Havg.
    rewrite !Z.gtb_ltb.
    destruct (Z.ltb_spec a 50), (Z.ltb_spec 1000 a), (Z.leb_spec 50 a),
      (Z.ltb_spec 100 noise), (Z.leb_spec noise 100); cbn [negb andb orb];
      first [lia | split; reflexivity].
  - split; reflexivity.
Qed.

Lemma perform_baseline_cells readings now st :
  g_calibration_initialized st = true → calibration_state_wf st →
  byte_wire readings →
  let g := g_calibration_data st in
  let r := touch_calibration_perform_baseline readings now st in
  let g' := g_calibration_data (snd r) in
  fst r = true ∧ calibration_state_wf (snd r) ∧
  filtered_data g' = filtered_data g ∧ touch_delta g' = touch_delta g ∧
  calibration_needed g' = false ∧ last_calibration_time g' = now ∧
  g_calibration_initialized (snd r) = true ∧
  g_last_auto_calibration (snd r) = g_last_auto_calibration st ∧
  ∀ e, 0 ≤ e < 12 →
       let avg := captured_average readings e in
       0 ≤ avg ≤ 255 ∧
       arr_get 0 (baseline g') e
       = (if arr_get false (electrode_enabled g) e then avg else 0) ∧
       arr_get false (electrode_enabled g') e
       = arr_get false (electrode_enabled g) e && (50 <=? avg)
         && (noise_level (arr_get 0 (filtered_data g) e)
                         (arr_get 0 (last_filtered st) e) <=? 100) ∧
       arr_get 0 (last_filtered (snd r)) e
       = (if arr_get false (electrode_enabled g) e && (50 <=? avg)
          then arr_get 0 (filtered_data g) e
          else arr_get 0 (last_filtered st) e).
Proof.
  intros Hinit Hwf Hw. cbv zeta. unfold touch_calibration_perform_baseline.
  rewrite Hinit. cbn [negb fst snd].
  split; [reflexivity |].
  pose proof (λ e He, captured_baseline (electrode_enabled (g_calibration_data st))
                        readings e Hw He) as Hbase.
  cbv zeta in Hbase.
  pose proof (perform_baseline_finish (captured_average readings) now st _ Hwf
                (proj1 (Hbase 0 ltac:(lia)))
                (λ e He, proj2 (Hbase e He))) as Hfin.
  cbv zeta in Hfin. rewrite Hinit in Hfin. exact Hfin.
Qed.

(** X23.  [touch_calibration_perform_baseline] does nothing before the
    engine is initialised.  Afterwards, with bytes on the bus: a disabled
    electrode gets baseline 0 and stays disabled; an enabled one gets the
    average of its ten readings, at most 255, and stays enabled exactly
    when that average is at least 50 and its filtered count is within 100
    of the count the health check saw last (the check's upper limit of
    1000 is out of reach); the check records the filtered count only of
    the electrodes whose baseline passed.  The filtered counts and the
    deltas are left alone, and no recalibration is pending afterwards. *)
Theorem perform_baseline_effect readings now st e :
  calibration_state_wf st → byte_wire readings → 0 ≤ e < 12 →
  let g := g_calibration_data st in
  let r := touch_calibration_perform_baseline readings now st in
  let g' := g_calibration_data (snd r) in
  let avg := captured_average readings e in
  (g_calibration_initialized st = false → r = (false, st)) ∧
  (g_calibration_initialized st = true →
   fst r = true ∧ 0 ≤ avg ≤ 255 ∧
   arr_get 0 (baseline g') e
   = (if arr_get false (electrode_enabled g) e then avg else 0) ∧
   arr_get false (electrode_enabled g') e
   = arr_get false (electrode_enabled g) e && (50 <=? avg)
     && (noise_level (arr_get 0 (filtered_data g) e)
                     (arr_get 0 (last_filtered st) e) <=? 100) ∧
   arr_get 0 (last_filtered (snd r)) e
   = (if arr_get false (electrode_enabled g) e && (50 <=? avg)
      then arr_get 0 (filtered_data g) e
      else arr_get 0 (last_filtered st) e) ∧
   (filtered_data g', touch_delta g') = (filtered_data g, touch_delta g) ∧
   calibration_needed g' = false ∧ last_calibration_time g' = now).
Proof.
  intros Hwf Hw He. cbv zeta. split.
  - intros Hoff. unfold touch_calibration_perform_baseline. rewrite Hoff. reflexivity.
  - intros Hon.
    destruct (perform_baseline_cells readings now st Hon Hwf Hw)
      as (Hok & _ & Hf & Hd & Hn & Ht & _ & _ & Hcells).
    destruct (Hcells e He) as (Havg & Hb & Hen & Hl).
    split; [exact Hok |]. split; [exact Havg |]. split; [exact Hb |].
    split; [exact Hen |]. split; [exact Hl |].
    split; [rewrite Hf, Hd; reflexivity |]. split; [exact Hn | exact Ht].
Qed.

Lemma steady_wire_bytes : byte_wire steady_wire.
Proof. intros s e b [= <-]. lia. Qed.

Lemma perform_baseline_effect_witness :
  touch_calibration_perform_baseline steady_wire 0 boot_calibration
  = (false, boot_calibration) ∧
  arr_get 0 (baseline (g_calibration_data
                         (snd (touch_calibration_perform_baseline steady_wire 2000
                                 started_calibration)))) 0 = 0.
Proof.
  split.
  - destruct (perform_baseline_effect steady_wire 0 boot_calibration 0) as [H _];
      [repeat split | exact steady_wire_bytes | lia |].
    apply H. reflexivity.
  - destruct (perform_baseline_effect steady_wire 2000 started_calibration 0)
      as [_ H]; [repeat split | exact steady_wire_bytes | lia |].
    destruct (H eq_refl) as (_ & _ & Hb & _). exact Hb.
Defined.

(** *** [touch_calibration_update] *)

Lemma refresh_loop filtered_wire (l : list Z) :
  ∀ g, foldl (refresh_body filtered_wire) g l
       = set_filtered_data g
           (foldl (λ a i, if arr_get false (electrode_enabled g) i
                          then arr_set a i
                                 (read_electrode_filtered_data (filtered_wire i) i)
                          else a)
                  (filtered_data g) l).
Proof.
  induction l as [| x l IH]; intros g.
  - destruct g; reflexivity.
  - cbn [foldl]. rewrite IH. unfold refresh_body.
    destruct (arr_get false (electrode_enabled g) x); reflexivity.
Qed.

Lemma refresh_cells filtered_wire g :
  calibration_wf g →
  ∃ filtered,
    foldl (refresh_body filtered_wire) g (seqZ 0 TOUCH_ELECTRODE_COUNT)
    = set_filtered_data g filtered ∧
    length filtered = 12%nat ∧
    ∀ e, 0 ≤ e < 12 →
         arr_get 0 filtered e
         = if arr_get false (electrode_enabled g) e
           then read_electrode_filtered_data (filtered_wire e) e
           else arr_get 0 (filtered_data g) e.
Proof.
  intros (_ & Hf & _ & _). rewrite refresh_loop. eexists. split; [reflexivity |].
  destruct (update_loop_spec 0
              (λ e v, if arr_get false (electrode_enabled g) e
                      then read_electrode_filtered_data (filtered_wire e) e else v)
              (λ a i, if arr_get false (electrode_enabled g) i
                      then arr_set a i
                             (read_electrode_filtered_data (filtered_wire i) i)
                      else a)
              (seqZ 0 TOUCH_ELECTRODE_COUNT)) with (a := filtered_data g)
    as [Hl Hget].
  - intros a i Hi. destruct (arr_get false (electrode_enabled g) i); [reflexivity |].
    symmetry. apply arr_set_same, Hi.
  - apply NoDup_seqZ.
  - intros i Hi. apply (electrodes_in_range _ i Hf Hi).
  - split; [rewrite Hl; exact Hf |].
    intros e He. rewrite (Hget e) by lia. rewrite electrode_decide by lia.
    reflexivity.
Qed.

Lemma calculate_touch_deltas_cells g :
  calibration_wf g →
  ∃ deltas,
    calculate_touch_deltas g = set_touch_delta g deltas ∧
    length deltas = 12%nat ∧
    ∀ e, 0 ≤ e < 12 →
         arr_get 0 deltas e
         = if arr_get 0 (baseline g) e >? arr_get 0 (filtered_data g) e
           then u16 (arr_get 0 (baseline g) e - arr_get 0 (filtered_data g) e)
           else 0.
Proof.
  intros (_ & _ & Hd & _). unfold calculate_touch_deltas.
  rewrite calculate_touch_deltas_loop. eexists. split; [reflexivity |].
  destruct (copy_loop_spec 0
              (λ i, if arr_get 0 (baseline g) i >? arr_get 0 (filtered_data g) i
                    then u16 (arr_get 0 (baseline g) i - arr_get 0 (filtered_data g) i)
                    else 0)
              (seqZ 0 TOUCH_ELECTRODE_COUNT) (touch_delta g)) as [Hl Hget].
  - intros i Hi. apply (electrodes_in_range _ i Hd Hi).
  - split; [rewrite Hl; exact Hd |].
    intros e He. rewrite (Hget e) by lia. rewrite electrode_decide by lia.
    reflexivity.
Qed.

Lemma drift_detected_fields baseline_wire g g' :
  electrode_enabled g' = electrode_enabled g → baseline g' = baseline g →
  foldl (drift_body baseline_wire g') false (seqZ 0 TOUCH_ELECTRODE_COUNT)
  = drift_detected baseline_wire g.
Proof.
  intros He Hb. unfold drift_detected.
  generalize (seqZ 0 TOUCH_ELECTRODE_COUNT) false.
  induction l as [| x l IH]; intros acc; [reflexivity |].
  cbn [foldl]. rewrite <- IH. f_equal. unfold drift_body. rewrite He, Hb. reflexivity.
Qed.

Lemma read_filtered_range wire e : 0 ≤ read_electrode_filtered_data wire e < 65536.
Proof.
  unfold read_electrode_filtered_data.
  destruct (e >=? TOUCH_ELECTRODE_COUNT); [lia |].
  destruct wire as [[lsb msb] |]; [apply u16_range | lia].
Qed.

Lemma update_cells filtered_wire baseline_wire config now readings now_cal st :
  g_calibration_initialized st = true → calibration_state_wf st →
  byte_wire readings → calibration_cells_u16 (g_calibration_data st) →
  let g := g_calibration_data st in
  let st' := touch_calibration_update filtered_wire baseline_wire config now
               readings now_cal st in
  let g' := g_calibration_data st' in
  let due := calibration_due config now st in
  let recal := calibration_needed g || drift_detected baseline_wire g || due in
  calibration_state_wf st' ∧
  calibration_needed g' = false ∧
  g_calibration_initialized st' = true ∧
  g_last_auto_calibration st' = (if due then now else g_last_auto_calibration st) ∧
  (recal = false →
   (baseline g', electrode_enabled g', last_calibration_time g', last_filtered st')
   = (baseline g, electrode_enabled g, last_calibration_time g, last_filtered st)) ∧
  (recal = true → last_calibration_time g' = now_cal) ∧
  ∀ e, 0 ≤ e < 12 →
       let filtered' := if arr_get false (electrode_enabled g) e
                        then read_electrode_filtered_data (filtered_wire e) e
                        else arr_get 0 (filtered_data g) e in
       let avg := captured_average readings e in
       arr_get 0 (filtered_data g') e = filtered' ∧
       arr_get 0 (touch_delta g') e = Z.max 0 (arr_get 0 (baseline g) e - filtered') ∧
       (recal = true →
        arr_get 0 (baseline g') e
        = (if arr_get false (electrode_enabled g) e then avg else 0) ∧
        arr_get false (electrode_enabled g') e
        = arr_get false (electrode_enabled g) e && (50 <=? avg)
          && (noise_level filtered' (arr_get 0 (last_filtered st) e) <=? 100)).
Proof.
  intros Hinit Hwf Hw Hu16. cbv zeta.
  unfold touch_calibration_update. rewrite Hinit. cbn [negb]. cbv zeta.
  destruct Hwf as (Hg & Hlf).
  destruct (refresh_cells filtered_wire (g_calibration_data st) Hg)
    as (filtered & -> & Hfl & Hfc).
  assert (Hg1 : calibration_wf (set_filtered_data (g_calibration_data st) filtered)).
  { destruct Hg as (? & ? & ? & ?). repeat split; assumption. }
  destruct (calculate_touch_deltas_cells _ Hg1) as (deltas & -> & Hdl & Hdc).
  rewrite (drift_detected_fields baseline_wire (g_calibration_data st))
    by reflexivity.
  fold (calibration_due config now st).
  generalize (drift_detected baseline_wire (g_calibration_data st)) as drift.
  generalize (calibration_due config now st) as due.
  intros due drift.
  assert (Hcell : ∀ e, 0 ≤ e < 12 →
            arr_get 0 filtered e
            = (if arr_get false (electrode_enabled (g_calibration_data st)) e
               then read_electrode_filtered_data (filtered_wire e) e
               else arr_get 0 (filtered_data (g_calibration_data st)) e) ∧
            arr_get 0 deltas e
            = Z.max 0 (arr_get 0 (baseline (g_calibration_data st)) e
                       - arr_get 0 filtered e)).
  { intros e He. split; [apply Hfc, He |]. rewrite (Hdc e He).
    cbn [set_filtered_data baseline filtered_data].
    assert (Hfr : 0 ≤ arr_get 0 filtered e < 65536).
    { rewrite (Hfc e He).
      destruct (arr_get false (electrode_enabled (g_calibration_data st)) e);
        [apply read_filtered_range | apply Hu16, He]. }
    destruct (Hu16 e He) as [Hbr _].
    destruct (Z.gtb_spec (arr_get 0 (baseline (g_calibration_data st)) e)
                (arr_get 0 filtered e)).
    - unfold u16. rewrite Z.mod_small by lia. lia.
    - lia. }
  clear Hfc Hdc.
  destruct st as [g ini auto lf]. destruct g as [b f d en t n].
  cbn [set_filtered_data set_touch_delta set_calibration_needed g_calibration_data
       baseline filtered_data touch_delta electrode_enabled last_calibration_time
       calibration_needed g_calibration_initialized g_last_auto_calibration
       last_filtered] in *.
  subst ini.
  destruct Hg as (Hb & Hf & Hd & Hen).
  cbn [baseline filtered_data touch_delta electrode_enabled] in Hb, Hf, Hd, Hen.
  assert (Hrun : ∀ auto',
            let stm := {| g_calibration_data :=
                            {| baseline := b; filtered_data := filtered;
                               touch_delta := deltas; electrode_enabled := en;
                               last_calibration_time := t;
                               calibration_needed := true |};
                          g_calibration_initialized := true;
                          g_last_auto_calibration := auto';
                          last_filtered := lf |} in
            let st' := snd (touch_calibration_perform_baseline readings now_cal stm) in
            calibration_state_wf st' ∧
            calibration_needed (g_calibration_data st') = false ∧
            g_calibration_initialized st' = true ∧
            g_last_auto_calibration st' = auto' ∧
            last_calibration_time (g_calibration_data st') = now_cal ∧
            ∀ e, 0 ≤ e < 12 →
                 arr_get 0 (filtered_data (g_calibration_data st')) e
                 = arr_get 0 filtered e ∧
                 arr_get 0 (touch_delta (g_calibration_data st')) e
                 = arr_get 0 deltas e ∧
                 arr_get 0 (baseline (g_calibration_data st')) e
                 = (if arr_get false en e then captured_average readings e else 0) ∧
                 arr_get false (electrode_enabled (g_calibration_data st')) e
                 = arr_get false en e && (50 <=? captured_average readings e)
                   && (noise_level (arr_get 0 filtered e) (arr_get 0 lf e) <=? 100)).
  { intros auto'. cbv zeta.
    pose proof (perform_baseline_cells readings now_cal
                  {| g_calibration_data :=
                       {| baseline := b; filtered_data := filtered;
                          touch_delta := deltas; electrode_enabled := en;
                          last_calibration_time := t; calibration_needed := true |};
                     g_calibration_initialized := true;
                     g_last_auto_calibration := auto';
                     last_filtered := lf |} eq_refl
                  ltac:(repeat split; assumption) Hw) as Hp.
    cbv zeta in Hp.
    cbn [g_calibration_data baseline filtered_data touch_delta electrode_enabled
         last_calibration_time calibration_needed g_calibration_initialized
         g_last_auto_calibration last_filtered] in Hp.
    destruct Hp as (_ & Hwf' & Hf' & Hd' & Hn' & Ht' & Hi' & Ha' & Hcells).
    split; [exact Hwf' |]. split; [exact Hn' |]. split; [exact Hi' |].
    split; [exact Ha' |]. split; [exact Ht' |].
    intros e He. destruct (Hcells e He) as (_ & Hbe & Hene & _).
    rewrite Hf', Hd'. split; [reflexivity |]. split; [reflexivity |].
    split; [exact Hbe | exact Hene]. }
  cbv zeta in Hrun.
  assert (Hrecal : ∀ auto' : Z, n || drift || due = true →
            let st' := snd (touch_calibration_perform_baseline readings now_cal
                              {| g_calibration_data :=
                                   {| baseline := b; filtered_data := filtered;
                                      touch_delta := deltas; electrode_enabled := en;
                                      last_calibration_time := t;
                                      calibration_needed := true |};
                                 g_calibration_initialized := true;
                                 g_last_auto_calibration := auto';
                                 last_filtered := lf |}) in
            calibration_state_wf st' ∧
            calibration_needed (g_calibration_data st') = false ∧
            g_calibration_initialized st' = true ∧
            g_last_auto_calibration st' = auto' ∧
            (n || drift || due = false →
             (baseline (g_calibration_data st'),
              electrode_enabled (g_calibration_data st'),
              last_calibration_time (g_calibration_data st'), last_filtered st')
             = (b, en, t, lf)) ∧
            (n || drift || due = true →
             last_calibration_time (g_calibration_data st') = now_cal) ∧
            ∀ e, 0 ≤ e < 12 →
                 arr_get 0 (filtered_data (g_calibration_data st')) e
                 = (if arr_get false en e
                    then read_electrode_filtered_data (filtered_wire e) e
                    else arr_get 0 f e) ∧
                 arr_get 0 (touch_delta (g_calibration_data st')) e
                 = Z.max 0 (arr_get 0 b e
                            - (if arr_get false en e
                               then read_electrode_filtered_data (filtered_wire e) e
                               else arr_get 0 f e)) ∧
                 (n || drift || due = true →
                  arr_get 0 (baseline (g_calibration_data st')) e
                  = (if arr_get false en e then captured_average readings e else 0) ∧
                  arr_get false (electrode_enabled (g_calibration_data st')) e
                  = arr_get false en e && (50 <=? captured_average readings e)
                    && (noise_level (if arr_get false en e
                                     then read_electrode_filtered_data
                                            (filtered_wire e) e
                                     else arr_get 0 f e)
                                    (arr_get 0 lf e) <=? 100))).
  { intros auto' Hyes. cbv zeta.
    destruct (Hrun auto') as (Hwf' & Hn' & Hi' & Ha' & Ht' & Hcells).
    split; [exact Hwf' |]. split; [exact Hn' |]. split; [exact Hi' |].
    split; [exact Ha' |]. split; [rewrite Hyes; discriminate |].
    split; [intros _; exact Ht' |].
    intros e He. destruct (Hcell e He) as [Hce Hde].
    destruct (Hcells e He) as (Hfe & Hdle & Hbe & Hene).
    rewrite Hfe, Hdle, <- Hce. split; [reflexivity |]. split; [exact Hde |].
    intros _. split; [exact Hbe | exact Hene]. }
  cbv zeta in Hrecal. clear Hrun.
  destruct due, drift, n;
    cbn [set_calibration_needed calibration_needed baseline filtered_data
         touch_delta electrode_enabled last_calibration_time orb] in Hrecal |- *;
    try (apply Hrecal; reflexivity).
  split; [repeat split; assumption |]. split; [reflexivity |].
  split; [reflexivity |]. split; [reflexivity |]. split; [reflexivity |].
  split; [discriminate |].
  intros e He. destruct (Hcell e He) as [Hce Hde].
  cbn [g_calibration_data filtered_data touch_delta].
  rewrite <- Hce. split; [reflexivity |]. split; [exact Hde |]. discriminate.
Qed.

Lemma drift_loop_iff baseline_wire g (l : list Z) :
  ∀ acc,
    foldl (drift_body baseline_wire g) acc l = true ↔
    acc = true ∨
    ∃ i, i ∈ l ∧ arr_get false (electrode_enabled g) i = true ∧
         BASELINE_DRIFT_THRESHOLD
         < i16 (Z.abs (i16 (read_electrode_baseline (baseline_wire i) i)
                       - i16 (arr_get 0 (baseline g) i))).
Proof.
  induction l as [| x l IH]; intros acc.
  - cbn [foldl]. split; [left; assumption |].
    intros [H | (i & Hi & _)]; [exact H | inversion Hi].
  - cbn [foldl]. rewrite IH. unfold drift_body at 1. cbv zeta.
    destruct (arr_get false (electrode_enabled g) x) eqn:Hen; cbn [negb].
    + destruct (Z.gtb_spec
                  (i16 (Z.abs (i16 (read_electrode_baseline (baseline_wire x) x)
                               - i16 (arr_get 0 (baseline g) x))))
                  BASELINE_DRIFT_THRESHOLD) as [Hgt | Hle].
      * split; [| left; reflexivity]. intros _. right. exists x.
        split; [apply list_elem_of_here |]. split; [exact Hen | exact Hgt].
      * split.
        -- intros [H | (i & Hi & He & Hd)]; [left; exact H |].
           right. exists i. split; [apply list_elem_of_further, Hi |].
           split; assumption.
        -- intros [H | (i & Hi & He & Hd)]; [left; exact H |].
           apply elem_of_cons in Hi. destruct Hi as [-> | Hi]; [lia |].
           right. exists i. repeat split; assumption.
    + split.
      * intros [H | (i & Hi & He & Hd)]; [left; exact H |].
        right. exists i. split; [apply list_elem_of_further, Hi |].
        split; assumption.
      * intros [H | (i & Hi & He & Hd)]; [left; exact H |].
        apply elem_of_cons in Hi. destruct Hi as [-> | Hi]; [congruence |].
        right. exists i. repeat split; assumption.
Qed.

(** X24.  [touch_calibration_update] does nothing before the engine is
    initialised.  Afterwards it refreshes the filtered count of every
    enabled electrode from the bus and leaves that of a disabled one;
    each delta becomes the drop of the refreshed count below the baseline
    held before the call, zero when there is none; it then recalibrates
    exactly when a calibration was pending, or an enabled electrode's
    baseline register differs from the stored baseline by more than 50,
    or auto-calibration is on and the interval has run out (which also
    restarts the interval).  Without recalibration baselines, enabled
    flags and the health check's memory stay; with it the baseline is the
    captured average and the health check judges the refreshed count.
    No calibration is pending when the call returns. *)
Theorem calibration_update_effect filtered_wire baseline_wire config now readings
    now_cal st e :
  calibration_state_wf st → byte_wire readings →
  calibration_cells_u16 (g_calibration_data st) → 0 ≤ e < 12 →
  let g := g_calibration_data st in
  let st' := touch_calibration_update filtered_wire baseline_wire config now
               readings now_cal st in
  let g' := g_calibration_data st' in
  let due := calibration_due config now st in
  let recal := calibration_needed g || drift_detected baseline_wire g || due in
  let filtered' := if arr_get false (electrode_enabled g) e
                   then read_electrode_filtered_data (filtered_wire e) e
                   else arr_get 0 (filtered_data g) e in
  let avg := captured_average readings e in
  (g_calibration_initialized st = false → st' = st) ∧
  (drift_detected baseline_wire g = true ↔
   ∃ i, 0 ≤ i < 12 ∧ arr_get false (electrode_enabled g) i = true ∧
        50 < i16 (Z.abs (i16 (read_electrode_baseline (baseline_wire i) i)
                         - i16 (arr_get 0 (baseline g) i)))) ∧
  (g_calibration_initialized st = true →
   calibration_needed g' = false ∧
   g_last_auto_calibration st' = (if due then now else g_last_auto_calibration st) ∧
   arr_get 0 (filtered_data g') e = filtered' ∧
   arr_get 0 (touch_delta g') e = Z.max 0 (arr_get 0 (baseline g) e - filtered') ∧
   (recal = false →
    (baseline g', electrode_enabled g', last_calibration_time g', last_filtered st')
    = (baseline g, electrode_enabled g, last_calibration_time g, last_filtered st)) ∧
   (recal = true →
    last_calibration_time g' = now_cal ∧
    arr_get 0 (baseline g') e
    = (if arr_get false (electrode_enabled g) e then avg else 0) ∧
    arr_get false (electrode_enabled g') e
    = arr_get false (electrode_enabled g) e && (50 <=? avg)
      && (noise_level filtered' (arr_get 0 (last_filtered st) e) <=? 100))).
Proof.
  intros Hwf Hw Hu16 He. cbv zeta. split; [| split].
  - intros Hoff. unfold touch_calibration_update. rewrite Hoff. reflexivity.
  - unfold drift_detected. rewrite drift_loop_iff. split.
    + intros [H | (i & Hi & Hen & Hd)]; [discriminate |].
      exists i. apply elem_of_seqZ in Hi. unfold TOUCH_ELECTRODE_COUNT in Hi.
      split; [lia |]. split; assumption.
    + intros (i & Hi & Hen & Hd). right. exists i.
      split; [apply elem_of_seqZ; unfold TOUCH_ELECTRODE_COUNT; lia |].
      split; assumption.
  - intros Hon.
    destruct (update_cells filtered_wire baseline_wire config now readings now_cal
                st Hon Hwf Hw Hu16)
      as (_ & Hn & _ & Ha & Hkeep & Ht & Hcells).
    destruct (Hcells e He) as (Hfe & Hde & Hre).
    split; [exact Hn |]. split; [exact Ha |]. split; [exact Hfe |].
    split; [exact Hde |]. split; [exact Hkeep |].
    intros Hyes. split; [apply Ht, Hyes | apply Hre, Hyes].
Qed.

Lemma started_calibration_u16 : calibration_cells_u16 (g_calibration_data started_calibration).
Proof.
  intros i Hi. cbn [started_calibration g_calibration_data baseline filtered_data].
  rewrite arr_get_replicate_zero. lia.
Qed.

Lemma calibration_update_effect_witness :
  touch_calibration_update resting_filtered_wire steady_baseline_wire
    TOUCH_CONFIG_DEFAULT 2000 steady_wire 2200 boot_calibration
  = boot_calibration ∧
  calibration_needed
    (g_calibration_data
       (touch_calibration_update resting_filtered_wire steady_baseline_wire
          TOUCH_CONFIG_DEFAULT 2000 steady_wire 2200 started_calibration))
  = false.
Proof.
  split.
  - destruct (calibration_update_effect resting_filtered_wire steady_baseline_wire
                TOUCH_CONFIG_DEFAULT 2000 steady_wire 2200 boot_calibration 0)
      as [H _].
    + repeat split.
    + exact steady_wire_bytes.
    + intros i Hi. cbn [boot_calibration g_calibration_data baseline filtered_data].
      rewrite arr_get_replicate_zero. lia.
    + lia.
    + apply H. reflexivity.
  - destruct (calibration_update_effect resting_filtered_wire steady_baseline_wire
                TOUCH_CONFIG_DEFAULT 2000 steady_wire 2200 started_calibration 0)
      as (_ & _ & H).
    + repeat split.
    + exact steady_wire_bytes.
    + exact started_calibration_u16.
    + lia.
    + destruct (H eq_refl) as [Hn _]. exact Hn.
Defined.

(** *** Initialisation and factory reset *)

Lemma enable_all_cells (a : list bool) :
  length a = 12%nat →
  length (foldl (λ a i, arr_set a i true) a (seqZ 0 TOUCH_ELECTRODE_COUNT)) = 12%nat ∧
  ∀ e, 0 ≤ e < 12 →
       arr_get false (foldl (λ a i, arr_set a i true) a
                            (seqZ 0 TOUCH_ELECTRODE_COUNT)) e = true.
Proof.
  intros Hlen.
  destruct (copy_loop_spec false (λ _, true) (seqZ 0 TOUCH_ELECTRODE_COUNT) a)
    as [Hl Hget].
  - intros i Hi. apply (electrodes_in_range _ i Hlen Hi).
  - split; [rewrite Hl; exact Hlen |].
    intros e He. rewrite (Hget e) by lia. rewrite electrode_decide by lia.
    reflexivity.
Qed.

Lemma noise_level_from_zero f : 0 ≤ f < 32768 → noise_level f 0 = f.
Proof.
  intros Hf. unfold noise_level, i16, u16.
  rewrite (Z.mod_small (f + 32768)) by lia.
  change ((0 + 32768) mod 65536 - 32768) with 0.
  replace (f + 32768 - 32768 - 0) with f by lia.
  rewrite Z.abs_eq by lia. apply Z.mod_small. lia.
Qed.

Lemma read_filtered_bytes e lsb msb :
  0 ≤ e < 12 → 0 ≤ lsb ≤ 255 → 0 ≤ msb ≤ 255 →
  read_electrode_filtered_data (Some (lsb, msb)) e = msb * 256 + lsb.
Proof.
  intros He Hl Hm. unfold read_electrode_filtered_data, TOUCH_ELECTRODE_COUNT.
  replace (e >=? 12) with false by (symmetry; lia).
  unfold u16. rewrite (Z.mod_small msb), (Z.mod_small lsb) by lia.
  rewrite byte_or_shift by lia. apply Z.mod_small. lia.
Qed.

(** X25.  The first update after initialisation.  [touch_calibration_init]
    enables every electrode, clears the arrays and asks for a calibration,
    whatever the statics held.  When the health check has seen nothing yet
    (its memory is zero, as at start-up), the update that follows the
    initialisation refreshes the filtered counts, finds every delta zero
    against the cleared baselines, captures the baselines and keeps an
    electrode enabled exactly when its averaged baseline byte is at least
    50 and its filtered count is at most 100: an electrode whose first
    filtered count exceeds 100 is disabled by its first calibration. *)
Theorem first_update_after_init t t' filtered_wire baseline_wire config now readings
    now_cal st0 e lsb msb :
  last_filtered st0 = replicate 12 0 → byte_wire readings → 0 ≤ e < 12 →
  filtered_wire e = Some (lsb, msb) → 0 ≤ lsb ≤ 255 → 0 ≤ msb ≤ 127 →
  let st1 := snd (touch_calibration_init t t' st0) in
  let st2 := touch_calibration_update filtered_wire baseline_wire config now
               readings now_cal st1 in
  let g2 := g_calibration_data st2 in
  fst (touch_calibration_init t t' st0) = true ∧
  g_calibration_initialized st1 = true ∧
  calibration_needed (g_calibration_data st1) = true ∧
  arr_get false (electrode_enabled (g_calibration_data st1)) e = true ∧
  arr_get 0 (filtered_data g2) e = msb * 256 + lsb ∧
  arr_get 0 (touch_delta g2) e = 0 ∧
  arr_get 0 (baseline g2) e = captured_average readings e ∧
  arr_get false (electrode_enabled g2) e
  = (50 <=? captured_average readings e) && (msb * 256 + lsb <=? 100) ∧
  calibration_needed g2 = false ∧ last_calibration_time g2 = now_cal.
Proof.
  intros Hlf Hw He Hwire Hl Hm. cbv zeta.
  destruct (enable_all_cells (replicate (Z.to_nat TOUCH_ELECTRODE_COUNT) false)
              eq_refl) as [Hel Hec].
  assert (Hwf1 : calibration_state_wf (snd (touch_calibration_init t t' st0))).
  { unfold touch_calibration_init. cbv zeta. cbn [snd].
    split; [split; [| split; [| split]] |];
      cbn [g_calibration_data baseline filtered_data touch_delta electrode_enabled
           last_filtered];
      [reflexivity | reflexivity | reflexivity | exact Hel | rewrite Hlf; reflexivity]. }
  assert (Hu1 : calibration_cells_u16
                  (g_calibration_data (snd (touch_calibration_init t t' st0)))).
  { intros i Hi. unfold touch_calibration_init. cbv zeta.
    cbn [snd g_calibration_data baseline filtered_data].
    rewrite arr_get_replicate_zero. lia. }
  destruct (update_cells filtered_wire baseline_wire config now readings now_cal
              (snd (touch_calibration_init t t' st0)) eq_refl Hwf1 Hw Hu1)
    as (_ & Hn & _ & _ & _ & Ht & Hcells).
  destruct (Hcells e He) as (Hfe & Hde & Hre).
  specialize (Hre eq_refl). destruct Hre as [Hbe Hene].
  specialize (Ht eq_refl).
  revert Hn Ht Hfe Hde Hbe Hene.
  generalize (touch_calibration_update filtered_wire baseline_wire config now
                readings now_cal (snd (touch_calibration_init t t' st0))).
  intros st2. unfold touch_calibration_init. cbv zeta.
  cbn [fst snd g_calibration_data baseline filtered_data touch_delta
       electrode_enabled calibration_needed g_calibration_initialized last_filtered].
  rewrite (Hec e He), Hlf, !arr_get_replicate_zero, Hwire.
  rewrite (read_filtered_bytes e lsb msb He Hl) by lia. cbn [andb].
  rewrite (noise_level_from_zero (msb * 256 + lsb)) by lia.
  intros Hn Ht Hfe Hde Hbe Hene.
  split; [reflexivity |]. split; [reflexivity |]. split; [reflexivity |].
  split; [reflexivity |]. split; [exact Hfe |]. split; [rewrite Hde; lia |].
  split; [exact Hbe |]. split; [exact Hene |]. split; [exact Hn | exact Ht].
Qed.

Lemma first_update_after_init_witness :
  arr_get false
    (electrode_enabled
       (g_calibration_data
          (touch_calibration_update resting_filtered_wire steady_baseline_wire
             TOUCH_CONFIG_DEFAULT 2000 steady_wire 2200
             (snd (touch_calibration_init 1000 1000 boot_calibration))))) 0
  = false.
Proof.
  destruct (first_update_after_init 1000 1000 resting_filtered_wire
              steady_baseline_wire TOUCH_CONFIG_DEFAULT 2000 steady_wire 2200
              boot_calibration 0 44 2)
    as (_ & _ & _ & _ & _ & _ & _ & Hen & _).
  - reflexivity.
  - exact steady_wire_bytes.
  - lia.
  - reflexivity.
  - lia.
  - lia.
  - rewrite Hen. reflexivity.
Defined.

(** X26.  [touch_calibration_reset_to_factory] enables every electrode,
    clears baselines, filtered counts and deltas and asks for a
    calibration; the profile becomes the factory one, the controller holds
    its thresholds, and a writable store then loads back as the factory
    profile.  It leaves the initialised flag and the health check's memory
    as they were. *)
Theorem reset_to_factory_restores_defaults writable now st m e :
  calibration_state_wf st → manager_wf m → 0 ≤ e < 12 →
  let r := touch_calibration_reset_to_factory writable now st m in
  let g' := g_calibration_data (fst r) in
  arr_get false (electrode_enabled g') e = true ∧
  (baseline g', filtered_data g', touch_delta g')
  = (replicate 12 0, replicate 12 0, replicate 12 0) ∧
  calibration_needed g' = true ∧ last_calibration_time g' = now ∧
  (g_calibration_initialized (fst r), last_filtered (fst r))
  = (g_calibration_initialized st, last_filtered st) ∧
  g_touch_config (snd r) = TOUCH_CONFIG_DEFAULT ∧
  g_mpr121 (snd r) = profile_thresholds TOUCH_CONFIG_DEFAULT ∧
  (writable = true →
   ∀ c0, config_wf c0 →
         touch_config_load_from_nvs (g_preferences (snd r)) c0
         = (true, TOUCH_CONFIG_DEFAULT)) ∧
  (writable = false → g_preferences (snd r) = g_preferences m).
Proof.
  intros ((_ & _ & _ & Hen) & _) (Hwf & Hwheel & Hregs) He. cbv zeta.
  unfold touch_calibration_reset_to_factory. cbv zeta. cbn [fst snd].
  destruct (enable_all_cells _ Hen) as [_ Hec].
  cbn [set_calibration_data g_calibration_data baseline filtered_data touch_delta
       electrode_enabled calibration_needed last_calibration_time
       g_calibration_initialized last_filtered].
  split; [apply Hec, He |]. split; [reflexivity |]. split; [reflexivity |].
  split; [reflexivity |]. split; [reflexivity |].
  cbn [set_manager_config g_touch_config].
  rewrite (init_defaults_factory _ Hwf).
  rewrite apply_config_valid by (repeat split; assumption).
  cbn [fst snd set_manager_config set_manager_mpr121 set_manager_preferences
       g_touch_config g_mpr121 g_preferences].
  split; [reflexivity |]. split; [reflexivity |]. split.
  - intros -> c0 Hc0. apply saved_profile_loads; [split; reflexivity | exact Hc0 | reflexivity].
  - intros ->. reflexivity.
Qed.

Lemma reset_to_factory_restores_defaults_witness :
  g_touch_config (snd (touch_calibration_reset_to_factory true 5000
                         started_calibration zeroed_manager))
  = TOUCH_CONFIG_DEFAULT.
Proof.
  destruct (reset_to_factory_restores_defaults true 5000 started_calibration
              zeroed_manager 0)
    as (_ & _ & _ & _ & _ & Hc & _); [repeat split | repeat split | lia |].
  exact Hc.
Defined.

(** *** The auto-tuner *)

Lemma auto_tune_body_step g ch c x :
  config_wf c → 0 ≤ x < 12 →
  let r := auto_tune_body g (ch, c) x in
  config_wf (snd r) ∧ profile_scalars (snd r) = profile_scalars c ∧
  fst r = ch || tune_wanted g c x ∧
  threshold_pair (snd r) x
  = (if tune_wanted g c x then recommended g x else threshold_pair c x) ∧
  ∀ e, 0 ≤ e → e ≠ x → threshold_pair (snd r) e = threshold_pair c e.
Proof.
  intros Hwf Hx. cbv zeta.
  unfold auto_tune_body, tune_wanted, recommended. cbn [fst snd].
  destruct (arr_get false (electrode_enabled g) x); cbn [negb andb].
  - destruct (Z.abs _ >? 2).
    + cbn [fst snd]. destruct Hwf as [Ht Hr].
      split; [apply set_thresholds_wf; split; assumption |].
      split; [destruct c; reflexivity |].
      split; [symmetry; apply orb_true_r |].
      unfold threshold_pair. destruct c as [gl tt rt cp sp dc fc ac ci].
      cbn [set_release_threshold set_touch_threshold touch_threshold
           release_threshold] in *.
      split.
      * rewrite !arr_get_set_eq by lia. reflexivity.
      * intros e He Hne. rewrite !arr_get_set_ne by lia. reflexivity.
    + cbn [fst snd]. rewrite orb_false_r.
      split; [exact Hwf |]. split; [reflexivity |]. split; [reflexivity |].
      split; [reflexivity |]. intros; reflexivity.
  - cbn [fst snd]. rewrite orb_false_r.
    split; [exact Hwf |]. split; [reflexivity |]. split; [reflexivity |].
    split; [reflexivity |]. intros; reflexivity.
Qed.

Lemma tune_wanted_pair g c c' e :
  threshold_pair c' e = threshold_pair c e → tune_wanted g c' e = tune_wanted g c e.
Proof.
  unfold threshold_pair, tune_wanted. intros [= Ht _]. rewrite Ht. reflexivity.
Qed.

Lemma auto_tune_loop g (l : list Z) :
  NoDup l → (∀ e, e ∈ l → 0 ≤ e < 12) →
  ∀ ch c,
    config_wf c →
    let r := foldl (auto_tune_body g) (ch, c) l in
    config_wf (snd r) ∧ profile_scalars (snd r) = profile_scalars c ∧
    (fst r = true ↔ ch = true ∨ ∃ e, e ∈ l ∧ tune_wanted g c e = true) ∧
    ∀ e, 0 ≤ e →
         threshold_pair (snd r) e
         = (if bool_decide (e ∈ l) && tune_wanted g c e then recommended g e
            else threshold_pair c e).
Proof.
  induction l as [| x l IH]; intros Hnd Hl ch c Hwf; cbv zeta.
  - cbn [foldl fst snd]. split; [exact Hwf |]. split; [reflexivity |]. split.
    + split; [left; assumption |].
      intros [H | (e & He & _)]; [exact H | inversion He].
    + intros e He. reflexivity.
  - cbn [foldl]. apply NoDup_cons in Hnd. destruct Hnd as [Hx Hnd].
    assert (Hxr : 0 ≤ x < 12) by (apply Hl, list_elem_of_here).
    destruct (auto_tune_body_step g ch c x Hwf Hxr)
      as (Hwf1 & Hsc1 & Hch1 & Hpx & Hpo).
    destruct (auto_tune_body g (ch, c) x) as [ch1 c1]. cbn [fst snd] in *.
    destruct (IH Hnd ltac:(intros e He; apply Hl, list_elem_of_further, He)
                ch1 c1 Hwf1) as (Hwf2 & Hsc2 & Hch2 & Hp2).
    split; [exact Hwf2 |]. split; [rewrite Hsc2; exact Hsc1 |]. split.
    + rewrite Hch2, Hch1. split.
      * intros [H | (e & He & Hw)].
        -- apply orb_true_iff in H. destruct H as [H | H]; [left; exact H |].
           right. exists x. split; [apply list_elem_of_here | exact H].
        -- right. exists e. split; [apply list_elem_of_further, He |].
           rewrite <- Hw. symmetry. apply tune_wanted_pair, Hpo.
           ++ specialize (Hl e ltac:(apply list_elem_of_further, He)). lia.
           ++ intros ->. contradiction.
      * intros [H | (e & He & Hw)]; [left; rewrite H; reflexivity |].
        apply elem_of_cons in He. destruct He as [-> | He].
        -- left. rewrite Hw. apply orb_true_r.
        -- right. exists e. split; [exact He |]. rewrite <- Hw.
           apply tune_wanted_pair, Hpo.
           ++ specialize (Hl e ltac:(apply list_elem_of_further, He)). lia.
           ++ intros ->. contradiction.
    + intros e He. rewrite (Hp2 e He).
      destruct (Z.eq_dec e x) as [-> | Hne].
      * rewrite (bool_decide_eq_false_2 _ Hx).
        rewrite bool_decide_eq_true_2 by apply list_elem_of_here.
        cbn [andb]. exact Hpx.
      * rewrite (tune_wanted_pair g c c1 e (Hpo e He Hne)), (Hpo e He Hne).
        destruct (bool_decide (e ∈ l)) eqn:Hel.
        -- apply bool_decide_eq_true in Hel.
           rewrite bool_decide_eq_true_2 by (apply list_elem_of_further, Hel).
           reflexivity.
        -- apply bool_decide_eq_false in Hel.
           rewrite bool_decide_eq_false_2
             by (intros Hin; apply elem_of_cons in Hin; tauto).
           reflexivity.
Qed.

Lemma auto_tune_loop_idle g (l : list Z) :
  ∀ ch c,
    (∀ e, e ∈ l → tune_wanted g c e = false) →
    foldl (auto_tune_body g) (ch, c) l = (ch, c).
Proof.
  induction l as [| x l IH]; intros ch c Hidle; [reflexivity |].
  cbn [foldl].
  assert (Hstep : auto_tune_body g (ch, c) x = (ch, c)).
  { specialize (Hidle x (list_elem_of_here x l)).
    unfold tune_wanted, recommended in Hidle. cbn [fst] in Hidle.
    unfold auto_tune_body. cbn [snd].
    destruct (arr_get false (electrode_enabled g) x); cbn [negb andb] in *;
      [| reflexivity].
    rewrite Hidle. reflexivity. }
  rewrite Hstep. apply IH. intros e He. apply Hidle, list_elem_of_further, He.
Qed.

(** X27.  The auto-tuner settles in one run.
    [touch_calibration_auto_tune_sensitivity] gives the recommended pair to
    every enabled electrode whose touch threshold is more than 2 away
    from the recommendation and leaves every other electrode, the level
    and the other scalar fields as they were; it reports changes exactly
    when some electrode was rewritten; and a second run on the same
    calibration data changes nothing. *)
Theorem auto_tune_settles g c e :
  config_wf c → 0 ≤ e < 12 →
  let r := touch_calibration_auto_tune_sensitivity g c in
  threshold_pair (snd r) e
  = (if tune_wanted g c e then recommended g e else threshold_pair c e) ∧
  profile_scalars (snd r) = profile_scalars c ∧
  (fst r = true ↔ ∃ i, 0 ≤ i < 12 ∧ tune_wanted g c i = true) ∧
  touch_calibration_auto_tune_sensitivity g (snd r) = (false, snd r).
Proof.
  intros Hwf He. cbv zeta. unfold touch_calibration_auto_tune_sensitivity.
  destruct (auto_tune_loop g (seqZ 0 TOUCH_ELECTRODE_COUNT) (NoDup_seqZ _ _))
    with (ch := false) (c := c) as (Hwf' & Hsc & Hch & Hp); [| exact Hwf |].
  { intros i Hi. apply elem_of_seqZ in Hi. unfold TOUCH_ELECTRODE_COUNT in Hi. lia. }
  revert Hwf' Hsc Hch Hp.
  generalize (foldl (auto_tune_body g) (false, c) (seqZ 0 TOUCH_ELECTRODE_COUNT)).
  intros [ch' c'] Hwf' Hsc Hch Hp. cbn [fst snd] in *.
  split; [| split; [exact Hsc | split]].
  - rewrite (Hp e) by lia. rewrite electrode_decide by lia. reflexivity.
  - rewrite Hch. split.
    + intros [H | (i & Hi & Hw)]; [discriminate |].
      exists i. apply elem_of_seqZ in Hi. unfold TOUCH_ELECTRODE_COUNT in Hi.
      split; [lia | exact Hw].
    + intros (i & Hi & Hw). right. exists i.
      split; [apply elem_of_seqZ; unfold TOUCH_ELECTRODE_COUNT; lia | exact Hw].
  - apply auto_tune_loop_idle. intros i Hi.
    apply elem_of_seqZ in Hi. unfold TOUCH_ELECTRODE_COUNT in Hi.
    pose proof (Hp i ltac:(lia)) as Hpi. rewrite electrode_decide in Hpi by lia.
    cbn [andb] in Hpi. revert Hpi. unfold tune_wanted, threshold_pair.
    destruct (arr_get false (electrode_enabled g) i); [| reflexivity].
    cbn [andb].
    destruct (Z.abs (arr_get 0 (touch_threshold c) i - fst (recommended g i)) >? 2)
      eqn:Hfar; intros Hpi.
    + assert (Ht : arr_get 0 (touch_threshold c') i = fst (recommended g i))
        by (rewrite <- Hpi; reflexivity).
      rewrite Ht, Z.sub_diag. reflexivity.
    + assert (Ht : arr_get 0 (touch_threshold c') i = arr_get 0 (touch_threshold c) i)
        by (apply (f_equal fst) in Hpi; exact Hpi).
      rewrite Ht. exact Hfar.
Qed.

Lemma auto_tune_settles_witness :
  touch_calibration_auto_tune_sensitivity pressed_calibration
    (snd (touch_calibration_auto_tune_sensitivity pressed_calibration
            TOUCH_CONFIG_DEFAULT))
  = (false, snd (touch_calibration_auto_tune_sensitivity pressed_calibration
                   TOUCH_CONFIG_DEFAULT)).
Proof.
  destruct (auto_tune_settles pressed_calibration TOUCH_CONFIG_DEFAULT 0)
    as (_ & _ & _ & H); [split; reflexivity | lia |].
  exact H.
Defined.

(** ** The wheel's connection and thresholds *)

(** X28.  The controller follows the stored thresholds.  After any
    sequence of [touchWheelInit] and [touchWheelSetThresholds] calls from
    start-up, a connected wheel's controller holds exactly the pair
    [touchWheelGetThresholds] returns: thresholds set before the
    controller was found reach it when [touchWheelInit] finds it.  The
    controller has been written exactly when some initialisation found
    it.  The poller task exists exactly when some initialisation found
    the controller and its task creation succeeded, also after a later
    initialisation fails; so a wheel with its task has written the
    controller, while a connected wheel need not have a task:
    [touchWheelInit] reports success and writes the thresholds also when
    the task could not be created. *)
Theorem wheel_thresholds_in_step (calls : list wheel_call) :
  let l := foldl wheel_call_run wheel_link_init calls in
  (touchWheelIsConnected l = true →
   mpr_thresholds l = Some (touchWheelGetThresholds l)) ∧
  (mpr_thresholds l ≠ None ↔ ∃ created, CallInit true created ∈ calls) ∧
  (s_touchTask l = true ↔ CallInit true true ∈ calls) ∧
  (s_touchTask l = true → mpr_thresholds l ≠ None) ∧
  (s_touchTask l = false →
   touchWheelInit true false l
   = (true, {| s_connected := true;
               s_touchThresh := s_touchThresh l;
               s_releaseThresh := s_releaseThresh l;
               s_touchTask := false;
               mpr_thresholds := Some (touchWheelGetThresholds l) |})).
Proof.
  cbv zeta.
  assert (Hmain : ∀ calls,
    let l := foldl wheel_call_run wheel_link_init calls in
    (touchWheelIsConnected l = true →
     mpr_thresholds l = Some (touchWheelGetThresholds l)) ∧
    (mpr_thresholds l ≠ None ↔ ∃ created, CallInit true created ∈ calls) ∧
    (s_touchTask l = true ↔ CallInit true true ∈ calls)).
  { clear calls. intros calls. cbv zeta.
    induction calls as [| call calls IH] using rev_ind.
    - cbn. split; [discriminate |]. split.
      + split; [intros H; exfalso; apply H; reflexivity |].
        intros (created & H). inversion H.
      + split; [discriminate |]. intros H. inversion H.
    - rewrite foldl_app. cbn [foldl].
      destruct IH as (Hstep & Hwritten & Hever).
      set (l := foldl wheel_call_run wheel_link_init calls) in *. clearbody l.
      assert (Hin : ∀ c, c ∈ calls ++ [call] ↔ c ∈ calls ∨ c = call).
      { intros c. rewrite elem_of_app, list_elem_of_singleton. reflexivity. }
      destruct call as [[|] created | t r];
        cbn [wheel_call_run touchWheelInit touchWheelSetThresholds negb snd
             touchWheelIsConnected touchWheelGetThresholds s_connected
             s_touchThresh s_releaseThresh s_touchTask mpr_thresholds].
      + split; [reflexivity |]. split.
        * split; [| discriminate].
          intros _. exists created. apply Hin. right. reflexivity.
        * rewrite Hin. destruct (s_touchTask l) eqn:Ht; cbn [negb].
          -- split; [| reflexivity]. intros _. left. apply Hever. reflexivity.
          -- split.
             ++ intros ->. right. reflexivity.
             ++ intros [H | H]; [| injection H as <-; reflexivity].
                apply Hever in H. discriminate H.
      + split; [discriminate |]. split.
        * rewrite Hwritten. split.
          -- intros (c & H). exists c. apply Hin. left. exact H.
          -- intros (c & H). apply Hin in H.
             destruct H as [H | H]; [exists c; exact H | discriminate H].
        * rewrite Hever, Hin. split; [left; assumption |].
          intros [H | H]; [exact H | discriminate H].
      + unfold touchWheelIsConnected, touchWheelGetThresholds in *.
        split; [intros ->; reflexivity |]. split.
        * destruct (s_connected l) eqn:Hc; cbn [negb].
          -- split; [| discriminate]. intros _.
             assert (Hw : mpr_thresholds l ≠ None)
               by (rewrite (Hstep eq_refl); discriminate).
             apply Hwritten in Hw. destruct Hw as (c & H).
             exists c. apply Hin. left. exact H.
          -- rewrite Hwritten. split.
             ++ intros (c & H). exists c. apply Hin. left. exact H.
             ++ intros (c & H). apply Hin in H.
                destruct H as [H | H]; [exists c; exact H | discriminate H].
        * rewrite Hever, Hin. split; [left; assumption |].
          intros [H | H]; [exact H | discriminate H]. }
  destruct (Hmain calls) as (Hstep & Hwritten & Hever).
  split; [exact Hstep |]. split; [exact Hwritten |]. split; [exact Hever |].
  split.
  - intros Ht. apply Hwritten. exists true. apply Hever, Ht.
  - intros Ht. unfold touchWheelInit, touchWheelGetThresholds. cbn [negb].
    rewrite Ht. reflexivity.
Qed.

(** *** Enabling and disabling an electrode *)

(** X29.  Enabling or disabling an electrode, then updating.  Re-enabling
    an electrode, like [touch_calibration_force_recalibration], makes the
    next update recalibrate: the electrode gets the captured average as
    its baseline and stays enabled exactly when that average is at least
    50 and its refreshed filtered count is within 100 of the count the
    health check saw last.  A disabled electrode keeps its filtered count
    through the update and is still disabled after it, whether or not the
    update recalibrates. *)
Theorem enable_electrode_then_update filtered_wire baseline_wire config now readings
    now_cal st e enable g1 :
  g_calibration_initialized st = true → calibration_state_wf st →
  byte_wire readings → calibration_cells_u16 (g_calibration_data st) →
  0 ≤ e < 12 →
  touch_calibration_enable_electrode (g_calibration_data st) e enable = Some g1 →
  let update := touch_calibration_update filtered_wire baseline_wire config now
                  readings now_cal in
  let g2 := g_calibration_data (update (set_calibration_data st g1)) in
  let avg := captured_average readings e in
  calibration_needed g2 = false ∧
  (enable = true →
   last_calibration_time g2 = now_cal ∧
   arr_get 0 (baseline g2) e = avg ∧
   arr_get false (electrode_enabled g2) e
   = (50 <=? avg)
     && (noise_level (read_electrode_filtered_data (filtered_wire e) e)
                     (arr_get 0 (last_filtered st) e) <=? 100)) ∧
  (enable = false →
   arr_get false (electrode_enabled g2) e = false ∧
   arr_get 0 (filtered_data g2) e
   = arr_get 0 (filtered_data (g_calibration_data st)) e) ∧
  last_calibration_time
    (g_calibration_data (update (touch_calibration_force_recalibration st)))
  = now_cal.
Proof.
  intros Hinit Hwf Hw Hu16 He Hen. cbv zeta.
  destruct Hwf as ((Hb & Hf & Hd & Hel) & Hlf).
  unfold touch_calibration_enable_electrode, TOUCH_ELECTRODE_COUNT in Hen.
  replace (e >=? 12) with false in Hen by (symmetry; lia).
  unfold arr_write in Hen.
  replace ((0 <=? e) && (e <? Z.of_nat (length (electrode_enabled (g_calibration_data st)))))
    with true in Hen by (symmetry; apply andb_true_iff; lia).
  cbn [mbind option_bind] in Hen. injection Hen as <-.
  split; [| split; [| split]].
  - destruct enable.
    + destruct (update_cells filtered_wire baseline_wire config now readings now_cal
                  (set_calibration_data st
                     (set_calibration_needed
                        (set_electrode_enabled (g_calibration_data st)
                           (arr_set (electrode_enabled (g_calibration_data st)) e true))
                        true)))
        as (_ & Hn & _); try assumption.
      repeat split; cbn; try assumption. rewrite arr_set_length. exact Hel.
    + destruct (update_cells filtered_wire baseline_wire config now readings now_cal
                  (set_calibration_data st
                     (set_electrode_enabled (g_calibration_data st)
                        (arr_set (electrode_enabled (g_calibration_data st)) e false))))
        as (_ & Hn & _); try assumption.
      repeat split; cbn; try assumption. rewrite arr_set_length. exact Hel.
  - intros ->.
    destruct (update_cells filtered_wire baseline_wire config now readings now_cal
                (set_calibration_data st
                   (set_calibration_needed
                      (set_electrode_enabled (g_calibration_data st)
                         (arr_set (electrode_enabled (g_calibration_data st)) e true))
                      true)))
      as (_ & _ & _ & _ & _ & Ht & Hcells); try assumption.
    + repeat split; cbn; try assumption. rewrite arr_set_length. exact Hel.
    + destruct (Hcells e He) as (_ & _ & Hre).
      cbn [set_calibration_data set_calibration_needed set_electrode_enabled
           g_calibration_data calibration_needed electrode_enabled baseline
           filtered_data last_filtered orb] in Ht, Hre.
      rewrite arr_get_set_eq in Hre by lia.
      destruct (Hre eq_refl) as [Hbe Hene].
      split; [apply Ht; reflexivity |]. split; [exact Hbe | exact Hene].
  - intros ->.
    destruct (update_cells filtered_wire baseline_wire config now readings now_cal
                (set_calibration_data st
                   (set_electrode_enabled (g_calibration_data st)
                      (arr_set (electrode_enabled (g_calibration_data st)) e false))))
      as (_ & _ & _ & _ & Hkeep & _ & Hcells); try assumption.
    + repeat split; cbn; try assumption. rewrite arr_set_length. exact Hel.
    + destruct (Hcells e He) as (Hfe & _ & Hre).
      cbn [set_calibration_data set_electrode_enabled g_calibration_data
           calibration_needed electrode_enabled baseline filtered_data
           last_filtered] in Hkeep, Hfe, Hre.
      rewrite arr_get_set_eq in Hfe, Hre by lia.
      split; [| exact Hfe].
      match type of Hkeep with
      | ?recal = false → _ => destruct recal eqn:Hrecal
      end.
      * destruct (Hre eq_refl) as [_ Hene]. exact Hene.
      * specialize (Hkeep eq_refl).
        apply (f_equal (λ p, arr_get false (snd (fst (fst p))) e)) in Hkeep.
        cbn [fst snd] in Hkeep. rewrite Hkeep. apply arr_get_set_eq. lia.
  - destruct (update_cells filtered_wire baseline_wire config now readings now_cal
                (touch_calibration_force_recalibration st))
      as (_ & _ & _ & _ & _ & Ht & _); try assumption.
    + repeat split; assumption.
    + apply Ht. reflexivity.
Qed.

Lemma enable_electrode_then_update_witness :
  arr_get 0
    (baseline
       (g_calibration_data
          (touch_calibration_update resting_filtered_wire steady_baseline_wire
             TOUCH_CONFIG_DEFAULT 2000 steady_wire 2200
             (set_calibration_data started_calibration
                (set_calibration_needed
                   (set_electrode_enabled (g_calibration_data started_calibration)
                      (arr_set (electrode_enabled
                                  (g_calibration_data started_calibration)) 0 true))
                   true))))) 0
  = captured_average steady_wire 0.
Proof.
  destruct (enable_electrode_then_update resting_filtered_wire steady_baseline_wire
              TOUCH_CONFIG_DEFAULT 2000 steady_wire 2200 started_calibration 0 true
              (set_calibration_needed
                 (set_electrode_enabled (g_calibration_data started_calibration)
                    (arr_set (electrode_enabled
                                (g_calibration_data started_calibration)) 0 true))
                 true))
    as (_ & Hon & _).
  - reflexivity.
  - repeat split.
  - exact steady_wire_bytes.
  - exact started_calibration_u16.
  - lia.
  - reflexivity.
  - destruct (Hon eq_refl) as (_ & Hb & _). exact Hb.
Defined.

(* ===================================================================== *)
(** * Part IV.  The position estimator and the drain under preemption    *)
(* ===================================================================== *)

(** ** The position estimator *)

(** Products and quotients of the embedding agree with [SpecFloat] on
    every pair of the sample values. *)
Example F32Q_agrees_with_SpecFloat :
  Forall F32.representable binary32_factor_samples ∧
  forallb (λ x, forallb (agrees_with_spec_float_ratio x) binary32_factor_samples)
          binary32_factor_samples = true.
Proof.
  split; [| vm_compute; reflexivity].
  repeat constructor; vm_compute; reflexivity.
Qed.

Lemma TWO_PI_F_value : TWO_PI_F = 26353590 * 2 ^ 127.
Proof. vm_compute. reflexivity. Qed.

(** A negative angle of less than [2^-22], half a unit in the last place
    of [2 pi], is absorbed by the addition of [2 pi]. *)
Lemma F32_add_two_pi_absorbs a :
  - 2 ^ 127 < a < 0 → F32.add a TWO_PI_F = TWO_PI_F.
Proof.
  intros Ha. rewrite TWO_PI_F_value. unfold F32.add.
  assert (HP : 0 < 2 ^ 127) by (apply Z.pow_pos_nonneg; lia).
  assert (H128 : 2 ^ 128 = 2 * 2 ^ 127)
    by (rewrite <- Z.pow_succ_r; [reflexivity | lia]).
  assert (H151 : 2 ^ 151 = 16777216 * 2 ^ 127)
    by (change 16777216 with (2 ^ 24); rewrite <- Z.pow_add_r; [reflexivity | lia | lia]).
  assert (H152 : 2 ^ 152 = 33554432 * 2 ^ 127)
    by (change 33554432 with (2 ^ 25); rewrite <- Z.pow_add_r; [reflexivity | lia | lia]).
  set (x := a + 26353590 * 2 ^ 127).
  assert (Hx : 26353589 * 2 ^ 127 < x < 26353590 * 2 ^ 127) by (unfold x; lia).
  assert (Hlog : Z.log2 x = 151).
  { apply Z.log2_unique; [lia |]. change (Z.succ 151) with 152. lia. }
  unfold F32.rne. rewrite Z.sgn_pos, Z.abs_eq, Z.mul_1_l by lia.
  unfold F32.rne_mag, F32.ulp_exp. rewrite Hlog.
  change (Z.max 0 (151 - 23)) with 128. cbv zeta. rewrite H128.
  assert (Hq : x / (2 * 2 ^ 127) = 13176794).
  { symmetry. apply (Z.div_unique_pos x (2 * 2 ^ 127) 13176794 (x - 13176794 * (2 * 2 ^ 127))); lia. }
  assert (Hr : x mod (2 * 2 ^ 127) = x - 13176794 * (2 * 2 ^ 127)).
  { symmetry. apply (Z.mod_unique_pos x (2 * 2 ^ 127) 13176794); lia. }
  rewrite Hq, Hr.
  replace (2 * (x - 13176794 * (2 * 2 ^ 127)) <? 2 * 2 ^ 127) with false
    by (symmetry; apply Z.ltb_ge; lia).
  replace (2 * 2 ^ 127 <? 2 * (x - 13176794 * (2 * 2 ^ 127))) with true
    by (symmetry; apply Z.ltb_lt; lia).
  lia.
Qed.

Lemma position_of_full_turn :
  F32Q.div (F32Q.mul TWO_PI_F (F32.of_int 12)) TWO_PI_F = F32.of_int 12.
Proof. vm_compute. reflexivity. Qed.

(** C1, at the failing input.  The position estimator, with the C
    library's [cosf], [sinf] and [atan2f] as parameters, on a ring of 12
    slots: whenever [atan2f] answers the frame's vector with a negative
    angle of less than [2^-22], the sum [angle + 2 pi] rounds to [2 pi]
    and the position is exactly [12.0], the slot count itself, not a
    value below it. *)
Theorem position_estimate_reaches_slot_count cosf sinf atan2f w hw :
  s_orderCount w = 12 → 0 < totalMag (com_estimate w hw) →
  let v := com_vector cosf sinf (terms (com_estimate w hw)) 12 in
  - 2 ^ 127 < atan2f (snd v) (fst v) < 0 →
  let p := active_position (position_estimate cosf sinf atan2f) w
             (com_estimate w hw) in
  p = F32.of_int 12 ∧ ¬ (0 ≤ p < F32.of_int (s_orderCount w)).
Proof.
  intros Hcount Hmag v Ha. cbv zeta.
  assert (Hp : active_position (position_estimate cosf sinf atan2f) w
                 (com_estimate w hw) = F32.of_int 12).
  { unfold active_position.
    replace (totalMag (com_estimate w hw) >? 0) with true by (symmetry; lia).
    rewrite Hcount. unfold position_estimate. cbv zeta. fold v.
    replace (atan2f (snd v) (fst v) <? 0) with true by (symmetry; lia).
    rewrite (F32_add_two_pi_absorbs _ Ha). apply position_of_full_turn. }
  rewrite Hp, Hcount. split; [reflexivity | lia].
Qed.

Lemma position_estimate_reaches_slot_count_witness :
  active_position (position_estimate cosf_opposed sinf_opposed atan2f_opposed)
    touch_wheel_init (com_estimate touch_wheel_init opposed_frame)
  = F32.of_int 12.
Proof.
  destruct (position_estimate_reaches_slot_count cosf_opposed sinf_opposed
              atan2f_opposed touch_wheel_init opposed_frame) as [Hp _].
  - reflexivity.
  - vm_compute. reflexivity.
  - vm_compute. split; reflexivity.
  - exact Hp.
Defined.

(** The opposed frame, value by value: the two terms, the angles of their
    slots, the vector, the sum [angle + 2 pi] and the position. *)
Example opposed_frame_trace :
  com_estimate touch_wheel_init opposed_frame
  = {| terms := [(0, 3); (6, 1)]; totalMag := 4; maxStrength := 3 |} ∧
  slot_angle 12 0 = 0 ∧ slot_angle 12 6 = M_PI_F ∧
  com_vector cosf_opposed sinf_opposed [(0, 3); (6, 1)] 12
  = (F32.of_int 2, - (12303662 * 2 ^ 102)) ∧
  F32.add (- (12303662 * 2 ^ 101)) TWO_PI_F = TWO_PI_F ∧
  position_estimate cosf_opposed sinf_opposed atan2f_opposed [(0, 3); (6, 1)] 12
  = F32.of_int 12.
Proof. repeat split; vm_compute; reflexivity. Qed.

(** ** A slot's share of the sums *)

Lemma sumZ_insert (l1 l2 : list Z) x :
  sumZ (l1 ++ x :: l2) = sumZ (l1 ++ l2) + x.
Proof.
  unfold sumZ. induction l1 as [| y l1 IH]; cbn [foldr app]; [lia |].
  rewrite IH. lia.
Qed.

Lemma max_list_insert (l1 l2 : list Z) x :
  foldr Z.max 0 (l1 ++ x :: l2) = Z.max x (foldr Z.max 0 (l1 ++ l2)).
Proof.
  induction l1 as [| y l1 IH]; cbn [foldr app]; [reflexivity |].
  rewrite IH. lia.
Qed.

(** The sums of a list of terms, around any one of them. *)
Lemma com_of_contributes before after i x :
  (∀ j y, (j, y) ∈ before ++ after → j ≠ i ∧ 0 < y) →
  contributes_in_full (com_of (before ++ (i, x) :: after)) i x.
Proof.
  intros Hothers. exists before, after. cbn [com_of terms totalMag maxStrength].
  split; [reflexivity |]. split; [exact Hothers |].
  rewrite !fmap_app, fmap_cons. cbn [snd].
  split; [apply sumZ_insert |]. split; [apply max_list_insert |].
  intros cosf sinf count. unfold com_vector. rewrite foldl_app. reflexivity.
Qed.

(** The slots that pass a floor, around any one of them: the slots before
    it and the slots after it. *)
Lemma slots_above_split f floor count i :
  0 ≤ i < count → floor ≤ f i →
  ∃ before after,
    slots_above f floor count = before ++ (i, f i) :: after ∧
    ∀ j y, (j, y) ∈ before ++ after → j ≠ i ∧ floor ≤ y.
Proof.
  intros Hi Hf. unfold slots_above.
  set (g := λ i : Z, if floor <=? f i then Some (i, f i) else None).
  exists (omap g (seqZ 0 i)), (omap g (seqZ (Z.succ i) (Z.pred (count - i)))).
  split.
  - replace count with (i + (count - i)) at 1 by lia.
    rewrite seqZ_app by lia. rewrite omap_app. f_equal.
    rewrite Z.add_0_l, seqZ_cons by lia. cbn [omap list_omap].
    unfold g at 1. replace (floor <=? f i) with true by (symmetry; lia).
    reflexivity.
  - intros j y Hin. apply elem_of_app in Hin.
    assert (Hg : ∀ l : list Z, (j, y) ∈ omap g l → j ∈ l ∧ floor ≤ y).
    { intros l H. apply list_elem_of_omap in H. destruct H as (k & Hk & Hsome).
      unfold g in Hsome. destruct (floor <=? f k) eqn:Hfk; [| discriminate].
      injection Hsome as <- <-. split; [exact Hk | lia]. }
    destruct Hin as [Hin | Hin]; apply Hg in Hin; destruct Hin as [Hj Hy];
      apply elem_of_seqZ in Hj; split; lia.
Qed.

(** What enters in full is a term and is within both sums. *)
Lemma contributes_in_full_bounds s i x :
  contributes_in_full s i x →
  (i, x) ∈ terms s ∧ x ≤ totalMag s ∧ x ≤ maxStrength s.
Proof.
  intros (before & after & Ht & Hothers & Hm & Hmax & _).
  split; [| split].
  - rewrite Ht. apply elem_of_app. right. apply list_elem_of_here.
  - rewrite Hm.
    assert (Hnn : ∀ l : list (Z * Z),
               (∀ j y, (j, y) ∈ l → j ≠ i ∧ 0 < y) → 0 ≤ sumZ l.*2).
    { clear. induction l as [| [j y] l IH]; intros H; [cbn; lia |].
      rewrite fmap_cons, sumZ_cons. cbn [snd].
      pose proof (H j y (list_elem_of_here _ _)) as [_ Hy].
      assert (0 ≤ sumZ l.*2); [| lia].
      apply IH. intros k z Hk. apply H. apply list_elem_of_further, Hk. }
    specialize (Hnn _ Hothers). lia.
  - rewrite Hmax. lia.
Qed.

(** The terms of a frame are those of the first loop when it has any,
    those of the fallback loop when it has none. *)
Lemma com_terms_baseline w hw :
  slots_above (baseline_strength w hw) 1 (s_orderCount w) ≠ [] →
  com_terms w hw = slots_above (baseline_strength w hw) 1 (s_orderCount w).
Proof.
  unfold com_terms.
  destruct (slots_above (baseline_strength w hw) 1 (s_orderCount w));
    [intros H; exfalso; apply H; reflexivity | reflexivity].
Qed.

Lemma com_terms_fallback w hw :
  slots_above (baseline_strength w hw) 1 (s_orderCount w) = [] →
  com_terms w hw = slots_above (fallback_strength w hw) 2 (s_orderCount w).
Proof. unfold com_terms. intros ->. reflexivity. Qed.

(** C5, as amended.  [touchTask] does not consult [electrode_enabled].
    Every slot of the electrode order whose electrode reads at least one
    count below its baseline contributes that drop in full: it is a term
    of the sums, the only one of its slot, [totalMag] is the drop more
    than the other terms' strengths add up to, [maxStrength] is the
    larger of the drop and the other strengths, and [sumX] and [sumY]
    take the step that adds [cosf(ang) * drop] and [sinf(ang) * drop].
    When no electrode of the order reads below its baseline, every slot
    whose electrode's filtered count is 30 or less contributes 32 minus
    that count in full through the fallback loop.  Both hold also when
    the calibration data mark that electrode disabled.  What the flag
    does is make the calibration engine's touched test answer [false]. *)
Theorem disabled_electrode_still_weighs g config w hw i :
  0 ≤ i < s_orderCount w →
  let e := arr_get 0 (s_order w) i in
  let drop := u16 (arr_get 0 (baselineData hw) e)
              - u16 (arr_get 0 (filteredData hw) e) in
  let inverse := 32 - u16 (arr_get 0 (filteredData hw) e) in
  touch_calibration_is_electrode_enabled g e = Some false →
  touch_calibration_is_electrode_touched g config e = Some false ∧
  (1 ≤ drop → contributes_in_full (com_estimate w hw) i drop) ∧
  ((∀ j, 0 ≤ j < s_orderCount w →
         u16 (arr_get 0 (baselineData hw) (arr_get 0 (s_order w) j))
         - u16 (arr_get 0 (filteredData hw) (arr_get 0 (s_order w) j)) < 1) →
   2 ≤ inverse →
   contributes_in_full (com_estimate w hw) i inverse).
Proof.
  intros Hi e drop inverse Hoff.
  split; [| split].
  - revert Hoff. unfold touch_calibration_is_electrode_enabled,
      touch_calibration_is_electrode_touched.
    destruct (e >=? TOUCH_ELECTRODE_COUNT); [reflexivity |].
    intros ->. reflexivity.
  - intros Hstr. rewrite com_estimate_is_com_of.
    destruct (slots_above_split (baseline_strength w hw) 1 (s_orderCount w) i
                Hi Hstr) as (before & after & Hsplit & Hothers).
    rewrite com_terms_baseline by (rewrite Hsplit; destruct before; discriminate).
    rewrite Hsplit. apply com_of_contributes. intros j y Hin.
    destruct (Hothers j y Hin). split; lia.
  - intros Hsilent Hstr. rewrite com_estimate_is_com_of.
    rewrite com_terms_fallback.
    + destruct (slots_above_split (fallback_strength w hw) 2 (s_orderCount w) i
                  Hi Hstr) as (before & after & Hsplit & Hothers).
      rewrite Hsplit. apply com_of_contributes. intros j y Hin.
      destruct (Hothers j y Hin). split; lia.
    + destruct (slots_above (baseline_strength w hw) 1 (s_orderCount w))
        as [| [j y] l] eqn:Hl; [reflexivity |].
      assert (Hin : (j, y) ∈ slots_above (baseline_strength w hw) 1 (s_orderCount w))
        by (rewrite Hl; apply list_elem_of_here).
      apply slots_above_elem in Hin. destruct Hin as (Hj & Hone & _).
      specialize (Hsilent j Hj). unfold baseline_strength in Hone.
      cbv zeta in Hone. lia.
Qed.

Lemma disabled_electrode_still_weighs_witness :
  (touch_calibration_is_electrode_touched quarantined_calibration
     TOUCH_CONFIG_DEFAULT 0 = Some false ∧
   contributes_in_full (com_estimate touch_wheel_init (pressed_frame 0)) 0 50) ∧
  contributes_in_full (com_estimate touch_wheel_init (low_frame 0)) 0 22.
Proof.
  split.
  - destruct (disabled_electrode_still_weighs quarantined_calibration
                TOUCH_CONFIG_DEFAULT touch_wheel_init (pressed_frame 0) 0)
      as (Htouched & Hdrop & _).
    + simpl. lia.
    + reflexivity.
    + split; [exact Htouched |]. apply Hdrop. vm_compute. discriminate.
  - destruct (disabled_electrode_still_weighs quarantined_calibration
                TOUCH_CONFIG_DEFAULT touch_wheel_init (low_frame 0) 0)
      as (_ & _ & Hinverse).
    + simpl. lia.
    + reflexivity.
    + apply Hinverse.
      * intros j Hj. change (s_orderCount touch_wheel_init) with 12 in Hj.
        small_index j; vm_compute; reflexivity.
      * vm_compute. discriminate.
Defined.

(** ** The drain under preemption *)

(** A schedule that runs every drain from its load to its store is a run
    of whole polls and whole drains. *)
Lemma wheel_run_unpreempted com_position fuel events :
  ∀ w, wheel_run_preempted com_position fuel (unpreempted events) w None
       = wheel_run com_position fuel events w.
Proof.
  induction events as [| ev events IH]; intros w; [reflexivity |].
  destruct ev as [hw |].
  - cbn [unpreempted flat_map app wheel_run_preempted wheel_run].
    destruct (touchTask_iter com_position fuel w hw) as [[w1 d] |];
      [| reflexivity].
    cbn [mbind option_bind]. fold (unpreempted events). rewrite IH. reflexivity.
  - cbn [unpreempted flat_map app wheel_run_preempted wheel_run
         touchWheelGetAndClearDelta].
    fold (unpreempted events). rewrite IH. reflexivity.
Qed.

(** C8, at the failing schedule.  A drain that is preempted between its
    load (line 173) and its store (line 174) by an iteration of
    [touchTask] that steps returns the counter as it was before that
    iteration and clears the counter as it is after it: the steps of the
    iteration are returned neither by this drain nor by the next one,
    which returns 0, and the drained values no longer add up to the
    steps accumulated. *)
Theorem preempted_drain_drops_steps com_position fuel w hw w1 delta :
  touchTask_iter com_position fuel w hw = Some (w1, delta) →
  delta ≠ 0 →
  ∃ w',
    wheel_run_preempted com_position fuel
      [DrainLoad; PollStep hw; DrainStore; DrainLoad; DrainStore] w None
    = Some (w', [delta], [s_accumDelta w; 0]) ∧
    s_accumDelta w' = 0 ∧
    sumZ [s_accumDelta w; 0] + s_accumDelta w' ≠ s_accumDelta w + sumZ [delta].
Proof.
  intros Hiter Hdelta.
  exists (set_motion (set_motion w1 0 (s_fracMove w1)) 0 (s_fracMove w1)).
  cbn [wheel_run_preempted]. rewrite Hiter.
  cbn [mbind option_bind set_motion s_accumDelta s_fracMove].
  split; [reflexivity |]. split; [reflexivity |].
  cbn [sumZ foldr]. lia.
Qed.

Lemma preempted_drain_drops_steps_witness :
  ∃ w',
    wheel_run_preempted single_slot_position 7
      [DrainLoad; PollStep (slot_frame 1); DrainStore; DrainLoad; DrainStore]
      quarter_wheel None
    = Some (w', [1], [0; 0]) ∧
    s_accumDelta w' = 0 ∧
    sumZ [0; 0] + s_accumDelta w' ≠ 0 + sumZ [1].
Proof.
  destruct (preempted_drain_drops_steps single_slot_position 7 quarter_wheel
              (slot_frame 1)
              (fst (default (quarter_wheel, 0)
                      (touchTask_iter single_slot_position 7 quarter_wheel
                         (slot_frame 1))))
              1) as (w' & Hrun & Hzero & Hsum).
  - vm_compute. reflexivity.
  - discriminate.
  - exists w'. split; [exact Hrun |]. split; [exact Hzero | exact Hsum].
Defined.

(** The same loss over a whole session from start-up: the finger rests on
    slot 0 and moves to slot 1 while the consumer drains.  One step is
    accumulated, both drains return 0 and the counter ends at 0; with
    the first drain run before or after the third poll instead, the
    drains return the step. *)
Example preempted_swipe_drops_a_step :
  (∃ w', wheel_run_preempted single_slot_position 7 preempted_swipe
           touch_wheel_init None = Some (w', [0; 0; 1], [0; 0]) ∧
         s_accumDelta w' = 0) ∧
  (∃ w', wheel_run single_slot_position 7
           [Poll (slot_frame 0); Poll (slot_frame 0); Drain; Poll (slot_frame 1);
            Drain] touch_wheel_init = Some (w', [0; 0; 1], [0; 1]) ∧
         s_accumDelta w' = 0) ∧
  (∃ w', wheel_run single_slot_position 7
           [Poll (slot_frame 0); Poll (slot_frame 0); Poll (slot_frame 1); Drain;
            Drain] touch_wheel_init = Some (w', [0; 0; 1], [1; 0]) ∧
         s_accumDelta w' = 0).
Proof.
  split; [| split]; eexists; (split; [vm_compute; reflexivity | reflexivity]).
Qed.
